(** * Crawl engine of the FastAPI / crawl4ai web crawler

    A shallow embedding of [app/services/scraper.py] (class [WebScraper]) and
    of the helper [extract_domain_from_url] of [app/utils/helpers.py],
    together with the properties of the crawl engine that the specification
    states: visited-set discipline, depth and domain bounds, contact
    de-duplication, URL normalisation, transport fallback and the reset of
    the shared scraper instance.

    Python values are modelled as follows: [str] is [string] (the model covers
    the ASCII range for case mapping and white space), [int] is [Z], a [set]
    of strings is [gset string], a [dict] keyed by URL is [gmap string _],
    a [list] is [list].  An exception is a value of [Exc] carried by
    [PyResult].

    The crawl is asynchronous.  It is modelled as the event loop runs it:
    coroutines that are resumed one at a time, each running without
    interruption up to its next suspension, in an order that the model
    leaves open.  The libraries the engine calls (urllib, crawl4ai, httpx,
    BeautifulSoup, re) are parameters of the development; tasks are not
    cancelled from outside. *)

From Stdlib Require Import ZArith QArith Ascii String.
From stdpp Require Import gmap strings list fin_maps pretty.
Close Scope Q_scope.

(** ** Python values and [str] methods *)

Module Py.

(** The exceptions the crawl engine distinguishes: [asyncio.TimeoutError]
    has a handler of its own in [scrape_website]; every other subclass of
    [Exception] is handled alike. *)
Inductive Exc : Type :=
| AsyncioTimeoutError
| ValueError (msg : string)
| Exception (msg : string).

Inductive PyResult (A : Type) : Type :=
| Returned (a : A)
| Raised (e : Exc).
Arguments Returned {A} a.
Arguments Raised {A} e.

(** [x or y] on strings: the empty string is falsy. *)
Definition or_else (x y : string) : string :=
  if bool_decide (x = "") then y else x.

(** [s.startswith(p)] *)
Definition startswith (s p : string) : bool := String.prefix p s.

(** [c in s] for a single character [c] *)
Fixpoint contains (c : ascii) (s : string) : bool :=
  match s with
  | EmptyString => false
  | String a s' => if Ascii.eqb a c then true else contains c s'
  end.

(** [s.rstrip(c)] for a single character [c] *)
Fixpoint rstrip_char (c : ascii) (s : string) : string :=
  match s with
  | EmptyString => EmptyString
  | String a s' =>
      let r := rstrip_char c s' in
      if bool_decide (r = "") && Ascii.eqb a c then EmptyString else String a r
  end.

(** [s.lstrip(chars)] for a predicate on characters *)
Fixpoint lstrip_by (f : ascii -> bool) (s : string) : string :=
  match s with
  | EmptyString => EmptyString
  | String a s' => if f a then lstrip_by f s' else s
  end.

Fixpoint rstrip_by (f : ascii -> bool) (s : string) : string :=
  match s with
  | EmptyString => EmptyString
  | String a s' =>
      let r := rstrip_by f s' in
      if bool_decide (r = "") && f a then EmptyString else String a r
  end.

(** [str.isspace] on the ASCII range: TAB, LF, VT, FF, CR, FS, GS, RS, US
    and SPACE. *)
Definition isspace (a : ascii) : bool :=
  let n := nat_of_ascii a in
  ((9 <=? n) && (n <=? 13)) || ((28 <=? n) && (n <=? 32)).

(** [s.strip()] *)
Definition strip (s : string) : string := rstrip_by isspace (lstrip_by isspace s).

Definition lower_ascii (a : ascii) : ascii :=
  let n := nat_of_ascii a in
  if (65 <=? n) && (n <=? 90) then ascii_of_nat (n + 32) else a.

(** [s.lower()] *)
Fixpoint lower (s : string) : string :=
  match s with
  | EmptyString => EmptyString
  | String a s' => String (lower_ascii a) (lower s')
  end.

Fixpoint drop_chars (n : nat) (s : string) : string :=
  match n, s with
  | O, _ => s
  | S _, EmptyString => EmptyString
  | S n', String _ s' => drop_chars n' s'
  end.

(** [s.replace(old, new)] for a non-empty [old]: occurrences are replaced
    from left to right and do not overlap.  [skip] counts the characters
    of an occurrence that are still to be consumed. *)
Fixpoint replace_from (old new : string) (skip : nat) (s : string) : string :=
  match s with
  | EmptyString => EmptyString
  | String a s' =>
      match skip with
      | S k => replace_from old new k s'
      | O =>
          if String.prefix old s
          then new +:+ replace_from old new (String.length old - 1) s'
          else String a (replace_from old new 0 s')
      end
  end.

Definition replace (s old new : string) : string := replace_from old new 0 s.

(** [s.split(c, 1)]: the part before the first [c] and, when [c] occurs,
    the part after it. *)
Fixpoint split_once (c : ascii) (s : string) : string * option string :=
  match s with
  | EmptyString => (EmptyString, None)
  | String a s' =>
      if Ascii.eqb a c then (EmptyString, Some s')
      else let '(h, t) := split_once c s' in (String a h, t)
  end.

(** [''.join(parts)] *)
Definition join (parts : list string) : string :=
  foldr String.append EmptyString parts.

(** [l[:n]] *)
Definition slice_to {A} (n : nat) (l : list A) : list A := take n l.
Arguments slice_to : simpl never.

End Py.

Import Py.

(** ** [urllib.parse]

    [urlparse], [urlunparse] and [urljoin] belong to the Python standard
    library.  The crawl engine is verified for an arbitrary implementation of
    them (they are fields of the environment class [Env] below); this module
    fixes the result type and gives a model of CPython's functions that the
    examples run on. *)

Module Urllib.

Record ParseResult : Type := mkParseResult {
  scheme : string;
  netloc : string;
  path : string;
  params : string;
  query : string;
  fragment : string
}.

Definition is_upper (a : ascii) : bool :=
  let n := nat_of_ascii a in (65 <=? n) && (n <=? 90).
Definition is_lower (a : ascii) : bool :=
  let n := nat_of_ascii a in (97 <=? n) && (n <=? 122).
Definition is_digit (a : ascii) : bool :=
  let n := nat_of_ascii a in (48 <=? n) && (n <=? 57).

(** [scheme_chars]: letters, digits and ["+-."] *)
Definition scheme_char (a : ascii) : bool :=
  is_upper a || is_lower a || is_digit a
  || Ascii.eqb a "+" || Ascii.eqb a "-" || Ascii.eqb a ".".

(** [_WHATWG_C0_CONTROL_OR_SPACE] *)
Definition c0_control_or_space (a : ascii) : bool := nat_of_ascii a <=? 32.

(** [_UNSAFE_URL_BYTES_TO_REMOVE]: TAB, CR and LF are deleted anywhere. *)
Definition unsafe_byte (a : ascii) : bool :=
  let n := nat_of_ascii a in (n =? 9) || (n =? 13) || (n =? 10).

Fixpoint remove_chars (f : ascii -> bool) (s : string) : string :=
  match s with
  | EmptyString => EmptyString
  | String a s' => if f a then remove_chars f s' else String a (remove_chars f s')
  end.

Fixpoint all_chars (f : ascii -> bool) (s : string) : bool :=
  match s with
  | EmptyString => true
  | String a s' => f a && all_chars f s'
  end.

(** The scheme is split off when the text before the first [":"] is not
    empty, starts with a letter and consists of scheme characters. *)
Definition split_scheme (url : string) : string * string :=
  match split_once ":" url with
  | (String a _ as before, Some rest) =>
      if (is_upper a || is_lower a) && all_chars scheme_char before
      then (lower before, rest)
      else (EmptyString, url)
  | _ => (EmptyString, url)
  end.

(** [s] cut in front of the first character that satisfies [f]. *)
Fixpoint span_until (f : ascii -> bool) (s : string) : string * string :=
  match s with
  | EmptyString => (EmptyString, EmptyString)
  | String a s' =>
      if f a then (EmptyString, s)
      else let '(h, t) := span_until f s' in (String a h, t)
  end.

Definition netloc_delim (a : ascii) : bool :=
  Ascii.eqb a "/" || Ascii.eqb a "?" || Ascii.eqb a "#".

(** [_splitnetloc(url, 2)] *)
Definition splitnetloc (url : string) : string * string :=
  span_until netloc_delim (drop_chars 2 url).

(** [urlsplit(url)].  Of the validity checks on the network location the
    model keeps the one on unbalanced square brackets; [_checknetloc] only
    concerns non-ASCII hosts and [_check_bracketed_netloc] the contents of
    a bracketed IPv6 literal. *)
Definition urlsplit (url : string)
  : PyResult (string * string * string * string * string) :=
  let url := lstrip_by c0_control_or_space url in
  let url := remove_chars unsafe_byte url in
  let '(scheme, url) := split_scheme url in
  let '(netloc, url) :=
    if startswith url "//" then splitnetloc url else (EmptyString, url) in
  if xorb (contains "[" netloc) (contains "]" netloc)
  then Raised (ValueError "Invalid IPv6 URL")
  else
    let '(url, fragment) :=
      match split_once "#" url with
      | (u, Some f) => (u, f)
      | (u, None) => (u, EmptyString)
      end in
    let '(url, query) :=
      match split_once "?" url with
      | (u, Some q) => (u, q)
      | (u, None) => (u, EmptyString)
      end in
    Returned (scheme, netloc, url, query, fragment).

Definition uses_params : list string :=
  [""; "ftp"; "hdl"; "prospero"; "http"; "imap"; "https"; "shttp"; "rtsp";
   "rtspu"; "sip"; "sips"; "mms"; "sftp"; "tel"].

Definition uses_netloc : list string :=
  [""; "ftp"; "http"; "gopher"; "nntp"; "telnet"; "imap"; "wais"; "file";
   "mms"; "https"; "shttp"; "snews"; "prospero"; "rtsp"; "rtspu"; "rsync";
   "svn"; "svn+ssh"; "sftp"; "nfs"; "git"; "git+ssh"; "ws"; "wss";
   "itms-services"].

(** [_splitparams(url)]: the parameters start at the first [";"] of the
    last path segment. *)
Fixpoint splitparams (url : string) : string * string :=
  match url with
  | EmptyString => (EmptyString, EmptyString)
  | String a s' =>
      if contains "/" s'
      then let '(p, q) := splitparams s' in (String a p, q)
      else match split_once ";" url with
           | (h, Some t) => (h, t)
           | (h, None) => (h, EmptyString)
           end
  end.

Definition cpython_urlparse (url : string) : PyResult ParseResult :=
  match urlsplit url with
  | Raised e => Raised e
  | Returned (scheme, netloc, url, query, fragment) =>
      let '(url, params) :=
        if bool_decide (scheme ∈ uses_params) && contains ";" url
        then splitparams url else (url, EmptyString) in
      Returned (mkParseResult scheme netloc url params query fragment)
  end.

(** [urlunsplit] after [urlunparse] has re-attached the parameters. *)
Definition cpython_urlunparse (p : ParseResult) : string :=
  let url := if bool_decide (params p = "") then path p
             else path p +:+ ";" +:+ params p in
  let url :=
    if negb (bool_decide (netloc p = ""))
       || (negb (bool_decide (scheme p = ""))
           && bool_decide (scheme p ∈ uses_netloc)
           && negb (startswith url "//"))
    then
      let url := if negb (bool_decide (url = "")) && negb (startswith url "/")
                 then "/" +:+ url else url in
      "//" +:+ netloc p +:+ url
    else url in
  let url := if bool_decide (scheme p = "") then url else scheme p +:+ ":" +:+ url in
  let url := if bool_decide (query p = "") then url else url +:+ "?" +:+ query p in
  if bool_decide (fragment p = "") then url else url +:+ "#" +:+ fragment p.

End Urllib.

Import Urllib.

(** ** BeautifulSoup documents

    The parsed document is the input of the extraction passes.  It is
    modelled by what those passes ask of it: a [Tag] carries its name, its
    attributes and its text; a [Soup] answers the queries that the crawl
    engine makes. *)

Module Bs4.

Record Tag : Type := mkTag {
  name : string;
  attrs : list (string * string);
  (** [tag.get_text()] *)
  get_text : string;
  (** [tag.get_text(strip=True)] *)
  get_text_strip : string
}.

Fixpoint lookup_attr (key : string) (l : list (string * string)) : option string :=
  match l with
  | [] => None
  | (k, v) :: l' => if bool_decide (k = key) then Some v else lookup_attr key l'
  end.

(** [tag.get(key, default)] *)
Definition get (t : Tag) (key default : string) : string :=
  match lookup_attr key (attrs t) with
  | Some v => v
  | None => default
  end.

Record Soup : Type := mkSoup {
  (** attributes of the document object itself: [soup.get('lang', '')] *)
  soup_attrs : list (string * string);
  (** [soup.get_text()] *)
  soup_get_text : string;
  (** [soup.get_text(separator=' ', strip=True)] *)
  soup_get_text_sep_strip : string;
  (** [soup.select(selector)] *)
  select : string -> list Tag;
  (** [soup.find_all('a', href=True)] *)
  find_all_a_href : list Tag;
  (** [soup.find_all('meta')] *)
  find_all_meta : list Tag;
  (** [soup.find('link', rel='canonical')] *)
  find_link_canonical : option Tag;
  (** [soup.find('title')] *)
  find_title : option Tag
}.

End Bs4.

(** ** Extracted items

    Every item is a [dict] literal in the source; the records keep the keys.
    Confidence scores are the constants of the source, as rationals. *)

Module TextItem.
Record t : Type := mk {
  content : string;
  page_url : string;
  confidence_score : Q;
  extraction_method : string
}.
End TextItem.

Module ImageItem.
Record t : Type := mk {
  url : string;
  alt_text : string;
  width : option Z;
  height : option Z;
  page_url : string;
  confidence_score : Q;
  extraction_method : string
}.
End ImageItem.

Module Contact.
Record t : Type := mk {
  type : string;
  value : string;
  page_url : string;
  confidence_score : Q;
  extraction_method : string
}.
End Contact.

Module ProductItem.
Record t : Type := mk {
  name : string;
  price : string;
  description : string;
  page_url : string;
  confidence_score : Q;
  extraction_method : string
}.
End ProductItem.

Module SocialItem.
Record t : Type := mk {
  platform : string;
  url : string;
  link_text : string;
  page_url : string;
  confidence_score : Q;
  extraction_method : string
}.
End SocialItem.

Module Metadata.
Record t : Type := mk {
  page_url : string;
  depth : Z;
  title : string;
  description : string;
  keywords : string;
  og_title : string;
  og_description : string;
  og_image : string;
  canonical_url : string;
  language : string;
  charset : string;
  robots : string;
  extraction_method : string
}.
End Metadata.

(** ** Contact extraction: [WebScraper._extract_contact_comprehensive] *)

(** A match returned by [re.findall]: a tuple of groups for a pattern with
    groups, the matched text otherwise. *)
Inductive PhoneMatch : Type :=
| MatchTuple (groups : list string)
| MatchStr (s : string).

Section ContactExtraction.

(** [re.findall(email_pattern, text, re.IGNORECASE)] *)
Variable findall_email : string -> list string.
(** [re.findall(phone_patterns[i], text)] for [i] in [0..3] *)
Variable findall_phone : nat -> string -> list PhoneMatch.
(** [list(set(l))]: the elements of [l] once each, in the iteration order
    of the interpreter's hash table. *)
Variable list_of_set : list string -> list string.

Definition regex_email (base_url email : string) : Contact.t :=
  Contact.mk "email" (lower email) base_url (95 # 100) "regex_pattern_matching".

(** Lines 471-479: the first ten elements of the set of matched emails. *)
Definition email_contacts (base_url all_text : string) : list Contact.t :=
  let emails := findall_email all_text in
  map (regex_email base_url)
    (filter (fun email => email ≠ "" ∧ (5 < String.length email)%nat)
       (slice_to 10 (list_of_set emails))).

(** [phone_str]: the groups joined, or the match itself. *)
Definition phone_str (m : PhoneMatch) : string :=
  match m with
  | MatchTuple groups => join groups
  | MatchStr s => s
  end.

(** [re.sub(r'[^\d+]', '', s)] *)
Definition phone_clean (s : string) : string :=
  remove_chars (fun a => negb (is_digit a || Ascii.eqb a "+")) s.

(** Lines 502-527: the loop over the first ten phone matches, with the set
    [processed_phones] of cleaned numbers already emitted. *)
Fixpoint phone_loop (base_url : string) (matches : list PhoneMatch)
    (processed_phones : gset string) : list Contact.t :=
  match matches with
  | [] => []
  | m :: rest =>
      let s := phone_str m in
      let clean := phone_clean s in
      if bool_decide (10 ≤ String.length clean)%nat
         && negb (bool_decide (clean ∈ processed_phones))
      then Contact.mk "phone" s base_url (8 # 10) "regex_pattern_matching"
           :: phone_loop base_url rest ({[clean]} ∪ processed_phones)
      else phone_loop base_url rest processed_phones
  end.

Definition phone_contacts (base_url all_text : string) : list Contact.t :=
  let all_phone_matches :=
    concat (map (fun i => findall_phone i all_text) [0; 1; 2; 3]%nat) in
  phone_loop base_url (slice_to 10 all_phone_matches) ∅.

(** The double quote inside a selector. *)
Definition dq : string := String "034"%char EmptyString.

Definition contact_selectors : list string :=
  ["a[href^=" +:+ dq +:+ "mailto:" +:+ dq +:+ "]";
   "a[href^=" +:+ dq +:+ "tel:" +:+ dq +:+ "]";
   ".contact"; ".contact-info"; ".email"; ".phone";
   "[class*=" +:+ dq +:+ "contact" +:+ dq +:+ "]";
   "[id*=" +:+ dq +:+ "contact" +:+ dq +:+ "]"].

(** Lines 544-579: what one selected element contributes. *)
Definition element_contacts (base_url : string) (element : Bs4.Tag)
  : list Contact.t :=
  if bool_decide (Bs4.name element = "a") then
    let href := Bs4.get element "href" "" in
    if startswith href "mailto:" then
      let email := strip (replace href "mailto:" "") in
      if negb (bool_decide (email = "")) && contains "@" email
      then [Contact.mk "email" (lower email) base_url (98 # 100) "html_mailto_link"]
      else []
    else if startswith href "tel:" then
      let phone := strip (replace href "tel:" "") in
      if negb (bool_decide (phone = "")) && bool_decide (10 ≤ String.length phone)%nat
      then [Contact.mk "phone" phone base_url (98 # 100) "html_tel_link"]
      else []
    else []
  else
    let element_emails := findall_email (Bs4.get_text element) in
    map (fun email =>
           Contact.mk "email" (lower email) base_url (90 # 100) "html_element_text")
      (filter (fun email => email ≠ "" ∧ (5 < String.length email)%nat)
         (slice_to 3 element_emails)).

Definition selector_contacts (base_url : string) (soup : Bs4.Soup)
  : list Contact.t :=
  concat (map (fun selector =>
                 concat (map (element_contacts base_url) (Bs4.select soup selector)))
            contact_selectors).

(** [f"{contact['type']}:{contact['value']}"] *)
Definition value_key (c : Contact.t) : string :=
  Contact.type c +:+ ":" +:+ Contact.value c.

(** Lines 581-588: keep the first contact of every key. *)
Fixpoint dedup_loop (contacts : list Contact.t) (seen_values : gset string)
  : list Contact.t :=
  match contacts with
  | [] => []
  | contact :: rest =>
      if bool_decide (value_key contact ∈ seen_values)
      then dedup_loop rest seen_values
      else contact :: dedup_loop rest ({[value_key contact]} ∪ seen_values)
  end.

(** The list [contacts] before the last pass. *)
Definition all_contacts (soup : Bs4.Soup) (base_url : string) : list Contact.t :=
  let all_text := Bs4.soup_get_text soup in
  email_contacts base_url all_text
  ++ phone_contacts base_url all_text
  ++ selector_contacts base_url soup.

(** The calls made inside the [try] block are total on the modelled
    documents, so the [except] branch, which would return the empty
    [unique_contacts], is not taken. *)
Definition _extract_contact_comprehensive (soup : Bs4.Soup) (base_url : string)
  : list Contact.t :=
  dedup_loop (all_contacts soup base_url) ∅.

End ContactExtraction.

(** ** The environment of the crawl engine

    The libraries and services the engine calls.  A transport answers a
    request with a value or raises; which of the two happens for a given URL
    is the environment's choice.  The four sub-extractors that no property
    below depends on are taken as they are: each catches its own exceptions
    and always returns a list. *)

Module Crawl4ai.
(** The object returned by [crawler.arun].  [html] is the empty string when
    the attribute is missing; [cleaned_html] is [None] when the attribute is
    missing, and an attribute with the value [None] is the empty string
    here, both being falsy where the engine tests them; [markdown] is
    [str(result.markdown)], or the empty string when the attribute is
    missing or falsy; [error_message] is the attribute or ['Unknown error']. *)
Record CrawlResult : Type := mk {
  success : bool;
  html : string;
  cleaned_html : option string;
  markdown : string;
  error_message : string
}.
End Crawl4ai.

Class Env : Type := {
  (** [urllib.parse] *)
  urlparse : string -> PyResult ParseResult;
  urlunparse : ParseResult -> string;
  urljoin : string -> string -> PyResult string;
  (** [AsyncWebCrawler(crawler_strategy=http_strategy).arun(url, config)],
      as a function of the URL and of [config.page_timeout] *)
  arun : string -> Z -> PyResult Crawl4ai.CrawlResult;
  (** [client.get(url, headers)], [raise_for_status()] and [response.text]
      of an [httpx.AsyncClient(timeout=30.0)] *)
  httpx_get : string -> PyResult string;
  (** [BeautifulSoup(html, 'html.parser')] *)
  BeautifulSoup : string -> PyResult Bs4.Soup;
  (** [re.findall] for the email pattern and the four phone patterns *)
  findall_email : string -> list string;
  findall_phone : nat -> string -> list PhoneMatch;
  (** [list(set(l))] *)
  list_of_set : list string -> list string;
  (** the sub-extractors of text, images, products and social links *)
  _extract_text_comprehensive : Bs4.Soup -> string -> string -> list TextItem.t;
  _extract_images_comprehensive : Bs4.Soup -> string -> list ImageItem.t;
  _extract_products_comprehensive : Bs4.Soup -> string -> list ProductItem.t;
  _extract_social_media_comprehensive : Bs4.Soup -> string -> list SocialItem.t;
  (** the clock: [datetime.now().isoformat()] and
      [round(time.time() - start_time, 2)] at the end of a call *)
  _get_timestamp : string;
  processing_time_seconds : Q
}.

(** ** The state of a [WebScraper] *)

Module Coverage.
Record t : Type := mk {
  total_pages : nat;
  pages_with_text : nat;
  pages_with_images : nat;
  pages_with_contact : nat;
  pages_with_products : nat;
  pages_with_social_media : nat
}.
End Coverage.

Module SitemapEntry.
Record t : Type := mk {
  depth : Z;
  links_found : list string;
  data_extracted : list (option string)
}.
End SitemapEntry.

Module Sitemap.
Record t : Type := mk {
  crawl_structure : gmap string SitemapEntry.t;
  coverage_summary : Coverage.t
}.
End Sitemap.

(** [self.crawl_data].  The two dictionaries keyed by URL are finite maps;
    the insertion order that a Python [dict] also keeps is not observed by
    the engine. *)
Module CrawlData.
Record t : Type := mk {
  text : list TextItem.t;
  images : list ImageItem.t;
  contact : list Contact.t;
  products : list ProductItem.t;
  social_media : list SocialItem.t;
  metadata : list Metadata.t;
  raw_html : gmap string string;
  sitemap : Sitemap.t
}.
End CrawlData.

(** The attributes of the instance ([debug] only switches logging). *)
Module WebScraper.
Record t : Type := mk {
  max_depth : Z;
  timeout : Z;
  max_concurrent : Z;
  crawled_urls : gset string;
  crawl_data : CrawlData.t;
  base_domain : string
}.
End WebScraper.

(** The dictionary returned by [scrape_website]. *)
Module Result.
Record meta : Type := mk_meta {
  scraping_timestamp : string;
  source_url : string;
  company_name : string;
  extraction_method : string;
  crawl_depth : Z;
  total_pages_crawled : nat;
  processing_time : Q;
  base_domain : string
}.
Record data : Type := mk_data {
  text : list TextItem.t;
  images : list ImageItem.t;
  contact : list Contact.t;
  products : list ProductItem.t;
  social_media : list SocialItem.t;
  page_metadata : list Metadata.t
}.
Record t : Type := mk {
  metadata : meta;
  extracted : data;
  raw_html : gmap string string;
  sitemap : Sitemap.t
}.
End Result.

(** The exceptions of [app.core.exceptions] that [scrape_website] raises. *)
Inductive ScrapeExc : Type :=
| TimeoutError (message : string) (timeout_seconds : Z)
| ScrapingError (message : string) (url : string).

Inductive Outcome : Type :=
| Scraped (result : Result.t)
| Failed (e : ScrapeExc).

(** [reset_crawl_data]: the fresh aggregate. *)
Definition empty_crawl_data : CrawlData.t :=
  CrawlData.mk [] [] [] [] [] [] ∅ (Sitemap.mk ∅ (Coverage.mk 0 0 0 0 0 0)).

Definition reset_crawl_data (self : WebScraper.t) : WebScraper.t :=
  WebScraper.mk (WebScraper.max_depth self) (WebScraper.timeout self)
    (WebScraper.max_concurrent self) (WebScraper.crawled_urls self)
    empty_crawl_data (WebScraper.base_domain self).

Definition set_crawl_data (self : WebScraper.t) (d : CrawlData.t) : WebScraper.t :=
  WebScraper.mk (WebScraper.max_depth self) (WebScraper.timeout self)
    (WebScraper.max_concurrent self) (WebScraper.crawled_urls self)
    d (WebScraper.base_domain self).

Definition set_crawled_urls (self : WebScraper.t) (v : gset string) : WebScraper.t :=
  WebScraper.mk (WebScraper.max_depth self) (WebScraper.timeout self)
    (WebScraper.max_concurrent self) v
    (WebScraper.crawl_data self) (WebScraper.base_domain self).

Definition set_base_domain (self : WebScraper.t) (d : string) : WebScraper.t :=
  WebScraper.mk (WebScraper.max_depth self) (WebScraper.timeout self)
    (WebScraper.max_concurrent self) (WebScraper.crawled_urls self)
    (WebScraper.crawl_data self) d.

(** [WebScraper()] for the given settings: [__init__]. *)
Definition __init__ (max_crawl_depth crawl_timeout max_concurrent_requests : Z)
  : WebScraper.t :=
  reset_crawl_data
    (WebScraper.mk max_crawl_depth crawl_timeout max_concurrent_requests ∅
       empty_crawl_data "").

(** [app.core.config.Settings]: the defaults of the three crawl settings. *)
Module settings.
Definition max_crawl_depth : Z := 2.
Definition crawl_timeout : Z := 300.
Definition max_concurrent_requests : Z := 10.
End settings.

(** [web_scraper = WebScraper()]: the instance of the module, which every
    request handled by the process uses. *)
Definition web_scraper : WebScraper.t :=
  __init__ settings.max_crawl_depth settings.crawl_timeout
    settings.max_concurrent_requests.

(** ** The methods of [WebScraper] *)

Section Engine.

Context {env : Env}.

(** [app.utils.helpers.extract_domain_from_url] *)
Definition extract_domain_from_url (url : string) : string :=
  match urlparse url with
  | Returned parsed => lower (netloc parsed)
  | Raised _ => "unknown_domain"
  end.

(** [WebScraper._normalize_url] *)
Definition _normalize_url (url : string) : string :=
  match urlparse url with
  | Returned parsed =>
      urlunparse
        (mkParseResult (scheme parsed) (netloc parsed)
           (or_else (rstrip_char "/" (path parsed)) "/")
           (params parsed) (query parsed) "")
  | Raised _ => url
  end.

(** *** Links of a page: [_extract_all_links_with_beautifulsoup] *)

Definition skipped_href (href : string) : bool :=
  bool_decide (href = "")
  || startswith href "mailto:" || startswith href "tel:"
  || startswith href "javascript:" || startswith href "#".

(** Lines 279-288: the absolute form of an [href]. *)
Definition full_url_of (base_url href : string) : PyResult string :=
  if startswith href "//" then
    match urlparse base_url with
    | Returned base_parsed => Returned (scheme base_parsed +:+ ":" +:+ href)
    | Raised e => Raised e
    end
  else if startswith href "/" then
    match urlparse base_url with
    | Returned base_parsed =>
        Returned (scheme base_parsed +:+ "://" +:+ netloc base_parsed +:+ href)
    | Raised e => Raised e
    end
  else if negb (startswith href "http://" || startswith href "https://") then
    urljoin base_url href
  else Returned href.

(** The loop over the [<a>] tags; an exception ends it and the links
    collected so far are returned. *)
Fixpoint links_loop (base_domain base_url : string) (a_tags : list Bs4.Tag)
    (links : list string) : list string :=
  match a_tags with
  | [] => links
  | a_tag :: rest =>
      let href := strip (Bs4.get a_tag "href" "") in
      if skipped_href href then links_loop base_domain base_url rest links
      else
        match full_url_of base_url href with
        | Raised _ => links
        | Returned full_url =>
            let full_url :=
              if contains "#" full_url then fst (split_once "#" full_url)
              else full_url in
            if bool_decide (extract_domain_from_url full_url = base_domain) then
              let normalized_url := _normalize_url full_url in
              if bool_decide (normalized_url ∈ links)
              then links_loop base_domain base_url rest links
              else links_loop base_domain base_url rest (links ++ [normalized_url])
            else links_loop base_domain base_url rest links
        end
  end.

Definition _extract_all_links_with_beautifulsoup (self : WebScraper.t)
    (html_content base_url : string) : list string :=
  match BeautifulSoup html_content with
  | Raised _ => []
  | Returned soup =>
      links_loop (WebScraper.base_domain self) base_url (Bs4.find_all_a_href soup) []
  end.

(** *** Page metadata: [_extract_metadata_comprehensive] *)

Definition _extract_page_title (soup : Bs4.Soup) : string :=
  match Bs4.find_title soup with
  | Some title_tag => Bs4.get_text_strip title_tag
  | None => ""
  end.

(** One [<meta>] tag: the [if]/[elif] chain of lines 727-740. *)
Definition meta_step (m : Metadata.t) (meta : Bs4.Tag) : Metadata.t :=
  let name := lower (Bs4.get meta "name" "") in
  let property_attr := lower (Bs4.get meta "property" "") in
  let content := Bs4.get meta "content" "" in
  let '(Metadata.mk page_url depth title description keywords og_title
          og_description og_image canonical_url language charset robots method) := m in
  if bool_decide (name = "description") then
    Metadata.mk page_url depth title content keywords og_title og_description
      og_image canonical_url language charset robots method
  else if bool_decide (name = "keywords") then
    Metadata.mk page_url depth title description content og_title og_description
      og_image canonical_url language charset robots method
  else if bool_decide (name = "robots") then
    Metadata.mk page_url depth title description keywords og_title og_description
      og_image canonical_url language charset content method
  else if bool_decide (property_attr = "og:title") then
    Metadata.mk page_url depth title description keywords content og_description
      og_image canonical_url language charset robots method
  else if bool_decide (property_attr = "og:description") then
    Metadata.mk page_url depth title description keywords og_title content
      og_image canonical_url language charset robots method
  else if bool_decide (property_attr = "og:image") then
    Metadata.mk page_url depth title description keywords og_title og_description
      content canonical_url language charset robots method
  else if negb (bool_decide (Bs4.get meta "charset" "" = "")) then
    Metadata.mk page_url depth title description keywords og_title og_description
      og_image canonical_url language (Bs4.get meta "charset" "") robots method
  else m.

Definition set_canonical (m : Metadata.t) (href : string) : Metadata.t :=
  let '(Metadata.mk page_url depth title description keywords og_title
          og_description og_image _ language charset robots method) := m in
  Metadata.mk page_url depth title description keywords og_title og_description
    og_image href language charset robots method.

Definition _extract_metadata_comprehensive (soup : Bs4.Soup) (url : string)
    (depth : Z) : Metadata.t :=
  let metadata :=
    Metadata.mk url depth (_extract_page_title soup) "" "" "" "" "" ""
      (default "" (Bs4.lookup_attr "lang" (Bs4.soup_attrs soup))) "" ""
      "beautifulsoup_meta_parsing" in
  let metadata := fold_left meta_step (Bs4.find_all_meta soup) metadata in
  match Bs4.find_link_canonical soup with
  | Some canonical => set_canonical metadata (Bs4.get canonical "href" "")
  | None => metadata
  end.

(** *** One page: [_extract_comprehensive_data] *)

(** ['text' if text_data else None] *)
Definition tag_if_nonempty {A} (tag : string) (l : list A) : option string :=
  match l with
  | [] => None
  | _ :: _ => Some tag
  end.

Definition _extract_comprehensive_data (self : WebScraper.t)
    (url html_content text_content : string) (depth : Z) : WebScraper.t :=
  match BeautifulSoup html_content with
  | Raised _ => self
  | Returned soup =>
      let d := WebScraper.crawl_data self in
      let text_data := _extract_text_comprehensive soup text_content url in
      let image_data := _extract_images_comprehensive soup url in
      let contact_data :=
        _extract_contact_comprehensive findall_email findall_phone list_of_set
          soup url in
      let product_data := _extract_products_comprehensive soup url in
      let social_data := _extract_social_media_comprehensive soup url in
      let metadata := _extract_metadata_comprehensive soup url depth in
      let links_found := _extract_all_links_with_beautifulsoup self html_content url in
      let entry :=
        SitemapEntry.mk depth (slice_to 10 links_found)
          [tag_if_nonempty "text" text_data;
           tag_if_nonempty "images" image_data;
           tag_if_nonempty "contact" contact_data;
           tag_if_nonempty "products" product_data;
           tag_if_nonempty "social_media" social_data] in
      set_crawl_data self
        (CrawlData.mk
           (CrawlData.text d ++ text_data)
           (CrawlData.images d ++ image_data)
           (CrawlData.contact d ++ contact_data)
           (CrawlData.products d ++ product_data)
           (CrawlData.social_media d ++ social_data)
           (CrawlData.metadata d ++ [metadata])
           (<[url := html_content]> (CrawlData.raw_html d))
           (Sitemap.mk
              (<[url := entry]> (Sitemap.crawl_structure (CrawlData.sitemap d)))
              (Sitemap.coverage_summary (CrawlData.sitemap d))))
  end.

(** *** The transports *)

Definition str_exc (e : Exc) : string :=
  match e with
  | AsyncioTimeoutError => ""
  | ValueError msg => msg
  | Exception msg => msg
  end.

(** [min(self.timeout * 1000, 30000)] *)
Definition page_timeout (self : WebScraper.t) : Z :=
  Z.min (WebScraper.timeout self * 1000) 30000.

(** [_crawl_with_http_crawl4ai]: every exception, also the one raised for an
    unsuccessful result, leaves as a plain [Exception]. *)
Definition _crawl_with_http_crawl4ai (self : WebScraper.t) (url : string)
  : PyResult (string * string) :=
  match arun url (page_timeout self) with
  | Returned result =>
      if Crawl4ai.success result && negb (bool_decide (Crawl4ai.html result = ""))
      then
        let html_content :=
          match Crawl4ai.cleaned_html result with
          | Some cleaned => cleaned
          | None => Crawl4ai.html result
          end in
        Returned (html_content, Crawl4ai.markdown result)
      else
        Raised (Exception ("HTTP crawl4ai error: HTTP crawl4ai failed: "
                           +:+ Crawl4ai.error_message result))
  | Raised e => Raised (Exception ("HTTP crawl4ai error: " +:+ str_exc e))
  end.

(** [_crawl_with_httpx] *)
Definition _crawl_with_httpx (url : string) : PyResult (string * string) :=
  match httpx_get url with
  | Returned html_content =>
      match BeautifulSoup html_content with
      | Returned soup => Returned (html_content, Bs4.soup_get_text_sep_strip soup)
      | Raised e => Raised (Exception ("httpx error: " +:+ str_exc e))
      end
  | Raised e => Raised (Exception ("httpx error: " +:+ str_exc e))
  end.

End Engine.

(** ** The crawl as interleaved coroutines

    [_crawl_website_comprehensive] is a coroutine.  Between two [await]s
    that suspend it, its code runs without interruption on the event loop,
    so a crawl is an interleaving of such atomic segments.  A coroutine is
    represented by the point where it is suspended:

    - [Start]: called and not yet run (a worker of [_crawl_subpages] is in
      this state while it sleeps in front of the call);
    - [AwaitCrawl4ai]: suspended in [_crawl_with_http_crawl4ai];
    - [AwaitHttpx]: suspended in [_crawl_with_httpx].

    After the [await] of [_crawl_subpages] the coroutine does nothing more,
    so the workers it starts are simply added to the pool.  The semaphore of
    a batch only delays workers; it is kept where it changes what can happen:
    a negative initial value raises [ValueError], and with the value [0] no
    worker of the batch ever runs. *)

Inductive Caller : Type :=
| ByScrape    (** awaited by [scrape_website] *)
| ByGather.   (** a task of [asyncio.gather(..., return_exceptions=True)] *)

Inductive Coro : Type :=
| Start (caller : Caller) (url : string) (current_depth : Z)
| AwaitCrawl4ai (caller : Caller) (normalized_url : string) (current_depth : Z)
| AwaitHttpx (caller : Caller) (normalized_url : string) (current_depth : Z).

(** The requests sent to the transports, in the order they are made. *)
Inductive Event : Type :=
| Arun (url : string) (page_timeout_ms : Z) (current_depth : Z)
| HttpxGet (url : string) (user_agent : string) (timeout_s : Z) (current_depth : Z).

(** What running one segment does: the new state of the instance, the
    requests made, the coroutines that exist afterwards on its behalf,
    workers that wait for a semaphore without permits, and an exception that
    leaves [_crawl_website_comprehensive]. *)
Record Resumed : Type := mkResumed {
  self' : WebScraper.t;
  events : list Event;
  spawned : list Coro;
  blocked : list Coro;
  raised : option Exc
}.

Section Crawl.

Context {env : Env}.

(** The [User-Agent] header of [_crawl_with_httpx]. *)
Definition user_agent : string :=
  "Mozilla/5.0 (Windows NT 10.0; Win64; x64) AppleWebKit/537.36 (KHTML, like Gecko) Chrome/91.0.4472.124 Safari/537.36".

Definition returns (self : WebScraper.t) : Resumed :=
  mkResumed self [] [] [] None.

(** [_crawl_subpages]: the workers of one batch. *)
Definition _crawl_subpages (self : WebScraper.t) (links : list string)
    (max_depth current_depth : Z) : PyResult (list Coro * list Coro) :=
  if bool_decide (links = []) || (max_depth <? current_depth)%Z then Returned ([], [])
  else
    let new_links := filter (fun link => link ∉ WebScraper.crawled_urls self) links in
    let permits := Z.min (WebScraper.max_concurrent self) 3 in
    if (permits <? 0)%Z
    then Raised (ValueError "Semaphore initial value must be >= 0")
    else
      let batch_size := Nat.min 10 (length new_links) in
      let tasks :=
        map (fun link => Start ByGather link current_depth)
          (slice_to batch_size new_links) in
      if (permits =? 0)%Z then Returned ([], tasks) else Returned (tasks, []).

(** Lines 182-199: the page has been fetched. *)
Definition fetched (max_depth : Z) (self : WebScraper.t)
    (normalized_url html_content text_content : string) (current_depth : Z)
  : Resumed :=
  if bool_decide (html_content = "") then returns self
  else
    let self :=
      _extract_comprehensive_data self normalized_url html_content text_content
        current_depth in
    if (current_depth <? max_depth)%Z then
      let links :=
        _extract_all_links_with_beautifulsoup self html_content normalized_url in
      match _crawl_subpages self links max_depth (current_depth + 1) with
      | Returned (tasks, waiting) => mkResumed self [] tasks waiting None
      | Raised e => mkResumed self [] [] [] (Some e)
      end
    else returns self.

(** One atomic segment of [_crawl_website_comprehensive]. *)
Definition resume (max_depth : Z) (self : WebScraper.t) (c : Coro) : Resumed :=
  match c with
  | Start caller url current_depth =>
      if (max_depth <? current_depth)%Z
         || bool_decide (url ∈ WebScraper.crawled_urls self)
      then returns self
      else
        let normalized_url := _normalize_url url in
        if bool_decide (normalized_url ∈ WebScraper.crawled_urls self)
        then returns self
        else if negb (bool_decide (extract_domain_from_url normalized_url
                                   = WebScraper.base_domain self))
        then returns self
        else
          mkResumed
            (set_crawled_urls self ({[normalized_url]} ∪ WebScraper.crawled_urls self))
            [Arun normalized_url (page_timeout self) current_depth]
            [AwaitCrawl4ai caller normalized_url current_depth] [] None
  | AwaitCrawl4ai caller normalized_url current_depth =>
      match _crawl_with_http_crawl4ai self normalized_url with
      | Returned (html_content, text_content) =>
          fetched max_depth self normalized_url html_content text_content
            current_depth
      | Raised _ =>
          mkResumed self [HttpxGet normalized_url user_agent 30 current_depth]
            [AwaitHttpx caller normalized_url current_depth] [] None
      end
  | AwaitHttpx caller normalized_url current_depth =>
      match _crawl_with_httpx normalized_url with
      | Returned (html_content, text_content) =>
          fetched max_depth self normalized_url html_content text_content
            current_depth
      | Raised _ => returns self
      end
  end.

Definition caller_of (c : Coro) : Caller :=
  match c with
  | Start caller _ _ | AwaitCrawl4ai caller _ _ | AwaitHttpx caller _ _ => caller
  end.

(** A crawl in progress: the instance, the requests made so far, the
    coroutines that can be resumed, the workers blocked for good, and the
    exception with which the call made by [scrape_website] ended. *)
Record Session : Type := mkSession {
  self : WebScraper.t;
  trace : list Event;
  pool : list Coro;
  stuck : list Coro;
  root_exc : option Exc
}.

(** The event loop resumes the coroutine at position [i] of the pool
    (counted modulo its length).  An exception of a gathered task is
    swallowed by [return_exceptions=True]. *)
Definition step_at (max_depth : Z) (i : nat) (s : Session) : Session :=
  let k := (i `mod` length (pool s))%nat in
  match pool s !! k with
  | None => s
  | Some c =>
      let r := resume max_depth (self s) c in
      mkSession (self' r) (trace s ++ events r)
        (take k (pool s) ++ spawned r ++ drop (S k) (pool s))
        (stuck s ++ blocked r)
        (match caller_of c, raised r with
         | ByScrape, Some e => Some e
         | _, _ => root_exc s
         end)
  end.

Fixpoint run (max_depth : Z) (sched : list nat) (s : Session) : Session :=
  match sched with
  | [] => s
  | i :: sched' => run max_depth sched' (step_at max_depth i s)
  end.

(** *** [scrape_website] *)

(** [max_depth or self.max_depth] *)
Definition crawl_depth_of (self : WebScraper.t) (max_depth : option Z) : Z :=
  match max_depth with
  | Some d => if (d =? 0)%Z then WebScraper.max_depth self else d
  | None => WebScraper.max_depth self
  end.

(** Lines 83-93: the state is reset and the call of
    [_crawl_website_comprehensive] runs up to its first suspension. *)
Definition begin_session (self : WebScraper.t) (url : string)
    (max_depth : option Z) : Session :=
  let self := set_crawled_urls self ∅ in
  let self := reset_crawl_data self in
  let self := set_base_domain self (extract_domain_from_url url) in
  let crawl_depth := crawl_depth_of self max_depth in
  step_at crawl_depth 0 (mkSession self [] [Start ByScrape url 0] [] None).

(** [_update_coverage_summary]: every item is a non-empty [dict], hence
    truthy, and the comprehensions count all of them. *)
Definition _update_coverage_summary (self : WebScraper.t) : WebScraper.t :=
  let d := WebScraper.crawl_data self in
  set_crawl_data self
    (CrawlData.mk (CrawlData.text d) (CrawlData.images d) (CrawlData.contact d)
       (CrawlData.products d) (CrawlData.social_media d) (CrawlData.metadata d)
       (CrawlData.raw_html d)
       (Sitemap.mk (Sitemap.crawl_structure (CrawlData.sitemap d))
          (Coverage.mk
             (size (WebScraper.crawled_urls self))
             (length (CrawlData.text d))
             (length (CrawlData.images d))
             (length (CrawlData.contact d))
             (length (CrawlData.products d))
             (length (CrawlData.social_media d))))).

(** Lines 107-128: the returned dictionary. *)
Definition result_of (self : WebScraper.t) (url company_name : string)
    (crawl_depth : Z) : Result.t :=
  let d := WebScraper.crawl_data self in
  Result.mk
    (Result.mk_meta _get_timestamp url company_name "crawl4AI_HTTP_BeautifulSoup"
       crawl_depth (size (WebScraper.crawled_urls self)) processing_time_seconds
       (WebScraper.base_domain self))
    (Result.mk_data (CrawlData.text d) (CrawlData.images d) (CrawlData.contact d)
       (CrawlData.products d) (CrawlData.social_media d) (CrawlData.metadata d))
    (CrawlData.raw_html d)
    (CrawlData.sitemap d).

(** The two handlers of lines 130-140. *)
Definition scrape_handler (self : WebScraper.t) (url : string) (e : Exc) : ScrapeExc :=
  match e with
  | AsyncioTimeoutError =>
      TimeoutError
        ("Scraping timed out after " +:+ pretty (WebScraper.timeout self) +:+ " seconds")
        (WebScraper.timeout self)
  | _ => ScrapingError ("Failed to scrape " +:+ url +:+ ": " +:+ str_exc e) url
  end.

(** How the call ends once the crawl has reached session [s]: with an
    exception, with the result, or not at all ([None]) when coroutines
    remain, be it that the schedule is not finished or that workers are
    blocked on a semaphore without permits. *)
Definition end_session (s : Session) (url company_name : string)
    (crawl_depth : Z) : option Outcome * WebScraper.t :=
  match root_exc s with
  | Some e => (Some (Failed (scrape_handler (self s) url e)), self s)
  | None =>
      match pool s, stuck s with
      | [], [] =>
          let self := _update_coverage_summary (self s) in
          (Some (Scraped (result_of self url company_name crawl_depth)), self)
      | _, _ => (None, self s)
      end
  end.

(** The number of segments a coroutine at [k] levels above the maximum
    depth and its descendants can run: three of its own and ten workers
    one level deeper. *)
Fixpoint crawl_weight (k : nat) : nat :=
  match k with
  | O => 3
  | S k' => 3 + 10 * crawl_weight k'
  end.

(** The crawl of one call under the event loop's [policy], which names the
    coroutine to resume at each step. *)
Definition crawl (policy : nat -> nat) (self : WebScraper.t) (url : string)
    (max_depth : option Z) : Session :=
  let crawl_depth := crawl_depth_of self max_depth in
  let sched := map policy (seq 0 (crawl_weight (Z.to_nat crawl_depth))) in
  run crawl_depth sched (begin_session self url max_depth).

(** *** Two calls at the same time

    The route [/scrape] is a coroutine of the same event loop, so a second
    call of [scrape_website] can start while the crawl of a first one is
    suspended.  Both crawls then run on the one instance: a segment of
    either call reads and writes the attributes that the other one uses. *)

Inductive Turn : Type :=
| TurnFirst (i : nat)     (** resume coroutine [i] of the first call *)
| TurnSecond (i : nat).   (** resume coroutine [i] of the second call *)

(** The crawl [s] seen on the current state [slf] of the instance. *)
Definition on_instance (slf : WebScraper.t) (s : Session) : Session :=
  mkSession slf (trace s) (pool s) (stuck s) (root_exc s).

Fixpoint interleave (depth1 depth2 : Z) (turns : list Turn)
    (first second : Session) : Session * Session :=
  match turns with
  | [] => (first, second)
  | TurnFirst i :: turns' =>
      let first := step_at depth1 i first in
      interleave depth1 depth2 turns' first (on_instance (self first) second)
  | TurnSecond i :: turns' =>
      let second := step_at depth2 i second in
      interleave depth1 depth2 turns' (on_instance (self second) first) second
  end.

(** The first call starts on [slf]; the second starts while the first is
    suspended in its first request; then the coroutines take [turns]. *)
Definition overlapping_crawls (slf : WebScraper.t) (url1 url2 : string)
    (max_depth1 max_depth2 : option Z) (turns : list Turn) : Session * Session :=
  let first := begin_session slf url1 max_depth1 in
  let second := begin_session (self first) url2 max_depth2 in
  interleave (crawl_depth_of slf max_depth1) (crawl_depth_of slf max_depth2) turns
    (on_instance (self second) first) second.

(** [scrape_website]: the outcome of the call and the instance it leaves. *)
Definition scrape_website (policy : nat -> nat) (self : WebScraper.t)
    (url company_name : string) (max_depth : option Z)
  : option Outcome * WebScraper.t :=
  end_session (crawl policy self url max_depth) url company_name
    (crawl_depth_of self max_depth).

End Crawl.

(** ** Concrete environments for the examples

    An environment given by tables: what each transport answers for a URL,
    the document that the parser builds from an HTML text, and the matches
    of the patterns in a text.  URLs are parsed by the CPython model. *)

Module Fixture.

Fixpoint assoc {A} (d : A) (table : list (string * A)) (key : string) : A :=
  match table with
  | [] => d
  | (k, v) :: table' => if bool_decide (k = key) then v else assoc d table' key
  end.

Definition empty_soup : Bs4.Soup :=
  Bs4.mkSoup [] "" "" (fun _ => []) [] [] None None.

(** [urljoin] for a reference without dot segments, scheme or query: the
    last segment of the base path is replaced. *)
Fixpoint up_to_last_slash (s : string) : string :=
  match s with
  | EmptyString => EmptyString
  | String a s' => if contains "/" s' then String a (up_to_last_slash s')
                   else if Ascii.eqb a "/" then "/" else EmptyString
  end.

Definition simple_urljoin (base ref : string) : PyResult string :=
  match cpython_urlparse base with
  | Returned b =>
      Returned (scheme b +:+ "://" +:+ netloc b
                +:+ or_else (up_to_last_slash (path b)) "/" +:+ ref)
  | Raised e => Raised e
  end.

Definition unreachable {A} : PyResult A := Raised (Exception "connection failed").

Definition table_env
    (arun_table : list (string * PyResult Crawl4ai.CrawlResult))
    (httpx_table : list (string * PyResult string))
    (soups : list (string * Bs4.Soup))
    (emails : list (string * list string))
    (phones : list (string * list PhoneMatch))
    (order : list string -> list string) : Env :=
  {| urlparse := cpython_urlparse;
     urlunparse := cpython_urlunparse;
     urljoin := simple_urljoin;
     arun := fun url _ => assoc unreachable arun_table url;
     httpx_get := assoc unreachable httpx_table;
     BeautifulSoup := fun html => Returned (assoc empty_soup soups html);
     findall_email := assoc [] emails;
     findall_phone := fun i text => if bool_decide (i = 0%nat) then assoc [] phones text else [];
     list_of_set := order;
     _extract_text_comprehensive := fun _ _ _ => [];
     _extract_images_comprehensive := fun _ _ => [];
     _extract_products_comprehensive := fun _ _ => [];
     _extract_social_media_comprehensive := fun _ _ => [];
     _get_timestamp := "2025-01-01T00:00:00";
     processing_time_seconds := 1 # 1 |}.

(** A successful answer of crawl4ai with the given HTML. *)
Definition ok_page (html : string) : PyResult Crawl4ai.CrawlResult :=
  Returned (Crawl4ai.mk true html (Some html) "" "").

Definition anchor (href : string) : Bs4.Tag :=
  Bs4.mkTag "a" [("href", href)] "" "".

(** A document whose only content is a list of links. *)
Definition soup_with_links (hrefs : list string) : Bs4.Soup :=
  Bs4.mkSoup [] "" "" (fun _ => []) (map anchor hrefs) [] None None.

(** The event loop that always resumes the first coroutine of the pool. *)
Definition first_ready : nat -> nat := fun _ => 0%nat.

End Fixture.

(** ** Vocabulary of the properties *)

(** [k] copies of the character [c]. *)
Fixpoint chars (c : ascii) (k : nat) : string :=
  match k with
  | O => EmptyString
  | S k' => String c (chars c k')
  end.

Fixpoint last_char (s : string) : option ascii :=
  match s with
  | EmptyString => None
  | String a EmptyString => Some a
  | String _ s' => last_char s'
  end.

(** The path that [_normalize_url] hands to [urlunparse], for the path [p]
    of the parsed URL: [p] without its trailing slashes, or ["/"] when
    nothing else is left. *)
Definition collapsed (p p' : string) : Prop :=
  ∃ k, (p' = "/" ∧ p = chars "/" k)
       ∨ (p' ≠ "" ∧ last_char p' ≠ Some "/"%char ∧ p = p' +:+ chars "/" k).

(** A component of a URL without TAB, CR and LF and without the characters
    of [forbidden]. *)
Definition url_component (forbidden : list ascii) (s : string) : bool :=
  all_chars (fun a => negb (unsafe_byte a) && negb (bool_decide (a ∈ forbidden))) s.

(** Components of a plain web address: the scheme is [http] or [https],
    the host is not empty and has no delimiter and no bracket, the path
    starts with a slash and has no ["?"], ["#"] and [";"], the parameters
    have no ["/"], ["?"] and ["#"], the query has no ["#"], and there is no
    fragment. *)
Definition plain_http_components (c : ParseResult) : bool :=
  bool_decide (scheme c ∈ ["http"; "https"])
  && negb (bool_decide (netloc c = ""))
  && url_component ["/"; "?"; "#"; "["; "]"]%char (netloc c)
  && startswith (path c) "/"
  && url_component ["?"; "#"; ";"]%char (path c)
  && url_component ["/"; "?"; "#"]%char (params c)
  && url_component ["#"]%char (query c)
  && bool_decide (fragment c = "").

(** The URLs requested from each transport, in order. *)
Definition arun_urls (t : list Event) : list string :=
  omap (fun e => match e with Arun url _ _ => Some url | _ => None end) t.

Definition httpx_urls (t : list Event) : list string :=
  omap (fun e => match e with HttpxGet url _ _ _ => Some url | _ => None end) t.

Definition event_url (e : Event) : string :=
  match e with
  | Arun url _ _ | HttpxGet url _ _ _ => url
  end.

Definition event_depth (e : Event) : Z :=
  match e with
  | Arun _ _ d | HttpxGet _ _ _ d => d
  end.

Definition coro_depth (c : Coro) : Z :=
  match c with
  | Start _ _ d | AwaitCrawl4ai _ _ d | AwaitHttpx _ _ d => d
  end.

(** The URLs whose answer from crawl4ai is still awaited. *)
Definition awaiting_crawl4ai (p : list Coro) : list string :=
  omap (fun c => match c with AwaitCrawl4ai _ url _ => Some url | _ => None end) p.

Arguments arun_urls : simpl never.
Arguments httpx_urls : simpl never.
Arguments awaiting_crawl4ai : simpl never.

(** A coroutine suspended in a transport, with its URL and depth. *)
Definition fetching (c : Coro) : option (string * Z) :=
  match c with
  | Start _ _ _ => None
  | AwaitCrawl4ai _ url d | AwaitHttpx _ url d => Some (url, d)
  end.

Section Relations.

Context {env : Env}.

(** The fetch of one URL as the specification describes it: the primary
    transport, and the direct client when the primary fails. *)
Definition fetch (self : WebScraper.t) (url : string) : PyResult (string * string) :=
  match _crawl_with_http_crawl4ai self url with
  | Returned page => Returned page
  | Raised _ => _crawl_with_httpx url
  end.

(** The effect of one atomic segment, as a relation: the call returns at
    once; it marks the URL as visited and sends the request to crawl4ai; the
    answer of crawl4ai is a page; crawl4ai failed and the request goes to
    httpx; the answer of httpx is a page; httpx failed too. *)
Inductive resumes (max_depth : Z) (self : WebScraper.t) : Coro → Resumed → Prop :=
| resumes_skip caller url d :
    resumes max_depth self (Start caller url d) (returns self)
| resumes_request caller url d :
    (d ≤ max_depth)%Z →
    _normalize_url url ∉ WebScraper.crawled_urls self →
    extract_domain_from_url (_normalize_url url) = WebScraper.base_domain self →
    resumes max_depth self (Start caller url d)
      (mkResumed
         (set_crawled_urls self ({[_normalize_url url]} ∪ WebScraper.crawled_urls self))
         [Arun (_normalize_url url) (page_timeout self) d]
         [AwaitCrawl4ai caller (_normalize_url url) d] [] None)
| resumes_primary caller url d html_content text_content :
    _crawl_with_http_crawl4ai self url = Returned (html_content, text_content) →
    resumes max_depth self (AwaitCrawl4ai caller url d)
      (fetched max_depth self url html_content text_content d)
| resumes_fallback caller url d e :
    _crawl_with_http_crawl4ai self url = Raised e →
    resumes max_depth self (AwaitCrawl4ai caller url d)
      (mkResumed self [HttpxGet url user_agent 30 d] [AwaitHttpx caller url d] [] None)
| resumes_secondary caller url d html_content text_content :
    _crawl_with_httpx url = Returned (html_content, text_content) →
    resumes max_depth self (AwaitHttpx caller url d)
      (fetched max_depth self url html_content text_content d)
| resumes_give_up caller url d e :
    _crawl_with_httpx url = Raised e →
    resumes max_depth self (AwaitHttpx caller url d) (returns self).

(** The settings and the base domain of the instance, which a crawl never
    changes. *)
Definition same_settings (a b : WebScraper.t) : Prop :=
  WebScraper.max_depth a = WebScraper.max_depth b
  ∧ WebScraper.timeout a = WebScraper.timeout b
  ∧ WebScraper.max_concurrent a = WebScraper.max_concurrent b
  ∧ WebScraper.base_domain a = WebScraper.base_domain b.

(** What the aggregate says about pages, against the requests made: every
    sitemap entry, raw-HTML entry and metadata record belongs to a URL that
    was requested, at the depth it records, and the stored HTML is the
    non-empty answer of the fetch. *)
Record data_from_trace (self : WebScraper.t) (t : list Event) (d : CrawlData.t)
  : Prop := {
  sitemap_from_trace : ∀ u e,
    Sitemap.crawl_structure (CrawlData.sitemap d) !! u = Some e →
    (∃ pt, Arun u pt (SitemapEntry.depth e) ∈ t)
    ∧ is_Some (CrawlData.raw_html d !! u);
  raw_html_from_trace : ∀ u h,
    CrawlData.raw_html d !! u = Some h →
    (∃ pt depth, Arun u pt depth ∈ t)
    ∧ h ≠ "" ∧ ∃ text, fetch self u = Returned (h, text);
  metadata_from_trace : ∀ m,
    m ∈ CrawlData.metadata d →
    (∃ pt, Arun (Metadata.page_url m) pt (Metadata.depth m) ∈ t)
    ∧ is_Some (CrawlData.raw_html d !! Metadata.page_url m)
}.

(** The invariant of a crawl with maximum depth [max_depth]. *)
Record session_inv (max_depth : Z) (s : Session) : Prop := {
  inv_domain : ∀ u,
    u ∈ WebScraper.crawled_urls (self s) →
    extract_domain_from_url u = WebScraper.base_domain (self s);
  inv_visited : ∀ u,
    u ∈ WebScraper.crawled_urls (self s) ↔ u ∈ arun_urls (trace s);
  inv_arun_nodup : NoDup (arun_urls (trace s));
  inv_httpx_nodup : NoDup (awaiting_crawl4ai (pool s) ++ httpx_urls (trace s));
  inv_httpx_requested : ∀ u,
    u ∈ awaiting_crawl4ai (pool s) ++ httpx_urls (trace s) → u ∈ arun_urls (trace s);
  inv_event_depth : ∀ e, e ∈ trace s → (0 ≤ event_depth e ≤ max_depth)%Z;
  inv_event_timeout : ∀ u pt d,
    Arun u pt d ∈ trace s → pt = page_timeout (self s);
  inv_event_httpx : ∀ u ua tm d,
    HttpxGet u ua tm d ∈ trace s →
    ua = user_agent ∧ tm = 30%Z
    ∧ ∃ e, _crawl_with_http_crawl4ai (self s) u = Raised e;
  inv_answered : ∀ u,
    u ∈ arun_urls (trace s) →
    u ∈ awaiting_crawl4ai (pool s)
    ∨ (∃ page, _crawl_with_http_crawl4ai (self s) u = Returned page)
    ∨ u ∈ httpx_urls (trace s);
  inv_coro_depth : ∀ c, c ∈ pool s ++ stuck s → (0 ≤ coro_depth c)%Z;
  inv_fetching : ∀ c u d,
    c ∈ pool s → fetching c = Some (u, d) → ∃ pt, Arun u pt d ∈ trace s;
  inv_await_httpx : ∀ caller u d,
    AwaitHttpx caller u d ∈ pool s →
    ∃ e, _crawl_with_http_crawl4ai (self s) u = Raised e;
  inv_root_exc :
    root_exc s = None ∨ ∃ msg, root_exc s = Some (ValueError msg);
  inv_order : ∀ i u ua tm d,
    trace s !! i = Some (HttpxGet u ua tm d) →
    ∃ j pt d', (j < i)%nat ∧ trace s !! j = Some (Arun u pt d');
  inv_data : data_from_trace (self s) (trace s) (WebScraper.crawl_data (self s))
}.

End Relations.

(** What [list(set(l))] guarantees whatever the hash seed: the elements of
    [l], once each. *)
Definition set_listing (order : list string → list string) : Prop :=
  ∀ l, NoDup (order l) ∧ ∀ x, x ∈ order l ↔ x ∈ l.

(** The number of segments a coroutine and its descendants can still run,
    at most, in a crawl of maximum depth [max_depth]. *)
Definition coro_weight (max_depth : Z) (c : Coro) : nat :=
  match c with
  | Start _ _ d =>
      if (max_depth <? d)%Z then 1%nat else crawl_weight (Z.to_nat (max_depth - d))
  | AwaitCrawl4ai _ _ d => (crawl_weight (Z.to_nat (max_depth - d)) - 1)%nat
  | AwaitHttpx _ _ d => (crawl_weight (Z.to_nat (max_depth - d)) - 2)%nat
  end.

Definition pool_weight (max_depth : Z) (p : list Coro) : nat :=
  sum_list_with (coro_weight max_depth) p.

(** The exception with which the call made by [scrape_website] has ended,
    after a segment of coroutine [c] with result [r]. *)
Definition root_exc_after (c : Coro) (r : Resumed) (rx : option Exc) : option Exc :=
  match caller_of c, raised r with
  | ByScrape, Some e => Some e
  | _, _ => rx
  end.

(** ** Further vocabulary: budgets and bookkeeping of a crawl *)

(** The number of pages a call at [k] levels above the maximum depth can
    request, itself included: each page starts at most ten workers. *)
Fixpoint page_budget (k : nat) : nat :=
  match k with
  | O => 1
  | S k' => 1 + 10 * page_budget k'
  end.

(** The pages a crawl of maximum depth [max_depth] can request. *)
Definition crawl_page_budget (max_depth : Z) : nat :=
  if (max_depth <? 0)%Z then 0%nat else page_budget (Z.to_nat max_depth).

(** The pages a coroutine and its descendants can still request. *)
Definition coro_budget (max_depth : Z) (c : Coro) : nat :=
  match c with
  | Start _ _ d =>
      if (max_depth <? d)%Z then 0%nat else page_budget (Z.to_nat (max_depth - d))
  | AwaitCrawl4ai _ _ d | AwaitHttpx _ _ d =>
      (page_budget (Z.to_nat (max_depth - d)) - 1)%nat
  end.

Definition pool_budget (max_depth : Z) (p : list Coro) : nat :=
  sum_list_with (coro_budget max_depth) p.

(** The URLs whose fetch is in progress. *)
Definition fetching_urls (p : list Coro) : list string :=
  omap (fun c => fst <$> fetching c) p.

Arguments fetching_urls : simpl never.

Section ExtraRelations.

Context {env : Env}.

(** What one link of a page is: the normal form of an absolute URL without
    fragment, on the base domain, made from an [href] that is not skipped. *)
Definition link_of (base_domain base_url : string) (a_tags : list Bs4.Tag)
    (link : string) : Prop :=
  ∃ a_tag absolute full_url,
    a_tag ∈ a_tags
    ∧ skipped_href (strip (Bs4.get a_tag "href" "")) = false
    ∧ full_url_of base_url (strip (Bs4.get a_tag "href" "")) = Returned absolute
    ∧ full_url = (if contains "#" absolute then fst (split_once "#" absolute)
                  else absolute)
    ∧ contains "#" full_url = false
    ∧ extract_domain_from_url full_url = base_domain
    ∧ link = _normalize_url full_url.

(** The HTML text that the aggregate holds for a visited URL once its fetch
    is over: the text fetched, when it is not empty and the parser accepts
    it. *)
Definition recordable (self : WebScraper.t) (url : string) : option string :=
  match fetch self url with
  | Returned (html, _) =>
      if bool_decide (html = "") then None
      else
        match BeautifulSoup html with
        | Returned _ => Some html
        | Raised _ => None
        end
  | Raised _ => None
  end.

(** The shape of a sitemap entry. *)
Definition entry_wf (e : SitemapEntry.t) : Prop :=
  (length (SitemapEntry.links_found e) ≤ 10)%nat
  ∧ NoDup (SitemapEntry.links_found e)
  ∧ length (SitemapEntry.data_extracted e) = 5%nat.

(** The bookkeeping of a crawl: the fetches in progress are for distinct
    URLs without recorded page; the sitemap, the raw HTML and the metadata
    speak of the same pages; a visited URL whose fetch is over has its page
    recorded exactly when it could be. *)
Record books_inv (self : WebScraper.t) (p : list Coro) : Prop := {
  books_fetching_nodup : NoDup (fetching_urls p);
  books_fetching_fresh : ∀ u,
    u ∈ fetching_urls p →
    CrawlData.raw_html (WebScraper.crawl_data self) !! u = None;
  books_sitemap : ∀ u,
    is_Some (Sitemap.crawl_structure
               (CrawlData.sitemap (WebScraper.crawl_data self)) !! u)
    ↔ is_Some (CrawlData.raw_html (WebScraper.crawl_data self) !! u);
  books_metadata_nodup :
    NoDup (Metadata.page_url <$> CrawlData.metadata (WebScraper.crawl_data self));
  books_metadata : ∀ u,
    u ∈ Metadata.page_url <$> CrawlData.metadata (WebScraper.crawl_data self)
    ↔ is_Some (CrawlData.raw_html (WebScraper.crawl_data self) !! u);
  books_settled : ∀ u,
    u ∈ WebScraper.crawled_urls self →
    u ∉ fetching_urls p →
    CrawlData.raw_html (WebScraper.crawl_data self) !! u = recordable self u;
  books_entries : ∀ u e,
    Sitemap.crawl_structure (CrawlData.sitemap (WebScraper.crawl_data self)) !! u
    = Some e →
    entry_wf e
}.

(** The state of the instance at a later point of the same crawl: nothing
    visited or recorded is gone or changed. *)
Record grows (a b : WebScraper.t) : Prop := {
  grows_visited : WebScraper.crawled_urls a ⊆ WebScraper.crawled_urls b;
  grows_text :
    CrawlData.text (WebScraper.crawl_data a)
    `prefix_of` CrawlData.text (WebScraper.crawl_data b);
  grows_images :
    CrawlData.images (WebScraper.crawl_data a)
    `prefix_of` CrawlData.images (WebScraper.crawl_data b);
  grows_contact :
    CrawlData.contact (WebScraper.crawl_data a)
    `prefix_of` CrawlData.contact (WebScraper.crawl_data b);
  grows_products :
    CrawlData.products (WebScraper.crawl_data a)
    `prefix_of` CrawlData.products (WebScraper.crawl_data b);
  grows_social_media :
    CrawlData.social_media (WebScraper.crawl_data a)
    `prefix_of` CrawlData.social_media (WebScraper.crawl_data b);
  grows_metadata :
    CrawlData.metadata (WebScraper.crawl_data a)
    `prefix_of` CrawlData.metadata (WebScraper.crawl_data b);
  grows_raw_html :
    CrawlData.raw_html (WebScraper.crawl_data a)
    ⊆ CrawlData.raw_html (WebScraper.crawl_data b);
  grows_sitemap :
    Sitemap.crawl_structure (CrawlData.sitemap (WebScraper.crawl_data a))
    ⊆ Sitemap.crawl_structure (CrawlData.sitemap (WebScraper.crawl_data b))
}.

End ExtraRelations.

(** ** Which [<meta>] tag sets which field

    The [if]/[elif] chain of [_extract_metadata_comprehensive] looks at the
    lower-cased [name] first, then at the lower-cased [property], then at
    [charset]. *)

Definition meta_name (meta : Bs4.Tag) : string := lower (Bs4.get meta "name" "").

Definition meta_property (meta : Bs4.Tag) : string :=
  lower (Bs4.get meta "property" "").

(** The tag passes the three tests on [name]. *)
Definition unnamed_meta (meta : Bs4.Tag) : Prop :=
  meta_name meta ∉ ["description"; "keywords"; "robots"].

(** The tag passes the tests on [name] and on [property]. *)
Definition plain_meta (meta : Bs4.Tag) : Prop :=
  unnamed_meta meta
  ∧ meta_property meta ∉ ["og:title"; "og:description"; "og:image"].

#[global] Instance unnamed_meta_dec meta : Decision (unnamed_meta meta).
Proof. unfold unnamed_meta. apply _. Defined.

#[global] Instance plain_meta_dec meta : Decision (plain_meta meta).
Proof. unfold plain_meta. apply _. Defined.

(** The value a field gets from the tags that set it: the one of the last
    such tag, the initial value when there is none. *)
Definition last_value (P : Bs4.Tag → Prop) `{∀ t, Decision (P t)}
    (value : Bs4.Tag → string) (initial : string) (tags : list Bs4.Tag) : string :=
  from_option value initial (last (filter P tags)).

(** * [app.utils.helpers]

    The functions of the module besides [extract_domain_from_url].  Strings
    are ASCII texts, as everywhere in this development: the character
    classes below are those of [re] and [str] on the ASCII range. *)

Module PyStr.

(** Every character of the text is an ASCII character. *)
Definition is_ascii (a : ascii) : bool := nat_of_ascii a <? 128.

Definition isascii (s : string) : bool := all_chars is_ascii s.

Definition is_alpha (a : ascii) : bool := is_upper a || is_lower a.

(** [str.isalnum] of one character *)
Definition is_alnum (a : ascii) : bool := is_alpha a || is_digit a.

(** The class [\w] of [re] *)
Definition is_word (a : ascii) : bool := is_alnum a || Ascii.eqb a "_".

Definition upper_ascii (a : ascii) : ascii :=
  let n := nat_of_ascii a in
  if (97 <=? n) && (n <=? 122) then ascii_of_nat (n - 32) else a.

(** [needle in hay] for texts *)
Fixpoint str_in (needle hay : string) : bool :=
  String.prefix needle hay
  || match hay with
     | EmptyString => false
     | String _ hay' => str_in needle hay'
     end.

(** [s.split(c)] for a single character [c] *)
Fixpoint split (c : ascii) (s : string) : list string :=
  match s with
  | EmptyString => [EmptyString]
  | String a s' =>
      if Ascii.eqb a c then EmptyString :: split c s'
      else
        match split c s' with
        | h :: t => String a h :: t
        | [] => [String a EmptyString]
        end
  end.

(** [s.title()]: a letter after a letter is lower-cased, any other letter
    is upper-cased. *)
Fixpoint title_from (previous_is_cased : bool) (s : string) : string :=
  match s with
  | EmptyString => EmptyString
  | String a s' =>
      String (if previous_is_cased then lower_ascii a else upper_ascii a)
        (title_from (is_alpha a) s')
  end.

Definition title (s : string) : string := title_from false s.

(** [s.strip(c)] for a single character [c] *)
Definition strip_char (c : ascii) (s : string) : string :=
  rstrip_by (fun a => Ascii.eqb a c) (lstrip_by (fun a => Ascii.eqb a c) s).

(** [re.sub(r'[class]', '', s)] *)
Definition re_sub_class (class : ascii -> bool) (s : string) : string :=
  remove_chars class s.

(** [re.sub(r'[class]+', repl, s)]: every maximal run of characters of the
    class is replaced by [repl]; [in_run] tells that the previous character
    belongs to the run being replaced. *)
Fixpoint re_sub_runs_from (class : ascii -> bool) (repl : string) (in_run : bool)
    (s : string) : string :=
  match s with
  | EmptyString => EmptyString
  | String a s' =>
      if class a then
        if in_run then re_sub_runs_from class repl true s'
        else repl +:+ re_sub_runs_from class repl true s'
      else String a (re_sub_runs_from class repl false s')
  end.

Definition re_sub_runs (class : ascii -> bool) (repl s : string) : string :=
  re_sub_runs_from class repl false s.

End PyStr.

Import PyStr.

(** [sanitize_company_name] *)
Definition sanitize_company_name (company_name : string) : string :=
  let sanitized :=
    re_sub_class (fun a => negb (is_word a || isspace a || Ascii.eqb a "-"))
      company_name in
  let sanitized :=
    re_sub_runs (fun a => Ascii.eqb a "-" || isspace a) "_" sanitized in
  strip_char "_" (lower sanitized).

(** The characters of a sanitized name. *)
Definition is_path_safe (a : ascii) : bool :=
  is_lower a || is_digit a || Ascii.eqb a "_".

(** [generate_file_name]; [timestamp] is the value of
    [datetime.utcnow().strftime("%Y%m%d_%H%M%S")] at the call. *)
Definition generate_file_name (timestamp company_name data_type : string) : string :=
  let sanitized_company := sanitize_company_name company_name in
  let sanitized_data_type := sanitize_company_name data_type in
  if bool_decide (data_type = "error")
  then sanitized_company +:+ "_crawl_error_" +:+ timestamp +:+ ".json"
  else sanitized_company +:+ "_" +:+ sanitized_data_type +:+ "_" +:+ timestamp
       +:+ ".json".

(** [generate_s3_key] *)
Definition generate_s3_key (company_name data_type file_name : string) : string :=
  let sanitized_company := sanitize_company_name company_name in
  sanitized_company +:+ "/" +:+ data_type +:+ "/" +:+ file_name.

(** An exception as [is_retriable_error] sees it: whether it is an instance
    of [OSError], of which the built-in [TimeoutError] and
    [ConnectionError] are subclasses, and its text [str(error)]. *)
Module Error.
Record t : Type := mk {
  type_name : string;
  isinstance_OSError : bool;
  str : string
}.
End Error.

Definition retriable_keywords : list string :=
  ["timeout"; "connection"; "network"; "temporary"; "rate limit";
   "too many requests"; "server error"; "gateway"; "bad gateway"].

(** [is_retriable_error] *)
Definition is_retriable_error (error : Error.t) : bool :=
  if Error.isinstance_OSError error then true
  else
    let error_message := lower (Error.str error) in
    existsb (fun keyword => str_in keyword error_message) retriable_keywords.

(** The outcome of an awaited call. *)
Inductive Awaited (A : Type) : Type :=
| Ok (value : A)
| Err (error : Error.t).

Arguments Ok {A} value.
Arguments Err {A} error.

(** What [raise None] raises. *)
Definition raise_None : Error.t :=
  Error.mk "TypeError" false "exceptions must derive from BaseException".

(** The loop of [retry_async] from attempt [attempt] on, with [fuel]
    iterations of [range(max_retries + 1)] left.  [func k] is the outcome
    of the call number [k] of the function; the result comes with the
    delays slept, in order. *)
Fixpoint retry_loop {A} (func : nat -> Awaited A) (max_retries : Z)
    (attempt fuel : nat) (delay backoff_factor : Q)
    (last_exception : option Error.t) : Awaited A * list Q :=
  match fuel with
  | O =>
      (Err (default raise_None last_exception), [])
  | S fuel' =>
      match func attempt with
      | Ok value => (Ok value, [])
      | Err e =>
          if (Z.of_nat attempt =? max_retries)%Z || negb (is_retriable_error e)
          then (Err e, [])
          else
            let '(result, slept) :=
              retry_loop func max_retries (S attempt) fuel'
                (delay * backoff_factor)%Q backoff_factor (Some e) in
            (result, delay :: slept)
      end
  end.

(** [retry_async] *)
Definition retry_async {A} (func : nat -> Awaited A) (max_retries : Z)
    (delay backoff_factor : Q) : Awaited A * list Q :=
  retry_loop func max_retries 0 (Z.to_nat (max_retries + 1)) delay backoff_factor
    None.

(** The delay before the retry number [i + 1]: the initial delay multiplied
    [i] times by the backoff factor. *)
Fixpoint delay_before_retry (delay backoff_factor : Q) (i : nat) : Q :=
  match i with
  | O => delay
  | S i' => delay_before_retry (delay * backoff_factor)%Q backoff_factor i'
  end.

Section UrlHelpers.

Context {env : Env}.

(** [validate_url] *)
Definition validate_url (url : string) : bool :=
  match urlparse url with
  | Returned parsed =>
      negb (bool_decide (scheme parsed = "")) && negb (bool_decide (netloc parsed = ""))
  | Raised _ => false
  end.

(** [extract_company_name_from_url] *)
Definition extract_company_name_from_url (url : string) : string :=
  let domain := extract_domain_from_url url in
  match split "." domain with
  | first :: second :: _ =>
      let company_part :=
        if bool_decide (first ∈ ["www"; "web"; "app"; "api"]) then second else first in
      title (replace (replace company_part "-" " ") "_" " ")
  | _ => title domain
  end.

End UrlHelpers.

(** * [WebScraper._extract_social_media_comprehensive]

    One of the extractors that the crawl engine takes from its environment,
    as the source has it. *)

Module Extractors.

(** The dictionary [social_platforms], in its order. *)
Definition social_platforms : list (string * string) :=
  [("facebook.com", "Facebook"); ("twitter.com", "Twitter");
   ("x.com", "X (Twitter)"); ("linkedin.com", "LinkedIn");
   ("instagram.com", "Instagram"); ("youtube.com", "YouTube");
   ("tiktok.com", "TikTok"); ("pinterest.com", "Pinterest");
   ("snapchat.com", "Snapchat"); ("github.com", "GitHub")].

(** The inner loop: the first platform whose domain occurs in [href] and
    that has not been found yet. *)
Fixpoint match_platform (href : string) (found_platforms : gset string)
    (platforms : list (string * string)) : option string :=
  match platforms with
  | [] => None
  | (platform_domain, platform_name) :: rest =>
      if str_in platform_domain href
         && negb (bool_decide (platform_name ∈ found_platforms))
      then Some platform_name
      else match_platform href found_platforms rest
  end.

(** The loop over the links. *)
Fixpoint social_loop (base_url : string) (links : list Bs4.Tag)
    (found_platforms : gset string) : list SocialItem.t :=
  match links with
  | [] => []
  | link :: rest =>
      let href := Bs4.get link "href" "" in
      let link_text := Bs4.get_text_strip link in
      match match_platform href found_platforms social_platforms with
      | Some platform_name =>
          SocialItem.mk platform_name href link_text base_url (95 # 100)
            "beautifulsoup_domain_matching"
          :: social_loop base_url rest ({[platform_name]} ∪ found_platforms)
      | None => social_loop base_url rest found_platforms
      end
  end.

Definition _extract_social_media_comprehensive (soup : Bs4.Soup)
    (base_url : string) : list SocialItem.t :=
  social_loop base_url (Bs4.find_all_a_href soup) ∅.

(** The first platform of the dictionary whose domain occurs in [href]. *)
Definition first_platform (href : string) : option (string * string) :=
  List.find (fun p => str_in (fst p) href) social_platforms.

(** An item made from a link of the page and a platform whose domain occurs
    in the target of the link. *)
Definition social_item_of (base_url : string) (links : list Bs4.Tag)
    (item : SocialItem.t) : Prop :=
  ∃ link platform_domain,
    link ∈ links
    ∧ (platform_domain, SocialItem.platform item) ∈ social_platforms
    ∧ str_in platform_domain (Bs4.get link "href" "") = true
    ∧ item = SocialItem.mk (SocialItem.platform item) (Bs4.get link "href" "")
               (Bs4.get_text_strip link) base_url (95 # 100)
               "beautifulsoup_domain_matching".

End Extractors.

(** ** The environments of the examples *)

Module Examples.

Import Fixture.

(** A host that no transport reaches. *)
Definition dead_site : Env := table_env [] [] [] [] [] remove_dups.

(** A host on which crawl4ai runs into its page timeout and httpx into its
    own timeout. *)
Definition timing_out_site : Env :=
  table_env [("https://ex.com/", Raised AsyncioTimeoutError)]
    [("https://ex.com/", Raised (Exception "ReadTimeout"))] [] [] [] remove_dups.

(** The scraper with a timeout of one second. *)
Definition impatient_scraper : WebScraper.t := __init__ 2 1 10.

(** A site whose root page links to a page of the site, to a page of
    another host, to the same page with a trailing slash, to a fragment and
    to a mail address; the page [/a] links back to the root and to [/c]. *)
Definition small_site : Env :=
  table_env
    [("https://ex.com/", ok_page "ROOT"); ("https://ex.com/a", ok_page "A");
     ("https://ex.com/c", ok_page "C")]
    []
    [("ROOT", soup_with_links
                ["https://ex.com/a"; "https://other.com/b"; "/a/"; "#top";
                 "mailto:x@y.com"]);
     ("A", soup_with_links ["/"; "/c"])]
    [] [] remove_dups.

(** A site that only the direct client reaches. *)
Definition fallback_site : Env :=
  table_env [] [("https://ex.com/", Returned "ROOT")]
    [("ROOT", soup_with_links ["/a"])] [] [] remove_dups.

(** Two hosts with one page each. *)
Definition two_sites : Env :=
  table_env
    [("https://a.com/", ok_page "PAGE A"); ("https://b.com/", ok_page "PAGE B")]
    [] [] [] [] remove_dups.

(** The second call starts while the first awaits its page; then the page
    of the first call arrives, then the page of the second. *)
Definition two_calls : Session * Session :=
  @overlapping_crawls two_sites web_scraper "https://a.com" "https://b.com"
    None None [TurnFirst 0%nat; TurnSecond 0%nat].

(** A page with the link [mailto:X@y.com] and the text "Write to x@y.com". *)
Definition mailto_selector : string := "a[href^=" +:+ dq +:+ "mailto:" +:+ dq +:+ "]".

Definition mailto_link : Bs4.Tag := anchor "mailto:X@y.com".

Definition contact_page : Bs4.Soup :=
  Bs4.mkSoup [] "Write to x@y.com" "Write to x@y.com"
    (fun selector => if bool_decide (selector = mailto_selector) then [mailto_link] else [])
    [mailto_link] [] None None.

Definition contact_page_emails : string -> list string :=
  assoc [] [("Write to x@y.com", ["x@y.com"])].

Definition no_phones : nat -> string -> list PhoneMatch := fun _ _ => [].

(** Two ways to list a set: in the order of first occurrence, and in the
    reverse of it. *)
Definition first_seen : list string -> list string := remove_dups.
Definition last_seen : list string -> list string := fun l => reverse (remove_dups l).

(** A page whose text has eleven distinct addresses. *)
Definition eleven_emails : list string :=
  ["a0@x.com"; "a1@x.com"; "a2@x.com"; "a3@x.com"; "a4@x.com"; "a5@x.com";
   "a6@x.com"; "a7@x.com"; "a8@x.com"; "a9@x.com"; "b0@x.com"].

Definition crowded_page : Bs4.Soup :=
  Bs4.mkSoup [] "eleven addresses" "eleven addresses" (fun _ => []) [] [] None None.

Definition crowded_page_emails : string -> list string :=
  assoc [] [("eleven addresses", eleven_emails)].

(** A page whose text has two addresses. *)
Definition pair_page : Bs4.Soup :=
  Bs4.mkSoup [] "two addresses" "two addresses" (fun _ => []) [] [] None None.

Definition pair_page_emails : string -> list string :=
  assoc [] [("two addresses", ["info@x.com"; "sales@x.com"])].

End Examples.

(** * Properties *)

(** ** Strings *)

Module PyFacts.

Lemma app_String a s t : String a s +:+ t = String a (s +:+ t).
Proof. reflexivity. Qed.

Lemma rstrip_char_empty c s :
  rstrip_char c s = "" → ∃ k, s = chars c k.
Proof.
  induction s as [|a s IH]; simpl.
  - intros _. by exists 0%nat.
  - case_bool_decide as Hr; simpl.
    + destruct (Ascii.eqb_spec a c) as [->|]; [|done].
      intros _. destruct (IH Hr) as [k ->]. by exists (S k).
    + done.
Qed.

Lemma rstrip_char_split c s :
  ∃ k, s = rstrip_char c s +:+ chars c k.
Proof.
  induction s as [|a s [k IH]]; simpl.
  - by exists 0%nat.
  - case_bool_decide as Hr; simpl.
    + destruct (Ascii.eqb_spec a c) as [->|].
      * destruct (rstrip_char_empty _ _ Hr) as [k' ->]. by exists (S k').
      * exists k. rewrite app_String. by f_equal.
    + exists k. rewrite app_String. by f_equal.
Qed.

Lemma rstrip_char_last c s :
  last_char (rstrip_char c s) ≠ Some c.
Proof.
  induction s as [|a s IH]; simpl; [done|].
  case_bool_decide as Hr; simpl.
  - destruct (Ascii.eqb_spec a c) as [->|Hne]; simpl; [done|].
    rewrite Hr. congruence.
  - destruct (rstrip_char c s) eqn:E; [done|]. exact IH.
Qed.

End PyFacts.

Import PyFacts.


(** ** The CPython functions *)

Module CPythonFacts.

Lemma contains_app c a b : contains c (a +:+ b) = contains c a || contains c b.
Proof.
  induction a as [|x a IH]; [done|]. rewrite app_String. simpl.
  by destruct (Ascii.eqb x c).
Qed.

Lemma contains_rstrip_char c d s :
  contains c s = false → contains c (rstrip_char d s) = false.
Proof.
  induction s as [|x s IH]; [done|]. simpl.
  destruct (Ascii.eqb x c) eqn:E; [done|]. intros Hs.
  destruct (bool_decide _ && _); [done|]. simpl. rewrite E. by apply IH.
Qed.

Lemma contains_split_once_fst c s : contains c (fst (split_once c s)) = false.
Proof.
  induction s as [|x s IH]; [done|]. simpl.
  destruct (Ascii.eqb x c) eqn:E; [done|].
  destruct (split_once c s) as [h t]. simpl in *. by rewrite E.
Qed.

Lemma contains_split_once c d s :
  contains c s = false →
  contains c (fst (split_once d s)) = false
  ∧ ∀ t, snd (split_once d s) = Some t → contains c t = false.
Proof.
  induction s as [|x s IH]; simpl.
  { intros _. split; [done|]. done. }
  destruct (Ascii.eqb x c) eqn:E; [done|]. intros Hs.
  destruct (Ascii.eqb x d); simpl.
  - split; [done|]. intros t Ht. by simplify_eq.
  - destruct (IH Hs) as [H1 H2]. destruct (split_once d s) as [h t]. simpl in *.
    by rewrite E.
Qed.

Lemma contains_splitparams c s :
  contains c s = false →
  contains c (fst (splitparams s)) = false ∧ contains c (snd (splitparams s)) = false.
Proof.
  induction s as [|x s IH]; [done|]. intros Hs. cbn [splitparams].
  destruct (contains "/" s).
  - simpl in Hs. destruct (Ascii.eqb x c) eqn:E; [done|].
    destruct (IH Hs) as [H1 H2]. destruct (splitparams s) as [p q]. simpl in *.
    by rewrite E.
  - destruct (contains_split_once c ";" (String x s) Hs) as [H1 H2].
    destruct (split_once ";" (String x s)) as [h [t|]]; simpl in *; [|done].
    split; [done|]. by apply H2.
Qed.

Lemma contains_span_until c f s :
  f c = true → contains c (fst (span_until f s)) = false.
Proof.
  intros Hf. induction s as [|x s IH]; [done|]. simpl.
  destruct (f x) eqn:E; [done|].
  destruct (span_until f s) as [h t]. simpl in *.
  destruct (Ascii.eqb_spec x c) as [->|]; [congruence|done].
Qed.

Lemma contains_lower_scheme s :
  all_chars scheme_char s = true → contains "#" (lower s) = false.
Proof.
  induction s as [|x s IH]; [done|]. simpl.
  intros [Hx Hs]%andb_true_iff. rewrite (IH Hs).
  destruct x as [[] [] [] [] [] [] [] []]; vm_compute in Hx |- *; congruence.
Qed.

Lemma split_scheme_no_fragment url :
  contains "#" (fst (split_scheme url)) = false.
Proof.
  unfold split_scheme. destruct (split_once ":" url) as [[|a before] [rest|]]; try done.
  destruct (_ && all_chars scheme_char (String a before)) eqn:E; [|done].
  apply andb_true_iff in E as [_ E]. by apply contains_lower_scheme.
Qed.

(** CPython's [urlsplit] puts everything after the first ["#"] into the
    fragment: no other component contains a ["#"]. *)
Lemma urlsplit_no_fragment url sch nl u q f :
  urlsplit url = Returned (sch, nl, u, q, f) →
  contains "#" sch = false ∧ contains "#" nl = false
  ∧ contains "#" u = false ∧ contains "#" q = false.
Proof.
  unfold urlsplit.
  set (url1 := remove_chars unsafe_byte (lstrip_by c0_control_or_space url)).
  pose proof (split_scheme_no_fragment url1) as Hsch.
  destruct (split_scheme url1) as [sch' rest].
  assert (Hnl : ∀ n r,
            (if startswith rest "//" then splitnetloc rest else (EmptyString, rest))
            = (n, r) → contains "#" n = false).
  { intros n r. destruct (startswith rest "//"); [|by intros [= <- _]].
    unfold splitnetloc. intros H.
    pose proof (contains_span_until "#" netloc_delim (drop_chars 2 rest) eq_refl) as Hs.
    by rewrite H in Hs. }
  destruct (if startswith rest "//" then _ else _) as [nl' rest'] eqn:E.
  specialize (Hnl _ _ eq_refl).
  destruct (xorb _ _); [done|].
  pose proof (contains_split_once_fst "#" rest') as Hu.
  destruct (split_once "#" rest') as [u1 frag]. simpl in Hu.
  assert (Hq : ∀ u2 q2,
            match split_once "?" u1 with
            | (a, Some b) => (a, b)
            | (a, None) => (a, EmptyString)
            end = (u2, q2) →
            contains "#" u2 = false ∧ contains "#" q2 = false).
  { intros u2 q2. destruct (contains_split_once "#" "?" u1 Hu) as [H1 H2].
    destruct (split_once "?" u1) as [a [b|]]; intros [= <- <-]; simpl in *; eauto. }
  destruct frag as [f'|];
    destruct (match split_once "?" u1 with (a, Some b) => (a, b) | (a, None) => (a, EmptyString) end)
      as [u2 q2] eqn:E2;
    destruct (Hq _ _ eq_refl); intros [= <- <- <- <- <-]; simpl in *; eauto.
Qed.

Lemma cpython_urlparse_no_fragment url p :
  cpython_urlparse url = Returned p →
  contains "#" (scheme p) = false ∧ contains "#" (netloc p) = false
  ∧ contains "#" (path p) = false ∧ contains "#" (params p) = false
  ∧ contains "#" (query p) = false.
Proof.
  unfold cpython_urlparse.
  destruct (urlsplit url) as [[[[[sch nl] u] q] f]|e] eqn:E; [|done].
  apply urlsplit_no_fragment in E as (Hs & Hn & Hu & Hq).
  destruct (contains_splitparams "#" u Hu) as [Hp1 Hp2].
  destruct (_ && contains ";" u).
  - destruct (splitparams u) as [u' pr]. intros [= <-]. simpl in *. eauto.
  - intros [= <-]. simpl. eauto.
Qed.

Lemma cpython_urlunparse_no_fragment p :
  contains "#" (scheme p) = false → contains "#" (netloc p) = false →
  contains "#" (path p) = false → contains "#" (params p) = false →
  contains "#" (query p) = false → fragment p = "" →
  contains "#" (cpython_urlunparse p) = false.
Proof.
  intros Hs Hn Hp Hpr Hq Hf. unfold cpython_urlunparse. rewrite Hf.
  rewrite bool_decide_true by done.
  repeat (match goal with
          | |- context [if ?b then _ else _] => destruct b
          end);
    rewrite ?contains_app, ?Hs, ?Hn, ?Hp, ?Hpr, ?Hq; done.
Qed.

End CPythonFacts.

(** ** CPython's [urlparse] after [urlunparse] *)

Module CPythonRoundTrip.

Lemma append_nil_r s : s +:+ "" = s.
Proof. induction s as [|a s IH]; [done|]. by rewrite app_String, IH. Qed.

Lemma append_assoc3 a b c : (a +:+ b) +:+ c = a +:+ (b +:+ c).
Proof. induction a as [|x a IH]; [done|]. by rewrite !app_String, IH. Qed.

Lemma startswith_one a t c :
  startswith (String a t) (String c "") = Ascii.eqb a c.
Proof.
  unfold startswith. simpl. destruct (ascii_dec c a) as [->|Hne].
  - rewrite Ascii.eqb_refl. by destruct t.
  - symmetry. apply Ascii.eqb_neq. congruence.
Qed.

Lemma all_chars_append f s t :
  all_chars f (s +:+ t) = all_chars f s && all_chars f t.
Proof.
  induction s as [|a s IH]; [done|]. rewrite app_String. simpl.
  by rewrite IH, andb_assoc.
Qed.

Lemma remove_chars_none f s :
  all_chars (fun a => negb (f a)) s = true → remove_chars f s = s.
Proof.
  induction s as [|a s IH]; [done|]. simpl. intros [Ha Hs]%andb_true_iff.
  apply negb_true_iff in Ha. by rewrite Ha, IH.
Qed.

Lemma split_once_none c s : contains c s = false → split_once c s = (s, None).
Proof.
  induction s as [|a s IH]; [done|]. simpl.
  destruct (Ascii.eqb a c); [done|]. intros H. by rewrite IH.
Qed.

Lemma split_once_append c a b :
  contains c a = false → split_once c (a +:+ String c b) = (a, Some b).
Proof.
  induction a as [|x a IH]; simpl.
  { intros _. by rewrite Ascii.eqb_refl. }
  destruct (Ascii.eqb x c); [done|]. intros H. by rewrite IH.
Qed.

Lemma span_until_append f a c b :
  all_chars (fun x => negb (f x)) a = true → f c = true →
  span_until f (a +:+ String c b) = (a, String c b).
Proof.
  intros Ha Hc. induction a as [|x a IH]; simpl.
  { by rewrite Hc. }
  simpl in Ha. apply andb_true_iff in Ha as [Hx Ha]. apply negb_true_iff in Hx.
  by rewrite Hx, IH.
Qed.

Lemma splitparams_append p q :
  contains ";" p = false → contains "/" q = false →
  splitparams (p +:+ String ";" q) = (p, q).
Proof.
  intros Hp Hq. induction p as [|a p IH].
  { simpl. by rewrite Hq. }
  rewrite app_String. simpl in Hp.
  destruct (Ascii.eqb a ";") eqn:Ea; [done|].
  change (splitparams (String a (p +:+ String ";" q)))
    with (if contains "/" (p +:+ String ";" q)
          then let '(x, y) := splitparams (p +:+ String ";" q) in (String a x, y)
          else match split_once ";" (String a (p +:+ String ";" q)) with
               | (h, Some t) => (h, t)
               | (h, None) => (h, EmptyString)
               end).
  destruct (contains "/" (p +:+ String ";" q)).
  - by rewrite IH.
  - rewrite <- app_String, split_once_append; [done|]. simpl. by rewrite Ea.
Qed.

Lemma url_component_contains forbidden s x :
  url_component forbidden s = true → x ∈ forbidden → contains x s = false.
Proof.
  intros Hs Hx. induction s as [|a s IH]; [done|]. simpl in *.
  apply andb_true_iff in Hs as [[_ Ha]%andb_true_iff Hs].
  apply negb_true_iff, bool_decide_eq_false in Ha.
  destruct (Ascii.eqb_spec a x) as [->|_]; [done|]. by apply IH.
Qed.

Lemma url_component_safe forbidden s :
  url_component forbidden s = true →
  all_chars (fun a => negb (unsafe_byte a)) s = true.
Proof.
  induction s as [|a s IH]; [done|]. simpl.
  intros [[Ha _]%andb_true_iff Hs]%andb_true_iff. by rewrite Ha, IH.
Qed.

Lemma url_component_none forbidden (f : ascii → bool) s :
  url_component forbidden s = true →
  (∀ a, f a = true → a ∈ forbidden) →
  all_chars (fun a => negb (f a)) s = true.
Proof.
  intros Hs Hf. induction s as [|a s IH]; [done|]. simpl in *.
  apply andb_true_iff in Hs as [[_ Ha]%andb_true_iff Hs].
  apply negb_true_iff, bool_decide_eq_false in Ha.
  rewrite IH by done. destruct (f a) eqn:E; [|done]. exfalso. by apply Ha, Hf.
Qed.

(** The text that [urlunparse] builds from the components of a plain web
    address. *)
Lemma cpython_urlunparse_plain c :
  plain_http_components c = true →
  cpython_urlunparse c
  = scheme c +:+ "://" +:+ netloc c
    +:+ (if bool_decide (params c = "") then path c
         else path c +:+ String ";" (params c))
    +:+ (if bool_decide (query c = "") then "" else String "?" (query c)).
Proof.
  destruct c as [sch nl p pr q fr]. unfold plain_http_components.
  cbn [scheme netloc path params query fragment].
  rewrite !andb_true_iff.
  intros [[[[[[[Hsch Hnl] _] Hp] _] _] _] Hfr].
  apply bool_decide_eq_true in Hsch, Hfr. apply negb_true_iff in Hnl. subst fr.
  assert (Hsch' : bool_decide (sch = "") = false).
  { apply bool_decide_eq_false. intros ->. set_solver. }
  unfold cpython_urlunparse. cbn [scheme netloc path params query fragment].
  change (p +:+ ";" +:+ pr) with (p +:+ String ";" pr).
  set (u := if bool_decide (pr = "") then p else p +:+ String ";" pr).
  assert (Hu : startswith u "/" = true).
  { unfold u. destruct p as [|x p']; [done|]. rewrite startswith_one in Hp.
    destruct (bool_decide (pr = "")); by rewrite ?app_String, startswith_one. }
  rewrite Hnl, Hu, Hsch', andb_false_r. cbn [negb orb].
  rewrite (bool_decide_eq_true_2 ("" = "")) by done.
  destruct (bool_decide (q = "")).
  - by rewrite append_nil_r.
  - by rewrite !append_assoc3.
Qed.

Lemma startswith_two r : startswith (String "/" (String "/" r)) "//" = true.
Proof. unfold startswith. simpl. by destruct r. Qed.

Lemma contains_append c a b : contains c (a +:+ b) = contains c a || contains c b.
Proof.
  induction a as [|x a IH]; [done|]. rewrite app_String. simpl.
  by destruct (Ascii.eqb x c).
Qed.

(** [urlsplit] on a text made of a web scheme, a host and a rest that
    starts with a slash. *)
Lemma urlsplit_plain sch nl rest :
  sch ∈ ["http"; "https"] →
  url_component ["/"; "?"; "#"; "["; "]"]%char nl = true →
  all_chars (fun a => negb (unsafe_byte a)) rest = true →
  startswith rest "/" = true →
  urlsplit (sch +:+ "://" +:+ nl +:+ rest)
  = let '(url, fragment) :=
      match split_once "#" rest with
      | (u, Some f) => (u, f)
      | (u, None) => (u, EmptyString)
      end in
    let '(url, query) :=
      match split_once "?" url with
      | (u, Some q) => (u, q)
      | (u, None) => (u, EmptyString)
      end in
    Returned (sch, nl, url, query, fragment).
Proof.
  intros Hsch Hnl Hrest Hslash.
  destruct rest as [|x rest']; [done|].
  rewrite startswith_one in Hslash. apply Ascii.eqb_eq in Hslash as ->.
  assert (Hsafe : all_chars (fun a => negb (unsafe_byte a))
                    (sch +:+ "://" +:+ nl +:+ String "/" rest') = true).
  { rewrite !all_chars_append, Hrest, (url_component_safe _ _ Hnl), !andb_true_r.
    repeat (apply elem_of_cons in Hsch as [->|Hsch]; [done|]).
    by apply elem_of_nil in Hsch. }
  assert (Hstrip : lstrip_by c0_control_or_space (sch +:+ "://" +:+ nl +:+ String "/" rest')
                   = sch +:+ "://" +:+ nl +:+ String "/" rest').
  { repeat (apply elem_of_cons in Hsch as [->|Hsch]; [done|]).
    by apply elem_of_nil in Hsch. }
  assert (Hscheme : split_scheme (sch +:+ "://" +:+ nl +:+ String "/" rest')
                    = (sch, String "/" (String "/" (nl +:+ String "/" rest')))).
  { repeat (apply elem_of_cons in Hsch as [->|Hsch]; [done|]).
    by apply elem_of_nil in Hsch. }
  assert (Hnetloc : splitnetloc (String "/" (String "/" (nl +:+ String "/" rest')))
                    = (nl, String "/" rest')).
  { unfold splitnetloc. simpl. apply span_until_append; [|done].
    apply (url_component_none _ _ _ Hnl). intros a Ha.
    unfold netloc_delim in Ha. apply orb_true_iff in Ha as [Ha|Ha];
      [apply orb_true_iff in Ha as [Ha|Ha]|]; apply Ascii.eqb_eq in Ha as ->;
      set_solver. }
  unfold urlsplit.
  rewrite Hstrip, (remove_chars_none _ _ Hsafe), Hscheme, startswith_two, Hnetloc.
  rewrite (url_component_contains _ _ "[" Hnl) by set_solver.
  rewrite (url_component_contains _ _ "]" Hnl) by set_solver.
  reflexivity.
Qed.

(** For the components of a plain web address, CPython's [urlparse] inverts
    [urlunparse]. *)
Lemma cpython_urlparse_urlunparse c :
  plain_http_components c = true →
  cpython_urlparse (cpython_urlunparse c) = Returned c.
Proof.
  intros Hc. rewrite (cpython_urlunparse_plain c Hc).
  destruct c as [sch nl p pr q fr]. unfold plain_http_components in Hc.
  cbn [scheme netloc path params query fragment] in *.
  rewrite !andb_true_iff in Hc.
  destruct Hc as [[[[[[[Hsch _] Hnl] Hslash] Hp] Hpr] Hq] Hfr].
  apply bool_decide_eq_true in Hsch, Hfr. subst fr.
  set (u := if bool_decide (pr = "") then p else p +:+ String ";" pr).
  set (qs := if bool_decide (q = "") then "" else String "?" q).
  assert (Hu_safe : all_chars (fun a => negb (unsafe_byte a)) u = true).
  { unfold u. case_bool_decide; [by eapply url_component_safe|].
    rewrite all_chars_append. simpl.
    by rewrite (url_component_safe _ _ Hp), (url_component_safe _ _ Hpr). }
  assert (Hqs_safe : all_chars (fun a => negb (unsafe_byte a)) qs = true).
  { unfold qs. case_bool_decide; [done|]. simpl. by rewrite (url_component_safe _ _ Hq). }
  assert (Hu_slash : ∀ t, startswith (u +:+ t) "/" = true).
  { intros t. unfold u. destruct p as [|x p']; [done|]. rewrite startswith_one in Hslash.
    case_bool_decide; by rewrite ?app_String, startswith_one. }
  assert (Hu_hash : contains "#" u = false).
  { unfold u. case_bool_decide.
    - apply (url_component_contains _ _ _ Hp). set_solver.
    - rewrite contains_append. simpl.
      rewrite (url_component_contains _ _ "#" Hp) by set_solver.
      apply (url_component_contains _ _ _ Hpr). set_solver. }
  assert (Hu_query : contains "?" u = false).
  { unfold u. case_bool_decide.
    - apply (url_component_contains _ _ _ Hp). set_solver.
    - rewrite contains_append. simpl.
      rewrite (url_component_contains _ _ "?" Hp) by set_solver.
      apply (url_component_contains _ _ _ Hpr). set_solver. }
  assert (Hsplit : split_once "#" (u +:+ qs) = (u +:+ qs, None)).
  { apply split_once_none. rewrite contains_append, Hu_hash. unfold qs.
    case_bool_decide; [done|]. simpl.
    apply (url_component_contains _ _ _ Hq). set_solver. }
  assert (Hquery : match split_once "?" (u +:+ qs) with
                   | (x, Some y) => (x, y)
                   | (x, None) => (x, EmptyString)
                   end = (u, q)).
  { unfold qs. case_bool_decide as Hq0.
    - subst q. rewrite append_nil_r. by rewrite split_once_none.
    - by rewrite split_once_append. }
  assert (Hparams : (if bool_decide (sch ∈ uses_params) && contains ";" u
                     then splitparams u else (u, EmptyString)) = (p, pr)).
  { assert (Huses : bool_decide (sch ∈ uses_params) = true).
    { apply bool_decide_eq_true. unfold uses_params. set_solver. }
    rewrite Huses. unfold u. destruct (decide (pr = "")) as [Hpr0|Hpr0].
    - rewrite (bool_decide_eq_true_2 _ Hpr0), Hpr0.
      by rewrite (url_component_contains _ _ ";" Hp) by set_solver.
    - rewrite (bool_decide_eq_false_2 _ Hpr0).
      rewrite contains_append. simpl. rewrite orb_true_r. simpl.
      apply splitparams_append.
      + apply (url_component_contains _ _ _ Hp). set_solver.
      + apply (url_component_contains _ _ _ Hpr). set_solver. }
  unfold cpython_urlparse.
  rewrite (urlsplit_plain sch nl (u +:+ qs) Hsch Hnl); [| |apply Hu_slash].
  2:{ by rewrite all_chars_append, Hu_safe, Hqs_safe. }
  rewrite Hsplit, Hquery, Hparams. reflexivity.
Qed.

End CPythonRoundTrip.

(** ** URL normalisation *)

Section Normalize.

Context {env : Env}.

Lemma or_else_rstrip_collapsed p :
  collapsed p (or_else (rstrip_char "/" p) "/").
Proof.
  unfold collapsed, or_else. case_bool_decide as Hr.
  - destruct (rstrip_char_empty _ _ Hr) as [k ->]. exists k. by left.
  - destruct (rstrip_char_split "/" p) as [k Hk]. exists k. right.
    split; [done|]. split; [apply rstrip_char_last|done].
Qed.

(** With CPython's [urlparse] and [urlunparse], the normalised form of a URL
    that parses contains no ["#"]: it has no fragment. *)
Lemma normalize_url_no_fragment (url : string) (parsed : ParseResult) :
  urlparse = cpython_urlparse →
  urlunparse = cpython_urlunparse →
  urlparse url = Returned parsed →
  contains "#" (_normalize_url url) = false.
Proof.
  intros Hparse Hunparse E. unfold _normalize_url. rewrite E.
  rewrite Hparse in E.
  apply CPythonFacts.cpython_urlparse_no_fragment in E as (Hs & Hn & Hp & Hpr & Hq).
  rewrite Hunparse. apply CPythonFacts.cpython_urlunparse_no_fragment; simpl; try done.
  unfold or_else. case_bool_decide; [done|].
  by apply CPythonFacts.contains_rstrip_char.
Qed.

(** C9. [_normalize_url] hands to [urlunparse] the components of
    [urlparse]: scheme, host, parameters and query as parsed, an empty
    fragment, and the path without its trailing slashes (["/"] when the
    path reduces to the empty string); when [urlparse] raises, the URL is
    returned as it is.  The returned URL has these very components whenever
    [urlparse] gives them back from their [urlunparse] form; with CPython's
    functions this is so for the components of a plain web address, and the
    returned URL never contains a ["#"]. *)
Theorem normalize_url_components (url : string) :
  match urlparse url with
  | Raised _ => _normalize_url url = url
  | Returned parsed =>
      let c :=
        mkParseResult (scheme parsed) (netloc parsed)
          (or_else (rstrip_char "/" (path parsed)) "/")
          (params parsed) (query parsed) "" in
      _normalize_url url = urlunparse c
      ∧ collapsed (path parsed) (path c)
      ∧ (urlparse (urlunparse c) = Returned c →
         urlparse (_normalize_url url) = Returned c)
      ∧ (urlparse = cpython_urlparse → urlunparse = cpython_urlunparse →
         contains "#" (_normalize_url url) = false
         ∧ (plain_http_components c = true →
            urlparse (_normalize_url url) = Returned c))
  end.
Proof.
  destruct (urlparse url) as [parsed|e] eqn:E.
  - intros c.
    assert (Hn : _normalize_url url = urlunparse c).
    { unfold _normalize_url. by rewrite E. }
    split; [done|]. split; [apply or_else_rstrip_collapsed|].
    split; [by rewrite Hn|].
    intros Hparse Hunparse. split; [by eapply normalize_url_no_fragment|].
    intros Hc. rewrite Hn, Hparse, Hunparse.
    by apply CPythonRoundTrip.cpython_urlparse_urlunparse.
  - unfold _normalize_url. by rewrite E.
Qed.

End Normalize.

(** ** The invariant of a crawl *)

Section Invariants.

Context {env : Env}.

Lemma meta_step_page m meta :
  Metadata.page_url (meta_step m meta) = Metadata.page_url m
  ∧ Metadata.depth (meta_step m meta) = Metadata.depth m.
Proof.
  destruct m. unfold meta_step.
  repeat (case_bool_decide; [done|]). by destruct (negb _).
Qed.

Lemma fold_meta_step_page tags m :
  Metadata.page_url (fold_left meta_step tags m) = Metadata.page_url m
  ∧ Metadata.depth (fold_left meta_step tags m) = Metadata.depth m.
Proof.
  revert m. induction tags as [|t tags IH]; intros m; simpl; [done|].
  destruct (IH (meta_step m t)) as [-> ->]. apply meta_step_page.
Qed.

Lemma extract_metadata_page soup url depth :
  Metadata.page_url (_extract_metadata_comprehensive soup url depth) = url
  ∧ Metadata.depth (_extract_metadata_comprehensive soup url depth) = depth.
Proof.
  unfold _extract_metadata_comprehensive.
  match goal with |- context [fold_left meta_step ?l ?m] =>
    pose proof (fold_meta_step_page l m) as [Hu Hd];
    destruct (fold_left meta_step l m) end.
  simpl in *. by destruct (Bs4.find_link_canonical soup).
Qed.

(** [_extract_comprehensive_data] leaves the aggregate alone or adds the
    page under its URL and depth. *)
Lemma extract_comprehensive_data_spec self url html text depth :
  let self2 := _extract_comprehensive_data self url html text depth in
  same_settings self self2
  ∧ WebScraper.crawled_urls self2 = WebScraper.crawled_urls self
  ∧ (self2 = self
     ∨ ∃ entry m,
         Sitemap.crawl_structure (CrawlData.sitemap (WebScraper.crawl_data self2))
         = <[url := entry]>
             (Sitemap.crawl_structure (CrawlData.sitemap (WebScraper.crawl_data self)))
         ∧ CrawlData.raw_html (WebScraper.crawl_data self2)
           = <[url := html]> (CrawlData.raw_html (WebScraper.crawl_data self))
         ∧ CrawlData.metadata (WebScraper.crawl_data self2)
           = CrawlData.metadata (WebScraper.crawl_data self) ++ [m]
         ∧ SitemapEntry.depth entry = depth
         ∧ Metadata.page_url m = url ∧ Metadata.depth m = depth).
Proof.
  unfold _extract_comprehensive_data.
  destruct (BeautifulSoup html) as [soup|e].
  - split; [done|]. split; [done|]. right.
    eexists _, (_extract_metadata_comprehensive soup url depth).
    split; [reflexivity|]. split; [reflexivity|]. split; [reflexivity|].
    split; [reflexivity|]. apply extract_metadata_page.
  - split; [done|]. split; [done|]. by left.
Qed.

Lemma crawl_subpages_spec self links md d :
  match _crawl_subpages self links md d with
  | Returned (tasks, waiting) =>
      (WebScraper.max_concurrent self ≠ 0%Z → waiting = [])
      ∧ (length (tasks ++ waiting) ≤ 10)%nat
      ∧ ∀ c, c ∈ tasks ++ waiting → (d ≤ md)%Z ∧ ∃ link, c = Start ByGather link d
  | Raised e => ∃ msg, e = ValueError msg
  end.
Proof.
  unfold _crawl_subpages.
  destruct (bool_decide (links = []) || (md <? d)%Z) eqn:E.
  - split; [done|]. split; [simpl; lia|]. intros c Hc. by apply elem_of_nil in Hc.
  - apply orb_false_iff in E as [_ Hd]. apply Z.ltb_ge in Hd.
    destruct (Z.min _ _ <? 0)%Z eqn:Hneg; [eauto|].
    assert (Hlen : ∀ l : list string,
               (length (map (fun link => Start ByGather link d)
                          (slice_to (Nat.min 10 (length l)) l)) ≤ 10)%nat).
    { intros l. unfold slice_to. rewrite length_map, length_take. lia. }
    destruct (Z.min _ _ =? 0)%Z eqn:Hzero.
    + split; [intros Hne; apply Z.eqb_eq in Hzero; apply Z.ltb_ge in Hneg; lia|].
      split; [rewrite app_nil_l; apply Hlen|].
      intros c Hc. rewrite app_nil_l in Hc.
      apply list_elem_of_fmap in Hc as (link & -> & _). eauto.
    + split; [done|]. split; [rewrite app_nil_r; apply Hlen|].
      intros c Hc. rewrite app_nil_r in Hc.
      apply list_elem_of_fmap in Hc as (link & -> & _). eauto.
Qed.

Lemma fetched_spec md self url html text d :
  let r := fetched md self url html text d in
  events r = []
  ∧ (self' r = self
     ∨ (html ≠ "" ∧ self' r = _extract_comprehensive_data self url html text d))
  ∧ (WebScraper.max_concurrent self ≠ 0%Z → blocked r = [])
  ∧ (length (spawned r ++ blocked r) ≤ 10)%nat
  ∧ (∀ c, c ∈ spawned r ++ blocked r →
          (d + 1 ≤ md)%Z ∧ ∃ link, c = Start ByGather link (d + 1))
  ∧ (raised r = None ∨ ∃ msg, raised r = Some (ValueError msg)).
Proof.
  assert (Hnone : ∀ slf, let r := returns slf in
            (WebScraper.max_concurrent self ≠ 0%Z → blocked r = [])
            ∧ (length (spawned r ++ blocked r) ≤ 10)%nat
            ∧ (∀ c, c ∈ spawned r ++ blocked r →
                    (d + 1 ≤ md)%Z ∧ ∃ link, c = Start ByGather link (d + 1))
            ∧ (raised r = None ∨ ∃ msg, raised r = Some (ValueError msg))).
  { intros slf. simpl. split; [done|]. split; [lia|].
    split; [|by left]. intros c Hc. by apply elem_of_nil in Hc. }
  unfold fetched. case_bool_decide as Hhtml.
  { split; [done|]. split; [by left|]. apply Hnone. }
  destruct (d <? md)%Z.
  - pose proof (crawl_subpages_spec
                  (_extract_comprehensive_data self url html text d)
                  (_extract_all_links_with_beautifulsoup
                     (_extract_comprehensive_data self url html text d) html url)
                  md (d + 1)) as Hsub.
    destruct (_crawl_subpages _ _ _ _) as [[tasks waiting]|e]; simpl.
    + destruct Hsub as (Hw & Hlen & Hc).
      split; [done|]. split; [by right|].
      split; [|split; [exact Hlen|split; [exact Hc|by left]]].
      intros Hne. apply Hw.
      destruct (extract_comprehensive_data_spec self url html text d)
        as ((_ & _ & <- & _) & _). done.
    + destruct Hsub as [msg ->].
      split; [done|]. split; [by right|]. split; [done|]. split; [simpl; lia|].
      split; [|right; eauto]. intros c Hc. by apply elem_of_nil in Hc.
  - split; [done|]. split; [by right|]. apply Hnone.
Qed.

Lemma resume_resumes md self c : resumes md self c (resume md self c).
Proof.
  destruct c as [caller url d|caller url d|caller url d]; simpl.
  - destruct (md <? d)%Z eqn:Hd; simpl; [constructor|].
    apply Z.ltb_ge in Hd.
    case_bool_decide; [constructor|]. case_bool_decide; [constructor|].
    case_bool_decide; simpl; [|constructor]. by constructor.
  - destruct (_crawl_with_http_crawl4ai self url) as [[html text]|e] eqn:E.
    + by constructor.
    + by econstructor.
  - destruct (_crawl_with_httpx url) as [[html text]|e] eqn:E.
    + by constructor.
    + by econstructor.
Qed.

(** The transports see the instance only through its timeout. *)
Lemma crawl4ai_same_timeout a b url :
  WebScraper.timeout a = WebScraper.timeout b →
  _crawl_with_http_crawl4ai a url = _crawl_with_http_crawl4ai b url.
Proof. intros H. unfold _crawl_with_http_crawl4ai, page_timeout. by rewrite H. Qed.

Lemma fetch_same_timeout a b url :
  WebScraper.timeout a = WebScraper.timeout b → fetch a url = fetch b url.
Proof. intros H. unfold fetch. by rewrite (crawl4ai_same_timeout a b). Qed.

Lemma session_inv_perm md slf t p p' st rx :
  p ≡ₚ p' →
  session_inv md (mkSession slf t p st rx) →
  session_inv md (mkSession slf t p' st rx).
Proof.
  intros Hp [I1 I2 I3 I4 I5 I6 I7 I8 I9 I10 I11 I12 I13 I15 I14]; simpl in *.
  split; simpl; try done.
  - unfold awaiting_crawl4ai in *. by rewrite <- Hp.
  - intros u. unfold awaiting_crawl4ai in *. rewrite <- Hp. apply I5.
  - intros u. unfold awaiting_crawl4ai in *. rewrite <- Hp. apply I9.
  - intros c. rewrite <- Hp. apply I10.
  - intros c u d. rewrite <- Hp. apply I11.
  - intros caller u d. rewrite <- Hp. apply I12.
Qed.

Lemma arun_urls_app t1 t2 : arun_urls (t1 ++ t2) = arun_urls t1 ++ arun_urls t2.
Proof. apply omap_app. Qed.

Lemma httpx_urls_app t1 t2 : httpx_urls (t1 ++ t2) = httpx_urls t1 ++ httpx_urls t2.
Proof. apply omap_app. Qed.

Lemma awaiting_crawl4ai_app p1 p2 :
  awaiting_crawl4ai (p1 ++ p2) = awaiting_crawl4ai p1 ++ awaiting_crawl4ai p2.
Proof. apply omap_app. Qed.

Lemma elem_of_arun_urls u t : u ∈ arun_urls t ↔ ∃ pt d, Arun u pt d ∈ t.
Proof.
  unfold arun_urls. rewrite list_elem_of_omap. split.
  - intros ([u' pt d|] & Hin & Heq); simplify_eq. eauto.
  - intros (pt & d & Hin). eexists; split; [done|done].
Qed.

Lemma elem_of_httpx_urls u t : u ∈ httpx_urls t ↔ ∃ ua tm d, HttpxGet u ua tm d ∈ t.
Proof.
  unfold httpx_urls. rewrite list_elem_of_omap. split.
  - intros ([|u' ua tm d] & Hin & Heq); simplify_eq. eauto.
  - intros (ua & tm & d & Hin). eexists; split; [done|done].
Qed.

Lemma awaiting_crawl4ai_starts p :
  (∀ c, c ∈ p → ∃ caller link d, c = Start caller link d) → awaiting_crawl4ai p = [].
Proof.
  induction p as [|c p IH]; intros H; [done|].
  destruct (H c) as (caller & link & d & ->); [left|].
  cbn. apply IH. intros c' Hc'. apply H. by right.
Qed.

Lemma awaiting_cons_start caller url d rest :
  awaiting_crawl4ai (Start caller url d :: rest) = awaiting_crawl4ai rest.
Proof. reflexivity. Qed.

Lemma awaiting_cons_crawl4ai caller url d rest :
  awaiting_crawl4ai (AwaitCrawl4ai caller url d :: rest) = url :: awaiting_crawl4ai rest.
Proof. reflexivity. Qed.

Lemma awaiting_cons_httpx caller url d rest :
  awaiting_crawl4ai (AwaitHttpx caller url d :: rest) = awaiting_crawl4ai rest.
Proof. reflexivity. Qed.

Lemma urls_of_arun u pt d :
  arun_urls [Arun u pt d] = [u] ∧ httpx_urls [Arun u pt d] = [].
Proof. done. Qed.

Lemma urls_of_httpx u ua tm d :
  arun_urls [HttpxGet u ua tm d] = [] ∧ httpx_urls [HttpxGet u ua tm d] = [u].
Proof. done. Qed.

Lemma data_from_trace_app slf t ev d :
  data_from_trace slf t d → data_from_trace slf (t ++ ev) d.
Proof.
  intros [D1 D2 D3]. split.
  - intros u e He. destruct (D1 u e He) as [[pt Hpt] Hraw].
    split; [|done]. exists pt. set_solver.
  - intros u h Hh. destruct (D2 u h Hh) as [(pt & dp & Hpt) Hrest].
    split; [|done]. exists pt, dp. set_solver.
  - intros m Hm. destruct (D3 m Hm) as [[pt Hpt] Hraw].
    split; [|done]. exists pt. set_solver.
Qed.

Lemma data_from_trace_settings a b t d :
  WebScraper.timeout a = WebScraper.timeout b →
  data_from_trace a t d → data_from_trace b t d.
Proof.
  intros Htm [D1 D2 D3]. split; [done| |done].
  intros u h Hh. rewrite <- (fetch_same_timeout a b u Htm). by apply D2.
Qed.

Lemma data_from_trace_page t slf url html text d pt :
  Arun url pt d ∈ t →
  html ≠ "" →
  fetch slf url = Returned (html, text) →
  data_from_trace slf t (WebScraper.crawl_data slf) →
  data_from_trace slf t
    (WebScraper.crawl_data (_extract_comprehensive_data slf url html text d)).
Proof.
  intros Hev Hne Hfetch [D1 D2 D3].
  destruct (extract_comprehensive_data_spec slf url html text d)
    as (_ & _ & [->|(entry & m & Hcs & Hraw & Hmd & Hd & Hmu & Hmdp)]); [done|].
  split.
  - intros u e. rewrite Hcs, Hraw. intros He.
    apply lookup_insert_Some in He as [[<- <-]|[Hne' He]].
    + split; [exists pt; by rewrite Hd|]. rewrite lookup_insert_eq. eauto.
    + destruct (D1 u e He) as [Hpt Hr]. split; [done|].
      by rewrite lookup_insert_ne.
  - intros u h. rewrite Hraw. intros Hh.
    apply lookup_insert_Some in Hh as [[<- <-]|[_ Hh]]; [|by eapply D2].
    split; [by exists pt, d|]. split; [done|]. by exists text.
  - intros m'. rewrite Hmd, Hraw. intros Hm.
    apply elem_of_app in Hm as [Hm|Hm].
    + destruct (D3 m' Hm) as [Hpt Hr]. split; [done|].
      destruct (decide (url = Metadata.page_url m')) as [<-|Hne'].
      * rewrite lookup_insert_eq. eauto.
      * by rewrite lookup_insert_ne.
    + apply list_elem_of_singleton in Hm as ->. rewrite Hmu, Hmdp.
      split; [by exists pt|]. rewrite lookup_insert_eq. eauto.
Qed.

(** A segment that handles a fetched page keeps the invariant. *)
Lemma fetched_inv md slf t c rest st rx url d html text :
  fetching c = Some (url, d) →
  fetch slf url = Returned (html, text) →
  (∀ u, u ∈ awaiting_crawl4ai [c] →
        ∃ page, _crawl_with_http_crawl4ai slf u = Returned page) →
  session_inv md (mkSession slf t (c :: rest) st rx) →
  session_inv md
    (mkSession (self' (fetched md slf url html text d))
       (t ++ events (fetched md slf url html text d))
       (spawned (fetched md slf url html text d) ++ rest)
       (st ++ blocked (fetched md slf url html text d))
       (root_exc_after c (fetched md slf url html text d) rx)).
Proof.
  intros Hf Hfetch Hans [I1 I2 I3 I4 I5 I6 I7 I8 I9 I10 I11 I12 I13 I15 I14];
    simpl in *.
  destruct (fetched_spec md slf url html text d) as (Hev & Hself & _ & _ & Hsp & Hrx).
  set (r := fetched md slf url html text d) in *.
  destruct (I11 c url d) as [pt Hpt]; [set_solver|done|].
  pose proof (I6 _ Hpt) as Hdepth. simpl in Hdepth.
  rewrite Hev, app_nil_r.
  assert (Hstarts : awaiting_crawl4ai (spawned r) = []).
  { apply awaiting_crawl4ai_starts. intros c' Hc'.
    destruct (Hsp c') as (_ & link & ->); [set_solver|]. eauto. }
  assert (Hself' : same_settings slf (self' r)
                   ∧ WebScraper.crawled_urls (self' r) = WebScraper.crawled_urls slf
                   ∧ data_from_trace slf t (WebScraper.crawl_data (self' r))).
  { destruct Hself as [->|[Hne ->]]; [done|].
    destruct (extract_comprehensive_data_spec slf url html text d) as (Hs & Hc & _).
    split; [done|]. split; [done|]. by eapply data_from_trace_page. }
  destruct Hself' as ((_ & Htm & _ & Hbd) & Hcu & Hdata).
  assert (Hc4 : ∀ u, _crawl_with_http_crawl4ai (self' r) u
                     = _crawl_with_http_crawl4ai slf u).
  { intros u. by apply crawl4ai_same_timeout. }
  change (c :: rest) with ([c] ++ rest) in I4, I5, I9.
  rewrite awaiting_crawl4ai_app in I4, I5, I9.
  split; simpl; rewrite ?awaiting_crawl4ai_app, ?Hstarts; simpl.
  - intros u. rewrite Hcu, <- Hbd. apply I1.
  - intros u. rewrite Hcu. apply I2.
  - done.
  - rewrite <- app_assoc in I4. by apply NoDup_app in I4 as (_ & _ & I4).
  - intros u Hu. apply I5. set_solver.
  - done.
  - intros u pt' d' He. unfold page_timeout. rewrite <- Htm. by eapply I7.
  - intros u ua tm d' He. rewrite Hc4. by eapply I8.
  - intros u Hu. rewrite Hc4. destruct (I9 u Hu) as [Hu'|[Hu'|Hu']]; [|by auto..].
    apply elem_of_app in Hu' as [Hu'|Hu']; [|by left].
    right; left. by apply Hans.
  - intros c' Hc'.
    assert (c' ∈ spawned r ++ blocked r ∨ c' ∈ (c :: rest) ++ st) as [Hc|Hc]
      by set_solver.
    + destruct (Hsp c' Hc) as (_ & link & ->). simpl. lia.
    + by apply I10.
  - intros c' u d' Hc' Hf'. apply elem_of_app in Hc' as [Hc'|Hc'].
    + destruct (Hsp c') as (_ & link & ->); [set_solver|]. done.
    + apply (I11 c'); [set_solver|done].
  - intros caller u d' Hc'. rewrite Hc4. apply elem_of_app in Hc' as [Hc'|Hc'].
    + destruct (Hsp (AwaitHttpx caller u d')) as (_ & link & ?); [set_solver|]. done.
    + apply (I12 caller u d'). set_solver.
  - unfold root_exc_after. destruct (caller_of c); [|done].
    destruct Hrx as [->|[msg ->]]; [done|]. right. eauto.
  - done.
  - by apply (data_from_trace_settings slf).
Qed.

Lemma resumes_inv md slf t c rest st rx r :
  resumes md slf c r →
  session_inv md (mkSession slf t (c :: rest) st rx) →
  session_inv md
    (mkSession (self' r) (t ++ events r) (spawned r ++ rest) (st ++ blocked r)
       (root_exc_after c r rx)).
Proof.
  intros Hr Hinv.
  inversion Hr as [caller url d|caller url d Hd Hnew Hdom
                  |caller url d html text Hprim|caller url d e Hprim
                  |caller url d html text Hsec|caller url d e Hsec]; subst.
  - (* the call returns at once *)
    destruct Hinv as [I1 I2 I3 I4 I5 I6 I7 I8 I9 I10 I11 I12 I13 I15 I14]; simpl in *.
    rewrite ?awaiting_cons_start in I4, I5, I9.
    unfold root_exc_after; simpl. rewrite !app_nil_r.
    replace (match caller with ByScrape | _ => rx end) with rx by (by destruct caller).
    split; simpl; try done.
    + intros c' Hc'. apply I10. set_solver.
    + intros c' u d' Hc'. apply I11. set_solver.
    + intros caller' u d' Hc'. apply (I12 caller' u d'). set_solver.
  - (* the request to crawl4ai *)
    destruct Hinv as [I1 I2 I3 I4 I5 I6 I7 I8 I9 I10 I11 I12 I13 I15 I14]; simpl in *.
    set (n := _normalize_url url) in *.
    assert (Hn : n ∉ arun_urls t) by (by rewrite <- I2).
    rewrite ?awaiting_cons_start in I4, I5, I9.
    destruct (urls_of_arun n (page_timeout slf) d) as [Ea Eh].
    unfold root_exc_after; simpl.
    replace (match caller with ByScrape | _ => rx end) with rx by (by destruct caller).
    split; simpl; rewrite ?arun_urls_app, ?httpx_urls_app, ?Ea, ?Eh,
      ?awaiting_cons_crawl4ai, ?app_nil_r.
    + intros u Hu. apply elem_of_union in Hu as [Hu|Hu]; [|by apply I1].
      apply elem_of_singleton in Hu as ->. done.
    + intros u. rewrite elem_of_union, elem_of_app, I2. set_solver.
    + apply NoDup_app. split; [done|].
      split; [|apply NoDup_singleton]. intros u Hu ->%list_elem_of_singleton. done.
    + apply NoDup_cons. split; [|done]. intros Hu. by apply Hn, I5.
    + intros u Hu. apply elem_of_cons in Hu as [->|Hu]; [set_solver|].
      apply elem_of_app. left. by apply I5.
    + intros e He. apply elem_of_app in He as [He|He]; [by apply I6|].
      apply list_elem_of_singleton in He as ->. simpl.
      specialize (I10 (Start caller url d)). simpl in I10.
      split; [apply I10; set_solver|done].
    + intros u pt d' He. apply elem_of_app in He as [He|He]; [by eapply I7|].
      apply list_elem_of_singleton in He. by simplify_eq.
    + intros u ua tm d' He. apply elem_of_app in He as [He|He]; [by eapply I8|].
      by apply list_elem_of_singleton in He.
    + intros u Hu. apply elem_of_app in Hu as [Hu|Hu].
      * destruct (I9 u Hu) as [?|[?|?]]; [left; by right|by auto..].
      * apply list_elem_of_singleton in Hu as ->. left; by left.
    + intros c' Hc'.
      apply elem_of_cons in Hc' as [->|Hc'].
      * simpl. specialize (I10 (Start caller url d)). apply I10. set_solver.
      * apply I10. set_solver.
    + intros c' u d' Hc' Hf. apply elem_of_cons in Hc' as [->|Hc'].
      * simpl in Hf. simplify_eq. exists (page_timeout slf). set_solver.
      * destruct (I11 c' u d') as [pt Hpt]; [set_solver|done|]. exists pt. set_solver.
    + intros caller' u d' Hc'. apply elem_of_cons in Hc' as [?|Hc']; [done|].
      apply (I12 caller' u d'). set_solver.
    + done.
    + intros i u ua tm d' Hi. apply lookup_app_Some in Hi as [Hi|[_ Hi]].
      * destruct (I15 i u ua tm d' Hi) as (j & pt & d'' & Hj & Hlk).
        exists j, pt, d''. split; [done|]. by apply lookup_app_l_Some.
      * by apply list_lookup_singleton_Some in Hi as [_ ?].
    + apply data_from_trace_app. by apply (data_from_trace_settings slf).
  - (* crawl4ai has answered with a page *)
    apply fetched_inv; [reflexivity| |..|done].
    + unfold fetch. by rewrite Hprim.
    + intros u Hu. rewrite awaiting_cons_crawl4ai in Hu.
      apply list_elem_of_singleton in Hu as ->. eauto.
  - (* the fallback to httpx *)
    destruct Hinv as [I1 I2 I3 I4 I5 I6 I7 I8 I9 I10 I11 I12 I13 I15 I14]; simpl in *.
    rewrite ?awaiting_cons_crawl4ai in I4, I5, I9; simpl in I4, I5.
    destruct (urls_of_httpx url user_agent 30 d) as [Ea Eh].
    unfold root_exc_after; simpl.
    replace (match caller with ByScrape | _ => rx end) with rx by (by destruct caller).
    split; simpl; rewrite ?arun_urls_app, ?httpx_urls_app, ?Ea, ?Eh,
      ?awaiting_cons_httpx, ?app_nil_r; try done.
    + assert (Hp : awaiting_crawl4ai rest ++ httpx_urls t ++ [url]
                   ≡ₚ (url :: awaiting_crawl4ai rest) ++ httpx_urls t).
      { rewrite app_assoc. symmetry. apply Permutation_cons_append. }
      by rewrite Hp.
    + intros u Hu. apply I5. set_solver.
    + intros e' He. apply elem_of_app in He as [He|He]; [by apply I6|].
      apply list_elem_of_singleton in He as ->. simpl.
      destruct (I11 (AwaitCrawl4ai caller url d) url d) as [pt Hpt]; [set_solver|done|].
      apply (I6 _ Hpt).
    + intros u pt d' He. apply elem_of_app in He as [He|He]; [by eapply I7|].
      by apply list_elem_of_singleton in He.
    + intros u ua tm d' He. apply elem_of_app in He as [He|He]; [by eapply I8|].
      apply list_elem_of_singleton in He. simplify_eq. eauto.
    + intros u Hu. destruct (I9 u Hu) as [Hu'|[?|?]]; [|by auto|right; right; set_solver].
      apply elem_of_cons in Hu' as [->|?]; [right; right; set_solver|by left].
    + intros c' Hc'.
      apply elem_of_cons in Hc' as [->|Hc'].
      * simpl. specialize (I10 (AwaitCrawl4ai caller url d)). apply I10. set_solver.
      * apply I10. set_solver.
    + intros c' u d' Hc' Hf. apply elem_of_cons in Hc' as [->|Hc'].
      * simpl in Hf. simplify_eq.
        destruct (I11 (AwaitCrawl4ai caller u d') u d') as [pt Hpt]; [set_solver|done|].
        exists pt. set_solver.
      * destruct (I11 c' u d') as [pt Hpt]; [set_solver|done|]. exists pt. set_solver.
    + intros caller' u d' Hc'. apply elem_of_cons in Hc' as [?|Hc'].
      * simplify_eq. eauto.
      * apply (I12 caller' u d'). set_solver.
    + intros i u ua tm d' Hi. apply lookup_app_Some in Hi as [Hi|[Hlen Hi]].
      * destruct (I15 i u ua tm d' Hi) as (j & pt & d'' & Hj & Hlk).
        exists j, pt, d''. split; [done|]. by apply lookup_app_l_Some.
      * apply list_lookup_singleton_Some in Hi as [_ Hi]. simplify_eq.
        destruct (I11 (AwaitCrawl4ai caller u d') u d') as [pt Hpt]; [set_solver|done|].
        apply list_elem_of_lookup in Hpt as [j Hj].
        exists j, pt, d'. split; [|by apply lookup_app_l_Some].
        apply lookup_lt_Some in Hj. lia.
    + by apply data_from_trace_app.
  - (* httpx has answered with a page *)
    destruct (inv_await_httpx _ _ Hinv caller url d) as [e He]; [simpl; set_solver|].
    simpl in He.
    apply fetched_inv; [reflexivity| |..|done].
    + unfold fetch. by rewrite He.
    + intros u Hu. rewrite awaiting_cons_httpx in Hu. by apply elem_of_nil in Hu.
  - (* both transports have failed *)
    destruct Hinv as [I1 I2 I3 I4 I5 I6 I7 I8 I9 I10 I11 I12 I13 I15 I14]; simpl in *.
    rewrite ?awaiting_cons_httpx in I4, I5, I9.
    unfold root_exc_after; simpl. rewrite !app_nil_r.
    replace (match caller with ByScrape | _ => rx end) with rx by (by destruct caller).
    split; simpl; try done.
    + intros c' Hc'. apply I10. set_solver.
    + intros c' u d' Hc'. apply I11. set_solver.
    + intros caller' u d' Hc'. apply (I12 caller' u d'). set_solver.
Qed.

Lemma step_at_inv md i s :
  session_inv md s → session_inv md (step_at md i s).
Proof.
  intros Hinv. unfold step_at.
  set (k := (i `mod` length (pool s))%nat).
  destruct (pool s !! k) as [c|] eqn:E; [|done].
  destruct s as [slf t p st rx]; simpl in *.
  pose proof (take_drop_middle p k c E) as Hp.
  eapply (session_inv_perm _ _ _ (spawned _ ++ (take k p ++ drop (S k) p))).
  { rewrite !app_assoc. apply Permutation_app_tail, Permutation_app_comm. }
  eapply (resumes_inv md slf t c); [apply resume_resumes|].
  eapply session_inv_perm; [|exact Hinv].
  rewrite <- Hp at 1. symmetry. apply Permutation_middle.
Qed.

Lemma run_inv md sched s :
  session_inv md s → session_inv md (run md sched s).
Proof.
  revert s. induction sched as [|i sched IH]; intros s Hinv; simpl; [done|].
  by apply IH, step_at_inv.
Qed.

Lemma initial_inv md slf url :
  WebScraper.crawled_urls slf = ∅ →
  WebScraper.crawl_data slf = empty_crawl_data →
  session_inv md (mkSession slf [] [Start ByScrape url 0] [] None).
Proof.
  intros Hv Hd. split; simpl; rewrite ?Hv, ?Hd.
  - set_solver.
  - intros u. set_solver.
  - constructor.
  - constructor.
  - intros u Hu. by apply elem_of_nil in Hu.
  - intros e He. by apply elem_of_nil in He.
  - intros u pt d He. by apply elem_of_nil in He.
  - intros u ua tm d He. by apply elem_of_nil in He.
  - intros u Hu. by apply elem_of_nil in Hu.
  - intros c Hc. apply list_elem_of_singleton in Hc as ->. done.
  - intros c u d Hc. apply list_elem_of_singleton in Hc as ->. done.
  - intros caller u d Hc. by apply list_elem_of_singleton in Hc.
  - by left.
  - intros i u ua tm d Hi. by rewrite lookup_nil in Hi.
  - split; simpl; intros *; try rewrite lookup_empty; try done.
    intros Hm. by apply elem_of_nil in Hm.
Qed.

Lemma begin_session_inv slf url max_depth :
  session_inv (crawl_depth_of slf max_depth) (begin_session slf url max_depth).
Proof.
  unfold begin_session. apply step_at_inv. by apply initial_inv.
Qed.

(** Every session reached from the start of a call satisfies the
    invariant. *)
Lemma reachable_inv slf url max_depth sched :
  session_inv (crawl_depth_of slf max_depth)
    (run (crawl_depth_of slf max_depth) sched (begin_session slf url max_depth)).
Proof. apply run_inv, begin_session_inv. Qed.

End Invariants.

(** ** Properties of a crawl session *)

Section Session.

Context {env : Env}.

Lemma resumes_settings md slf c r :
  resumes md slf c r → same_settings slf (self' r).
Proof.
  inversion 1; subst; simpl; try done.
  - destruct (fetched_spec md slf url html_content text_content d)
      as (_ & [->|[_ ->]] & _); [done|].
    apply extract_comprehensive_data_spec.
  - destruct (fetched_spec md slf url html_content text_content d)
      as (_ & [->|[_ ->]] & _); [done|].
    apply extract_comprehensive_data_spec.
Qed.

Lemma same_settings_trans a b c :
  same_settings a b → same_settings b c → same_settings a c.
Proof. unfold same_settings. intros (-> & -> & -> & ->) (-> & -> & -> & ->). done. Qed.

Lemma step_at_settings md i s : same_settings (self s) (self (step_at md i s)).
Proof.
  unfold step_at. destruct (pool s !! _) as [c|]; [|done]. simpl.
  eapply resumes_settings, resume_resumes.
Qed.

Lemma run_settings md sched s : same_settings (self s) (self (run md sched s)).
Proof.
  revert s. induction sched as [|i sched IH]; intros s; simpl; [done|].
  eapply same_settings_trans; [apply step_at_settings|apply IH].
Qed.

Lemma begin_session_settings slf url max_depth :
  WebScraper.timeout (self (begin_session slf url max_depth)) = WebScraper.timeout slf
  ∧ WebScraper.max_concurrent (self (begin_session slf url max_depth))
    = WebScraper.max_concurrent slf
  ∧ WebScraper.base_domain (self (begin_session slf url max_depth))
    = extract_domain_from_url url.
Proof.
  unfold begin_session.
  match goal with |- context [step_at ?md ?i ?s] =>
    destruct (step_at_settings md i s) as (_ & <- & <- & <-) end.
  done.
Qed.

Lemma reachable_settings slf url max_depth sched :
  let s := run (crawl_depth_of slf max_depth) sched (begin_session slf url max_depth) in
  WebScraper.timeout (self s) = WebScraper.timeout slf
  ∧ WebScraper.max_concurrent (self s) = WebScraper.max_concurrent slf
  ∧ WebScraper.base_domain (self s) = extract_domain_from_url url.
Proof.
  intros s. subst s.
  destruct (run_settings (crawl_depth_of slf max_depth) sched
              (begin_session slf url max_depth)) as (_ & <- & <- & <-).
  apply begin_session_settings.
Qed.

(** A call that returns a result does so from a session without coroutines,
    after the coverage summary has been updated. *)
Lemma scrape_website_scraped policy slf url company_name max_depth r slf1 :
  scrape_website policy slf url company_name max_depth = (Some (Scraped r), slf1) →
  let s := crawl policy slf url max_depth in
  pool s = [] ∧ stuck s = [] ∧ root_exc s = None
  ∧ slf1 = _update_coverage_summary (self s)
  ∧ r = result_of slf1 url company_name (crawl_depth_of slf max_depth).
Proof.
  intros H s. unfold scrape_website, end_session in H. fold s in H.
  destruct (root_exc s); [done|].
  destruct (pool s); [|done]. destruct (stuck s); [|done].
  by simplify_eq.
Qed.

Lemma crawl_inv policy slf url max_depth :
  session_inv (crawl_depth_of slf max_depth) (crawl policy slf url max_depth).
Proof. apply reachable_inv. Qed.

Lemma resumes_request_fresh md slf c r u :
  resumes md slf c r →
  u ∈ arun_urls (events r) →
  (u ∉ WebScraper.crawled_urls slf) ∧ u ∈ WebScraper.crawled_urls (self' r).
Proof.
  inversion 1 as [| caller url' d Hd Hnew Hdom | | | |]; subst; simpl;
    try (by intros ?%elem_of_nil).
  - intros ->%list_elem_of_singleton. split; [done|]. set_solver.
  - destruct (fetched_spec md slf url html_content text_content d) as (-> & _).
    by intros ?%elem_of_nil.
  - destruct (fetched_spec md slf url html_content text_content d) as (-> & _).
    by intros ?%elem_of_nil.
Qed.


Lemma resumes_expansion md slf c r c' :
  resumes md slf c r →
  c' ∈ spawned r ++ blocked r →
  (fetching c' ≠ None ∧ coro_depth c' = coro_depth c)
  ∨ ((coro_depth c < md)%Z ∧ ∃ link, c' = Start ByGather link (coro_depth c + 1)).
Proof.
  assert (Hf : ∀ url html text d,
             coro_depth c = d →
             c' ∈ spawned (fetched md slf url html text d)
                  ++ blocked (fetched md slf url html text d) →
             (fetching c' ≠ None ∧ coro_depth c' = coro_depth c)
             ∨ ((coro_depth c < md)%Z
                ∧ ∃ link, c' = Start ByGather link (coro_depth c + 1))).
  { intros url html text d <- Hc'.
    destruct (fetched_spec md slf url html text (coro_depth c))
      as (_ & _ & _ & _ & Hsp & _).
    destruct (Hsp c' Hc') as [Hd Hlink]. right. split; [lia|done]. }
  inversion 1; subst; simpl; try (by intros ?%elem_of_nil); eauto.
  - intros ->%list_elem_of_singleton. by left.
  - intros ->%list_elem_of_singleton. by left.
Qed.




Lemma page_timeout_ms slf :
  page_timeout slf = (1000 * Z.min (WebScraper.timeout slf) 30)%Z.
Proof. unfold page_timeout. lia. Qed.

Lemma crawl_with_httpx_returned u html text :
  _crawl_with_httpx u = Returned (html, text) →
  httpx_get u = Returned html
  ∧ ∃ soup, BeautifulSoup html = Returned soup
            ∧ text = Bs4.soup_get_text_sep_strip soup.
Proof.
  unfold _crawl_with_httpx. destruct (httpx_get u) as [h|e]; [|done].
  destruct (BeautifulSoup h) as [soup|e] eqn:E; [|done].
  intros [= <- <-]. eauto.
Qed.

Lemma crawl4ai_raises_with_arun slf u :
  (∃ e, arun u (page_timeout slf) = Raised e)
  ∨ (∃ result, arun u (page_timeout slf) = Returned result
               ∧ (Crawl4ai.success result = false ∨ Crawl4ai.html result = "")) →
  ∃ e, _crawl_with_http_crawl4ai slf u = Raised e.
Proof.
  unfold _crawl_with_http_crawl4ai.
  intros [[e ->]|(result & -> & [Hs | Hh])]; [eauto| |].
  - rewrite Hs. eauto.
  - rewrite Hh, bool_decide_true by done. rewrite andb_false_r. eauto.
Qed.

Lemma step_at_trace_prefix md i s : trace s `prefix_of` trace (step_at md i s).
Proof.
  unfold step_at. destruct (pool s !! _) as [c|]; [|done]. simpl.
  by apply prefix_app_r.
Qed.

Lemma run_trace_prefix md sched s : trace s `prefix_of` trace (run md sched s).
Proof.
  revert s. induction sched as [|i sched IH]; intros s; simpl; [done|].
  etransitivity; [apply step_at_trace_prefix|apply IH].
Qed.

(** The first segment of a call sends the request for the root URL to
    crawl4ai, when the depth is not negative and the normal form of the URL
    is on the base domain. *)
Lemma begin_session_requests_root slf url max_depth :
  (0 ≤ crawl_depth_of slf max_depth)%Z →
  extract_domain_from_url (_normalize_url url) = extract_domain_from_url url →
  trace (begin_session slf url max_depth)
  = [Arun (_normalize_url url) (page_timeout slf) 0].
Proof.
  intros Hd Hdom. unfold begin_session, step_at. simpl.
  change (crawl_depth_of _ max_depth) with (crawl_depth_of slf max_depth).
  rewrite (proj2 (Z.ltb_ge _ _) Hd). simpl.
  rewrite !bool_decide_eq_false_2 by set_solver. simpl.
  rewrite bool_decide_eq_true_2 by done. reflexivity.
Qed.


(** No exception other than the [ValueError] of a semaphore leaves the call
    of [_crawl_website_comprehensive]; the handler of [asyncio.TimeoutError]
    is never entered. *)
Lemma scrape_website_not_TimeoutError policy self0 url company_name max_depth msg tm :
  fst (scrape_website policy self0 url company_name max_depth)
  ≠ Some (Failed (TimeoutError msg tm)).
Proof.
  unfold scrape_website, end_session.
  destruct (inv_root_exc _ _ (crawl_inv policy self0 url max_depth)) as [->|[m ->]].
  - destruct (pool _); [destruct (stuck _)|]; simpl; congruence.
  - simpl. congruence.
Qed.

Lemma begin_session_fresh self0 url max_depth :
  begin_session self0 url max_depth
  = begin_session
      (__init__ (WebScraper.max_depth self0) (WebScraper.timeout self0)
         (WebScraper.max_concurrent self0)) url max_depth.
Proof. by destruct self0. Qed.

(** C10 (amended). A call of [scrape_website] starts its crawl from an
    empty visited set and an empty aggregate, whatever earlier calls left in
    the instance: its crawl and its outcome are those of a new instance with
    the same settings.  When no other call runs on the instance meanwhile,
    every raw-HTML entry, sitemap entry and metadata record of the result
    belongs to a URL requested during this call, and the raw HTML is what
    the fetch of that URL answered. *)
Theorem scrape_website_starts_afresh (policy : nat -> nat) (self0 : WebScraper.t)
    (url company_name : string) (max_depth : option Z) :
  let fresh :=
    __init__ (WebScraper.max_depth self0) (WebScraper.timeout self0)
      (WebScraper.max_concurrent self0) in
  let t := trace (crawl policy self0 url max_depth) in
  (∃ slf,
      WebScraper.crawled_urls slf = ∅
      ∧ WebScraper.crawl_data slf = empty_crawl_data
      ∧ begin_session self0 url max_depth
        = step_at (crawl_depth_of self0 max_depth) 0
            (mkSession slf [] [Start ByScrape url 0] [] None))
  ∧ crawl policy self0 url max_depth = crawl policy fresh url max_depth
  ∧ scrape_website policy self0 url company_name max_depth
    = scrape_website policy fresh url company_name max_depth
  ∧ match scrape_website policy self0 url company_name max_depth with
    | (Some (Scraped r), _) =>
        (∀ u h, Result.raw_html r !! u = Some h →
                u ∈ arun_urls t ∧ ∃ text, fetch self0 u = Returned (h, text))
        ∧ (∀ u e, Sitemap.crawl_structure (Result.sitemap r) !! u = Some e →
                  u ∈ arun_urls t)
        ∧ (∀ m, m ∈ Result.page_metadata (Result.extracted r) →
                Metadata.page_url m ∈ arun_urls t)
    | _ => True
    end.
Proof.
  intros fresh t.
  assert (Hcrawl : crawl policy self0 url max_depth = crawl policy fresh url max_depth).
  { unfold crawl. by rewrite begin_session_fresh. }
  split; [eexists; split; [|split; [|reflexivity]]; done|].
  split; [done|]. split.
  { unfold scrape_website. by rewrite Hcrawl. }
  destruct (scrape_website policy self0 url company_name max_depth)
    as [[[r|e]|] slf1] eqn:E; [|done..].
  apply scrape_website_scraped in E as (_ & _ & _ & -> & ->).
  pose proof (crawl_inv policy self0 url max_depth) as Hinv.
  destruct (inv_data _ _ Hinv) as [D1 D2 D3]. fold t in D1, D2, D3.
  assert (Htm : WebScraper.timeout (self (crawl policy self0 url max_depth))
                = WebScraper.timeout self0).
  { apply (reachable_settings self0 url max_depth). }
  simpl. split; [|split].
  - intros u h Hh. destruct (D2 u h Hh) as ((pt & d & Hpt) & _ & text & Hf).
    split; [apply elem_of_arun_urls; eauto|].
    exists text. by rewrite <- (fetch_same_timeout _ self0 u Htm).
  - intros u e He. destruct (D1 u e He) as [[pt Hpt] _].
    apply elem_of_arun_urls; eauto.
  - intros m Hm. destruct (D3 m Hm) as [[pt Hpt] _].
    apply elem_of_arun_urls; eauto.
Qed.

End Session.

(** ** Every crawl comes to an end *)

Section Termination.

Context {env : Env}.

Lemma crawl_weight_ge k : (3 ≤ crawl_weight k)%nat.
Proof. destruct k; simpl; lia. Qed.

Lemma coro_weight_pos md c : (1 ≤ coro_weight md c)%nat.
Proof.
  destruct c as [caller u d|caller u d|caller u d]; simpl.
  - destruct (md <? d)%Z; [lia|]. pose proof (crawl_weight_ge (Z.to_nat (md - d))). lia.
  - pose proof (crawl_weight_ge (Z.to_nat (md - d))). lia.
  - pose proof (crawl_weight_ge (Z.to_nat (md - d))). lia.
Qed.

Lemma pool_weight_nil md p : pool_weight md p = 0%nat → p = [].
Proof.
  destruct p as [|c p]; [done|]. unfold pool_weight. simpl.
  pose proof (coro_weight_pos md c). lia.
Qed.

(** The workers of one batch: at most ten, one level deeper. *)
Lemma workers_weight md d (p : list Coro) :
  (d + 1 ≤ md)%Z →
  (length p ≤ 10)%nat →
  (∀ c, c ∈ p → ∃ link, c = Start ByGather link (d + 1)) →
  (pool_weight md p + 3 ≤ crawl_weight (Z.to_nat (md - d)))%nat.
Proof.
  intros Hd Hlen Hall.
  replace (Z.to_nat (md - d)) with (S (Z.to_nat (md - (d + 1)))) by lia.
  simpl. set (w := crawl_weight (Z.to_nat (md - (d + 1)))).
  assert (Hsum : (pool_weight md p ≤ length p * w)%nat).
  { clear Hlen. induction p as [|c p IH]; [simpl; lia|].
    destruct (Hall c) as [link ->]; [by left|].
    unfold pool_weight in *. simpl.
    rewrite (proj2 (Z.ltb_ge md (d + 1))) by lia. fold w.
    assert (sum_list_with (coro_weight md) p ≤ length p * w)%nat.
    { apply IH. intros c' Hc'. apply Hall. by right. }
    lia. }
  nia.
Qed.

Lemma fetched_weight md slf url html text d :
  (pool_weight md (spawned (fetched md slf url html text d)) + 3
   ≤ crawl_weight (Z.to_nat (md - d)))%nat.
Proof.
  destruct (fetched_spec md slf url html text d) as (_ & _ & _ & Hlen & Hsp & _).
  destruct (spawned (fetched md slf url html text d)) as [|c p] eqn:E.
  { pose proof (crawl_weight_ge (Z.to_nat (md - d))). simpl. lia. }
  destruct (Hsp c) as [Hd _]; [set_solver|].
  apply workers_weight; [done|rewrite length_app in Hlen; lia|].
  intros c' Hc'. apply Hsp. set_solver.
Qed.

(** A segment replaces its coroutine by coroutines of smaller total weight. *)
Lemma resumes_weight md slf c r :
  resumes md slf c r → (pool_weight md (spawned r) < coro_weight md c)%nat.
Proof.
  inversion 1 as [caller url d|caller url d Hd Hnew Hdom
                 |caller url d html text Hprim|caller url d e Hprim
                 |caller url d html text Hsec|caller url d e Hsec]; subst.
  - apply coro_weight_pos.
  - unfold pool_weight. simpl. rewrite (proj2 (Z.ltb_ge md d)) by done.
    pose proof (crawl_weight_ge (Z.to_nat (md - d))). lia.
  - pose proof (fetched_weight md slf url html text d). simpl. lia.
  - unfold pool_weight. simpl. pose proof (crawl_weight_ge (Z.to_nat (md - d))). lia.
  - pose proof (fetched_weight md slf url html text d). simpl. lia.
  - unfold pool_weight. simpl. pose proof (crawl_weight_ge (Z.to_nat (md - d))). lia.
Qed.

Lemma step_at_weight md i s :
  pool s ≠ [] →
  (pool_weight md (pool (step_at md i s)) < pool_weight md (pool s))%nat.
Proof.
  intros Hne. unfold step_at.
  set (k := (i `mod` length (pool s))%nat).
  assert (Hk : (k < length (pool s))%nat).
  { apply Nat.mod_upper_bound. by destruct (pool s). }
  destruct (lookup_lt_is_Some_2 _ _ Hk) as [c Hc]. rewrite Hc. simpl.
  pose proof (resumes_weight md (self s) c _ (resume_resumes md (self s) c)) as Hw.
  assert (Heq : pool_weight md (pool s)
                = (pool_weight md (take k (pool s)) + coro_weight md c
                   + pool_weight md (drop (S k) (pool s)))%nat).
  { rewrite <- (take_drop_middle (pool s) k c Hc) at 1.
    unfold pool_weight. rewrite sum_list_with_app. simpl. lia. }
  rewrite Heq. unfold pool_weight in *. rewrite !sum_list_with_app. lia.
Qed.

Lemma step_at_empty md i s : pool s = [] → step_at md i s = s.
Proof. unfold step_at. intros ->. done. Qed.

Lemma run_weight md sched s :
  (pool_weight md (pool (run md sched s)) ≤ pool_weight md (pool s) - length sched)%nat.
Proof.
  revert s. induction sched as [|i sched IH]; intros s; simpl; [lia|].
  specialize (IH (step_at md i s)).
  destruct (decide (pool s = [])) as [Hp|Hp].
  - rewrite step_at_empty in IH |- * by done.
    assert (pool_weight md (pool s) = 0%nat) by (by rewrite Hp). lia.
  - pose proof (step_at_weight md i s Hp). lia.
Qed.

Lemma resumes_blocked md slf c r :
  resumes md slf c r → WebScraper.max_concurrent slf ≠ 0%Z → blocked r = [].
Proof.
  inversion 1 as [| |caller url d html text Hprim| |caller url d html text Hsec|];
    subst; try done.
  - apply (fetched_spec md slf url html text d).
  - apply (fetched_spec md slf url html text d).
Qed.

Lemma step_at_stuck md i s :
  WebScraper.max_concurrent (self s) ≠ 0%Z →
  stuck s = [] → stuck (step_at md i s) = [].
Proof.
  intros Hmc Hst. unfold step_at. destruct (pool s !! _) as [c|]; [|done].
  simpl. rewrite Hst. simpl.
  by eapply resumes_blocked; [apply resume_resumes|].
Qed.

Lemma run_stuck md sched s :
  WebScraper.max_concurrent (self s) ≠ 0%Z →
  stuck s = [] → stuck (run md sched s) = [].
Proof.
  revert s. induction sched as [|i sched IH]; intros s Hmc Hst; simpl; [done|].
  apply IH; [|by apply step_at_stuck].
  by destruct (step_at_settings md i s) as (_ & _ & <- & _).
Qed.

Lemma begin_session_eq slf url max_depth :
  begin_session slf url max_depth
  = step_at (crawl_depth_of slf max_depth) 0
      (mkSession
         (set_base_domain (reset_crawl_data (set_crawled_urls slf ∅))
            (extract_domain_from_url url))
         [] [Start ByScrape url 0] [] None).
Proof. reflexivity. Qed.

(** With a semaphore that has permits (or one whose creation raises), the
    crawl of a call is over when the schedule of [crawl] has been run: no
    coroutine is left. *)
Lemma crawl_terminates policy slf url max_depth :
  WebScraper.max_concurrent slf ≠ 0%Z →
  pool (crawl policy slf url max_depth) = []
  ∧ stuck (crawl policy slf url max_depth) = [].
Proof.
  intros Hmc. unfold crawl.
  set (md := crawl_depth_of slf max_depth).
  set (sched := map policy (seq 0 (crawl_weight (Z.to_nat md)))).
  assert (Hbegin : (pool_weight md (pool (begin_session slf url max_depth))
                    < crawl_weight (Z.to_nat md))%nat
                   ∧ stuck (begin_session slf url max_depth) = []
                   ∧ WebScraper.max_concurrent (self (begin_session slf url max_depth))
                     ≠ 0%Z).
  { rewrite begin_session_eq. fold md.
    match goal with |- context [step_at md 0 ?s0] => set (s := s0) end.
    split; [|split].
    - pose proof (step_at_weight md 0 s ltac:(done)) as Hw.
      change (pool s) with [Start ByScrape url 0] in Hw.
      assert (Hroot : pool_weight md [Start ByScrape url 0]
                      = if (md <? 0)%Z then 1%nat else crawl_weight (Z.to_nat md)).
      { unfold pool_weight. simpl. rewrite Z.sub_0_r.
        destruct (md <? 0)%Z; lia. }
      rewrite Hroot in Hw.
      pose proof (crawl_weight_ge (Z.to_nat md)).
      destruct (md <? 0)%Z; lia.
    - by apply step_at_stuck.
    - by destruct (step_at_settings md 0 s) as (_ & _ & <- & _). }
  destruct Hbegin as (Hw & Hst & Hmc').
  split; [|by apply run_stuck].
  apply (pool_weight_nil md).
  pose proof (run_weight md sched (begin_session slf url max_depth)) as Hrun.
  unfold sched in Hrun at 2. rewrite length_map, length_seq in Hrun. lia.
Qed.

(** [scrape_website] returns or raises: the call comes to an end. *)
Lemma scrape_website_ends policy slf url company_name max_depth :
  WebScraper.max_concurrent slf ≠ 0%Z →
  ∃ outcome, fst (scrape_website policy slf url company_name max_depth) = Some outcome.
Proof.
  intros Hmc. destruct (crawl_terminates policy slf url max_depth Hmc) as [Hp Hs].
  unfold scrape_website, end_session. rewrite Hp, Hs.
  destruct (root_exc _); simpl; eauto.
Qed.

End Termination.

(** ** Contact extraction *)

Lemma elem_of_concat {A} (x : A) (ls : list (list A)) :
  x ∈ concat ls ↔ ∃ l, x ∈ l ∧ l ∈ ls.
Proof.
  rewrite list_elem_of_In, in_concat. split.
  - intros (l & Hl & Hx). exists l. by rewrite !list_elem_of_In.
  - intros (l & Hx & Hl). exists l. by rewrite <- !list_elem_of_In.
Qed.

Section Dedup.

Implicit Types (l : list Contact.t) (seen : gset string) (c : Contact.t).

(** Among the contacts of one key, the last pass keeps the first and drops
    the others; a key that was seen before is dropped altogether. *)
Lemma dedup_loop_filter k l seen :
  filter (fun c => value_key c = k) (dedup_loop l seen)
  = if bool_decide (k ∈ seen) then []
    else take 1 (filter (fun c => value_key c = k) l).
Proof.
  revert seen. induction l as [|c l IH]; intros seen; simpl.
  { by case_bool_decide. }
  case_bool_decide as Hc.
  - rewrite IH. case_bool_decide as Hk; [done|].
    rewrite filter_cons_False; [done|]. intros <-. done.
  - destruct (decide (value_key c = k)) as [Heq|Hne].
    + rewrite !filter_cons_True by done. rewrite IH.
      rewrite bool_decide_true by set_solver.
      rewrite bool_decide_false by (by rewrite <- Heq). done.
    + rewrite !filter_cons_False by done. rewrite IH.
      case_bool_decide as H1; case_bool_decide as H2; try done; set_solver.
Qed.

Lemma dedup_loop_elem c l seen :
  c ∈ dedup_loop l seen → c ∈ l ∧ value_key c ∉ seen.
Proof.
  revert seen. induction l as [|c' l IH]; intros seen; simpl.
  { by intros ?%elem_of_nil. }
  case_bool_decide as Hc.
  - intros [??]%IH. split; [by right|done].
  - intros [->|H]%elem_of_cons; [split; [by left|done]|].
    apply IH in H as [??]. split; [by right|set_solver].
Qed.

Lemma dedup_loop_keys_NoDup l seen :
  NoDup (value_key <$> dedup_loop l seen).
Proof.
  revert seen. induction l as [|c l IH]; intros seen; simpl; [constructor|].
  case_bool_decide as Hc; [apply IH|].
  rewrite fmap_cons. apply NoDup_cons. split; [|apply IH].
  intros (c' & Hk & Hc')%list_elem_of_fmap.
  apply dedup_loop_elem in Hc' as [_ Hc']. set_solver.
Qed.

Lemma dedup_loop_NoDup l seen : NoDup (dedup_loop l seen).
Proof. eapply NoDup_fmap_1, dedup_loop_keys_NoDup. Qed.

Lemma dedup_loop_app l1 l2 seen :
  dedup_loop (l1 ++ l2) seen
  = dedup_loop l1 seen
    ++ dedup_loop l2 (list_to_set (value_key <$> l1) ∪ seen).
Proof.
  revert seen. induction l1 as [|c l1 IH]; intros seen; simpl.
  { f_equal. set_solver. }
  case_bool_decide as Hc.
  - rewrite IH. do 2 f_equal. set_solver.
  - simpl. rewrite IH. do 3 f_equal. set_solver.
Qed.

(** A key that has not been seen survives the pass. *)
Lemma dedup_loop_complete c l seen :
  c ∈ l → value_key c ∉ seen →
  ∃ c', c' ∈ dedup_loop l seen ∧ value_key c' = value_key c.
Proof.
  intros Hc Hk.
  pose proof (dedup_loop_filter (value_key c) l seen) as Hf.
  rewrite bool_decide_false in Hf by done.
  destruct (filter (fun c0 => value_key c0 = value_key c) l) as [|c' f] eqn:E.
  { exfalso. eapply (filter_nil_not_elem_of _ l c); [exact E|done|done]. }
  exists c'.
  assert (Hin : c' ∈ filter (fun c0 => value_key c0 = value_key c) (dedup_loop l seen)).
  { rewrite Hf. simpl. rewrite take_0. by apply list_elem_of_singleton. }
  apply list_elem_of_filter in Hin as [??]. done.
Qed.

(** On the two types that occur, the key determines type and value. *)
Lemma value_key_inj c1 c2 :
  (Contact.type c1 = "email" ∨ Contact.type c1 = "phone") →
  (Contact.type c2 = "email" ∨ Contact.type c2 = "phone") →
  value_key c1 = value_key c2 →
  Contact.type c1 = Contact.type c2 ∧ Contact.value c1 = Contact.value c2.
Proof.
  unfold value_key. intros [->| ->] [->| ->] H; cbv [String.append] in H;
    by simplify_eq.
Qed.

End Dedup.

Lemma filter_ext_elem {A} (P Q : A → Prop) `{∀ x, Decision (P x)}
    `{∀ x, Decision (Q x)} (l : list A) :
  (∀ x, x ∈ l → (P x ↔ Q x)) → filter P l = filter Q l.
Proof.
  induction l as [|x l IH]; intros Hl; [done|].
  rewrite !filter_cons. rewrite IH by (intros y Hy; apply Hl; by right).
  destruct (decide (P x)) as [HP|HP], (decide (Q x)) as [HQ|HQ]; try done.
  - exfalso. apply HQ, (Hl x); [by left|done].
  - exfalso. apply HP, (Hl x); [by left|done].
Qed.

Lemma take_1_app_nonempty {A} (l1 l2 : list A) :
  l1 ≠ [] → take 1 (l1 ++ l2) = take 1 l1.
Proof. destruct l1; [done|]. intros _. simpl. by rewrite !take_0. Qed.

Section ContactFacts.

Variable findall_email : string -> list string.
Variable findall_phone : nat -> string -> list PhoneMatch.
Variable list_of_set : list string -> list string.

Lemma element_contacts_type base_url element c :
  c ∈ element_contacts findall_email base_url element →
  (Contact.type c = "email" ∨ Contact.type c = "phone")
  ∧ Contact.page_url c = base_url.
Proof.
  unfold element_contacts.
  repeat (case_bool_decide || case_match; simpl);
    rewrite ?elem_of_nil, ?list_elem_of_singleton;
    try (intros ->; simpl; by eauto); try done.
  all: intros (e & -> & _)%list_elem_of_fmap; simpl; eauto.
Qed.

Lemma phone_loop_type base_url matches processed c :
  c ∈ phone_loop base_url matches processed →
  Contact.type c = "phone" ∧ Contact.page_url c = base_url.
Proof.
  revert processed. induction matches as [|m matches IH]; intros processed; simpl.
  { by intros ?%elem_of_nil. }
  destruct (_ && _); [|apply IH].
  intros [->|H]%elem_of_cons; [done|]. by eapply IH.
Qed.

Lemma all_contacts_type soup base_url c :
  c ∈ all_contacts findall_email findall_phone list_of_set soup base_url →
  (Contact.type c = "email" ∨ Contact.type c = "phone")
  ∧ Contact.page_url c = base_url.
Proof.
  unfold all_contacts. rewrite !elem_of_app. intros [H|[H|H]].
  - apply list_elem_of_fmap in H as (e & -> & _). simpl. eauto.
  - apply phone_loop_type in H as [-> ->]. eauto.
  - unfold selector_contacts in H.
    apply elem_of_concat in H as (l & Hc & Hl).
    apply list_elem_of_fmap in Hl as (sel & -> & _).
    apply elem_of_concat in Hc as (l' & Hc & Hl').
    apply list_elem_of_fmap in Hl' as (el & -> & _).
    by eapply element_contacts_type.
Qed.

(** The records of one (type, value) pair that the extraction returns: the
    first such record of the list built by the three passes, and only it. *)
Lemma extract_contact_pair soup base_url ty v :
  ty = "email" ∨ ty = "phone" →
  filter (fun c => Contact.type c = ty ∧ Contact.value c = v)
    (_extract_contact_comprehensive findall_email findall_phone list_of_set
       soup base_url)
  = take 1
      (filter (fun c => Contact.type c = ty ∧ Contact.value c = v)
         (all_contacts findall_email findall_phone list_of_set soup base_url)).
Proof.
  intros Hty. unfold _extract_contact_comprehensive.
  set (l := all_contacts findall_email findall_phone list_of_set soup base_url).
  assert (Hkey : ∀ c, c ∈ l →
            (Contact.type c = ty ∧ Contact.value c = v)
            ↔ value_key c = ty +:+ ":" +:+ v).
  { intros c Hc. apply all_contacts_type in Hc as [Hc _]. split.
    - intros [<- <-]. done.
    - intros Hk.
      apply (value_key_inj c (Contact.mk ty v "" 0 "")) in Hk; [done|done|done]. }
  rewrite (filter_ext_elem _ (fun c => value_key c = ty +:+ ":" +:+ v) (dedup_loop l ∅)).
  2:{ intros c Hc. apply Hkey. by apply dedup_loop_elem in Hc as [? _]. }
  rewrite (filter_ext_elem _ (fun c => value_key c = ty +:+ ":" +:+ v) l) by done.
  rewrite dedup_loop_filter. by rewrite bool_decide_false by set_solver.
Qed.

(** C5. When an address is the target of a selected [mailto:] link and is
    also matched in the text of the page, the extraction returns exactly one
    record with the type [email] and that address in lower case: the first
    such record of the list built by the passes, all later ones being
    dropped.  When the match in the text is among the first ten of the set
    and longer than five characters, the record kept is the one of the text
    pass. *)
Theorem mailto_and_text_email_once (soup : Bs4.Soup)
    (base_url selector address e : string) (element : Bs4.Tag) :
  selector ∈ contact_selectors →
  element ∈ Bs4.select soup selector →
  Bs4.name element = "a" →
  startswith (Bs4.get element "href" "") "mailto:" = true →
  address = strip (replace (Bs4.get element "href" "") "mailto:" "") →
  address ≠ "" →
  contains "@" address = true →
  e ∈ findall_email (Bs4.soup_get_text soup) →
  lower e = lower address →
  let same := fun c => Contact.type c = "email" ∧ Contact.value c = lower address in
  let contacts :=
    all_contacts findall_email findall_phone list_of_set soup base_url in
  let unique_contacts :=
    _extract_contact_comprehensive findall_email findall_phone list_of_set
      soup base_url in
  (∃ c, filter same unique_contacts = [c])
  ∧ filter same unique_contacts = take 1 (filter same contacts)
  ∧ (e ∈ slice_to 10 (list_of_set (findall_email (Bs4.soup_get_text soup))) →
     (5 < String.length e)%nat →
     filter same unique_contacts
     = [Contact.mk "email" (lower address) base_url (95 # 100)
          "regex_pattern_matching"]).
Proof.
  intros Hsel Hel Hname Hhref Haddr Hne Hat He Hlow same contacts unique_contacts.
  assert (Heq : filter same unique_contacts = take 1 (filter same contacts)).
  { apply extract_contact_pair. by left. }
  assert (Hmail : Contact.mk "email" (lower address) base_url (98 # 100)
                    "html_mailto_link" ∈ contacts).
  { unfold contacts, all_contacts. rewrite !elem_of_app. right; right.
    unfold selector_contacts. apply elem_of_concat.
    eexists. split; [|apply list_elem_of_fmap; eexists; split; [reflexivity|exact Hsel]].
    apply elem_of_concat.
    eexists. split; [|apply list_elem_of_fmap; eexists; split; [reflexivity|exact Hel]].
    unfold element_contacts. rewrite bool_decide_true by done. rewrite Hhref.
    rewrite <- Haddr. rewrite bool_decide_false by done. rewrite Hat. simpl.
    by apply list_elem_of_singleton. }
  split; [|split; [done|]].
  - rewrite Heq.
    destruct (filter same contacts) as [|c f] eqn:E.
    + exfalso. eapply (filter_nil_not_elem_of same contacts); [exact E| |exact Hmail].
      done.
    + exists c. simpl. by rewrite take_0.
  - intros Hten Hlen. rewrite Heq. unfold contacts, all_contacts.
    set (emails := email_contacts findall_email list_of_set base_url
                     (Bs4.soup_get_text soup)).
    assert (Hin : regex_email base_url e ∈ filter same emails).
    { apply list_elem_of_filter. split; [by split|].
      unfold emails, email_contacts. apply list_elem_of_fmap. exists e.
      split; [done|]. apply list_elem_of_filter. split; [|done].
      split; [|done]. intros ->. simpl in Hlen. lia. }
    rewrite filter_app, take_1_app_nonempty by (intros Hnil; rewrite Hnil in Hin;
                                                  by apply elem_of_nil in Hin).
    destruct (filter same emails) as [|c f] eqn:E; [by apply elem_of_nil in Hin|].
    simpl. rewrite take_0. f_equal.
    assert (Hc : c ∈ filter same emails) by (rewrite E; by left).
    apply list_elem_of_filter in Hc as [[_ Hv] Hc].
    unfold emails, email_contacts in Hc.
    apply list_elem_of_fmap in Hc as (e' & -> & _). simpl in Hv.
    unfold regex_email. by rewrite Hv.
Qed.

End ContactFacts.
Section SetOrder.

Variable findall_email : string -> list string.
Variable findall_phone : nat -> string -> list PhoneMatch.

Lemma regex_email_key base_url e1 e2 :
  value_key (regex_email base_url e1) = value_key (regex_email base_url e2) →
  regex_email base_url e1 = regex_email base_url e2.
Proof.
  intros Hk. apply value_key_inj in Hk as [_ Hv]; [|by left..].
  unfold regex_email. simpl in Hv. by rewrite Hv.
Qed.

Lemma dedup_regex_perm base_url (l1 l2 : list string) :
  l1 ≡ₚ l2 →
  dedup_loop (regex_email base_url <$> l1) ∅
  ≡ₚ dedup_loop (regex_email base_url <$> l2) ∅.
Proof.
  assert (Hsub : ∀ a b : list string, a ≡ₚ b → ∀ c,
             c ∈ dedup_loop (regex_email base_url <$> a) ∅ →
             c ∈ dedup_loop (regex_email base_url <$> b) ∅).
  { intros a b Hab c Hc.
    pose proof (dedup_loop_elem _ _ _ Hc) as [Hin _].
    assert (Hinb : c ∈ regex_email base_url <$> b) by (by rewrite <- Hab).
    destruct (dedup_loop_complete c _ ∅ Hinb) as (c' & Hc' & Hk); [set_solver|].
    pose proof (dedup_loop_elem _ _ _ Hc') as [Hin' _].
    apply list_elem_of_fmap in Hin as (e1 & -> & _).
    apply list_elem_of_fmap in Hin' as (e2 & -> & _).
    by rewrite <- (regex_email_key _ _ _ Hk). }
  intros Hp. apply NoDup_Permutation; [apply dedup_loop_NoDup..|].
  intros c. split; apply Hsub; [done|by symmetry].
Qed.

(** C6 (amended). The email matches pass through [list(set(emails))[:10]],
    and the order in which a set is listed is not fixed by its elements.
    Two runs that list the set of matches in the same order return the same
    list.  Two runs that list it in different orders still return the same
    records, in a possibly different order, as long as the page has at most
    ten distinct matches. *)
Theorem contact_extraction_up_to_set_order
    (order1 order2 : list string → list string) (soup : Bs4.Soup)
    (base_url : string) :
  set_listing order1 →
  set_listing order2 →
  let emails := findall_email (Bs4.soup_get_text soup) in
  let run1 :=
    _extract_contact_comprehensive findall_email findall_phone order1 soup base_url in
  let run2 :=
    _extract_contact_comprehensive findall_email findall_phone order2 soup base_url in
  (order1 emails = order2 emails → run1 = run2)
  ∧ ((length (order1 emails) ≤ 10)%nat → run1 ≡ₚ run2).
Proof.
  intros H1 H2 emails run1 run2. split.
  - intros Heq. unfold run1, run2, _extract_contact_comprehensive, all_contacts,
      email_contacts. fold emails. by rewrite Heq.
  - intros Hlen.
    assert (Hperm : order1 emails ≡ₚ order2 emails).
    { apply NoDup_Permutation; [apply H1|apply H2|].
      intros x. destruct (H1 emails) as [_ ->]. by destruct (H2 emails) as [_ ->]. }
    unfold run1, run2, _extract_contact_comprehensive, all_contacts, email_contacts.
    fold emails. unfold slice_to.
    rewrite (take_ge (order1 emails)) by done.
    rewrite (take_ge (order2 emails)) by (by rewrite <- Hperm).
    set (F1 := filter (fun email => email ≠ "" ∧ (5 < String.length email)%nat)
                 (order1 emails)).
    set (F2 := filter (fun email => email ≠ "" ∧ (5 < String.length email)%nat)
                 (order2 emails)).
    assert (Hf : F1 ≡ₚ F2) by (unfold F1, F2; by rewrite Hperm).
    rewrite !dedup_loop_app.
    assert (Hkeys : list_to_set (C := gset string)
                      (value_key <$> map (regex_email base_url) F1)
                    = list_to_set (value_key <$> map (regex_email base_url) F2)).
    { apply set_eq. intros k. rewrite !elem_of_list_to_set.
      change (map (regex_email base_url)) with (fmap (M := list) (regex_email base_url)).
      by rewrite Hf. }
    rewrite Hkeys. apply Permutation_app_tail. by apply dedup_regex_perm.
Qed.

End SetOrder.

(** ** The properties at concrete inputs *)

Import Fixture Examples.

Example normalize_url_examples :
  @_normalize_url dead_site "https://Ex.com/a/b//?q=1#frag" = "https://Ex.com/a/b?q=1"
  ∧ @_normalize_url dead_site "https://ex.com" = "https://ex.com/"
  ∧ @_normalize_url dead_site "https://ex.com/p;v=1/#top" = "https://ex.com/p;v=1"
  ∧ @_normalize_url dead_site "http://[::1/x#y" = "http://[::1/x#y".
Proof. by vm_compute. Qed.

(** C9, as stated, fails with CPython's functions.  The URL
    [http://ex.com/a/;p/] has the path [/a/;p/] and no parameters; its
    normal form [http://ex.com/a/;p] has the parameters [p], and a path,
    [/a/], that still ends with a slash.  The URL [http:////x] has no host
    and the path [//x]; its normal form [http://x] has the host [x]. *)
Lemma normalize_url_changes_components :
  @urlparse dead_site = cpython_urlparse
  ∧ @urlunparse dead_site = cpython_urlunparse
  ∧ cpython_urlparse "http://ex.com/a/;p/"
    = Returned (mkParseResult "http" "ex.com" "/a/;p/" "" "" "")
  ∧ @_normalize_url dead_site "http://ex.com/a/;p/" = "http://ex.com/a/;p"
  ∧ cpython_urlparse (@_normalize_url dead_site "http://ex.com/a/;p/")
    = Returned (mkParseResult "http" "ex.com" "/a/" "p" "" "")
  ∧ cpython_urlparse "http:////x"
    = Returned (mkParseResult "http" "" "//x" "" "" "")
  ∧ cpython_urlparse (@_normalize_url dead_site "http:////x")
    = Returned (mkParseResult "http" "x" "" "" "" "").
Proof. by vm_compute. Qed.

(** The normal form of a plain web address has the components of the
    address, without the fragment and the trailing slashes. *)
Lemma normalize_url_components_witness :
  @urlparse dead_site (@_normalize_url dead_site "https://Ex.com/a/b//?q=1#frag")
  = Returned (mkParseResult "https" "Ex.com" "/a/b" "" "q=1" "").
Proof.
  pose proof (@normalize_url_components dead_site "https://Ex.com/a/b//?q=1#frag") as H.
  assert (E : @urlparse dead_site "https://Ex.com/a/b//?q=1#frag"
              = Returned (mkParseResult "https" "Ex.com" "/a/b//" "" "q=1" "frag"))
    by reflexivity.
  rewrite E in H. destruct H as (_ & _ & _ & H).
  destruct (H eq_refl eq_refl) as [_ H2]. apply H2. reflexivity.
Defined.

(** With depth 1 the root and its one page of the same host are requested,
    once each; the page of the other host and the page at depth 2 are
    not. *)
Example crawl_small_site :
  let s := @crawl small_site first_ready web_scraper "https://ex.com" (Some 1%Z) in
  trace s = [Arun "https://ex.com/" 30000 0; Arun "https://ex.com/a" 30000 1]
  ∧ WebScraper.crawled_urls (self s) = {["https://ex.com/"; "https://ex.com/a"]}
  ∧ pool s = [].
Proof. by vm_compute. Qed.

(** The root page comes from the direct client after crawl4ai has failed;
    its subpage fails on both transports and leaves no entry. *)
Example crawl_fallback_site :
  let s := @crawl fallback_site first_ready web_scraper "https://ex.com" (Some 1%Z) in
  trace s
  = [Arun "https://ex.com/" 30000 0; HttpxGet "https://ex.com/" user_agent 30 0;
     Arun "https://ex.com/a" 30000 1; HttpxGet "https://ex.com/a" user_agent 30 1]
  ∧ dom (CrawlData.raw_html (WebScraper.crawl_data (self s))) = {["https://ex.com/"]}
  ∧ root_exc s = None.
Proof. by vm_compute. Qed.


(** The link and the text of [contact_page] give one record, the one of the
    text pass. *)
Lemma mailto_and_text_email_once_witness :
  filter (fun c => Contact.type c = "email" ∧ Contact.value c = "x@y.com")
    (_extract_contact_comprehensive contact_page_emails no_phones first_seen
       contact_page "https://ex.com/contact")
  = [Contact.mk "email" "x@y.com" "https://ex.com/contact" (95 # 100)
       "regex_pattern_matching"].
Proof.
  refine (proj2 (proj2
    (mailto_and_text_email_once contact_page_emails no_phones first_seen
       contact_page "https://ex.com/contact" mailto_selector "X@y.com" "x@y.com"
       mailto_link _ _ _ _ _ _ _ _ _)) _ _).
  - by left.
  - vm_compute. by left.
  - reflexivity.
  - reflexivity.
  - reflexivity.
  - discriminate.
  - reflexivity.
  - vm_compute. by left.
  - reflexivity.
  - vm_compute. by left.
  - vm_compute. lia.
Defined.

Lemma first_seen_listing : set_listing first_seen.
Proof.
  intros l. split; [apply NoDup_remove_dups|]. intros x. apply elem_of_remove_dups.
Qed.

Lemma last_seen_listing : set_listing last_seen.
Proof.
  intros l. unfold last_seen. split.
  - rewrite reverse_Permutation. apply NoDup_remove_dups.
  - intros x. rewrite elem_of_reverse. apply elem_of_remove_dups.
Qed.

(** C6, as stated, fails: with eleven distinct matches, the run that lists
    the set in one order keeps the address [a0@x.com] and the run that lists
    it in the reverse order drops it. *)
Lemma contact_extraction_depends_on_set_order :
  set_listing first_seen ∧ set_listing last_seen
  ∧ "a0@x.com" ∈ Contact.value <$>
      _extract_contact_comprehensive crowded_page_emails no_phones first_seen
        crowded_page "https://ex.com/"
  ∧ ("a0@x.com" ∉ Contact.value <$>
       _extract_contact_comprehensive crowded_page_emails no_phones last_seen
         crowded_page "https://ex.com/")
  ∧ _extract_contact_comprehensive crowded_page_emails no_phones first_seen
      crowded_page "https://ex.com/"
    ≠ _extract_contact_comprehensive crowded_page_emails no_phones last_seen
        crowded_page "https://ex.com/".
Proof.
  split; [apply first_seen_listing|]. split; [apply last_seen_listing|].
  split; [by vm_compute; left|].
  split.
  - apply (bool_decide_unpack _). by vm_compute.
  - vm_compute. discriminate.
Qed.

(** With two matches, the two orders give the same two records. *)
Lemma contact_extraction_up_to_set_order_witness :
  _extract_contact_comprehensive pair_page_emails no_phones first_seen
    pair_page "https://ex.com/"
  ≡ₚ _extract_contact_comprehensive pair_page_emails no_phones last_seen
       pair_page "https://ex.com/".
Proof.
  refine (proj2
    (contact_extraction_up_to_set_order pair_page_emails no_phones
       first_seen last_seen pair_page "https://ex.com/"
       first_seen_listing last_seen_listing) _).
  vm_compute. lia.
Defined.

(** C8. [scrape_website] never raises [TimeoutError], whatever the
    transports do and however long they take.  On a host where crawl4ai
    runs into its page timeout of one second and httpx into its timeout of
    thirty, the call with a configured timeout of one second returns an
    empty result. *)
Theorem session_timeout_not_enforced :
  (∀ (env : Env) policy self0 url company_name max_depth message seconds,
      fst (@scrape_website env policy self0 url company_name max_depth)
      ≠ Some (Failed (TimeoutError message seconds)))
  ∧ trace (@crawl timing_out_site first_ready impatient_scraper "https://ex.com" None)
    = [Arun "https://ex.com/" 1000 0; HttpxGet "https://ex.com/" user_agent 30 0]
  ∧ ∃ r self1,
      @scrape_website timing_out_site first_ready impatient_scraper
        "https://ex.com" "Ex" None
      = (Some (Scraped r), self1)
      ∧ Result.raw_html r = ∅
      ∧ Result.total_pages_crawled (Result.metadata r) = 1%nat.
Proof.
  split; [intros; apply scrape_website_not_TimeoutError|].
  split; [by vm_compute|].
  eexists _, _. split; [vm_compute; reflexivity|]. split; reflexivity.
Qed.

(** C10, as stated, fails when two calls overlap: the result of the second
    call holds the raw HTML of a page of the first call, which the second
    call never requested. *)
Lemma overlapping_calls_share_data :
  pool (snd two_calls) = []
  ∧ ("https://a.com/" ∉ arun_urls (trace (snd two_calls)))
  ∧ ∃ r self1,
      @end_session two_sites (snd two_calls) "https://b.com" "B" 2
      = (Some (Scraped r), self1)
      ∧ Result.raw_html r !! "https://a.com/" = Some "PAGE A"
      ∧ Result.base_domain (Result.metadata r) = "b.com".
Proof.
  split; [by vm_compute|]. split.
  - apply (bool_decide_unpack _). by vm_compute.
  - eexists _, _. split; [vm_compute; reflexivity|]. split; by vm_compute.
Qed.

(** * Further properties of the crawl engine *)

(** ** Bounds and outcomes of a session *)

Section SessionBounds.

Context {env : Env}.

(** Induction over the sessions of a crawl: the start of the call, then one
    segment at a time, with the invariant at hand. *)
Lemma reachable_ind (Q : Session → Prop) slf url max_depth :
  Q (begin_session slf url max_depth) →
  (∀ s i, session_inv (crawl_depth_of slf max_depth) s → Q s →
          Q (step_at (crawl_depth_of slf max_depth) i s)) →
  ∀ sched,
    Q (run (crawl_depth_of slf max_depth) sched (begin_session slf url max_depth)).
Proof.
  intros H0 Hstep sched.
  pose proof (begin_session_inv slf url max_depth) as Hinv.
  revert Hinv H0. generalize (begin_session slf url max_depth).
  induction sched as [|i sched IH]; intros s Hinv Hs; simpl; [done|].
  apply IH; [by apply step_at_inv|by apply Hstep].
Qed.

(** One segment of the coroutine at position [k], seen through [resumes]. *)
Lemma step_at_resumes md i s :
  pool s = [] ∧ step_at md i s = s
  ∨ ∃ k c r,
      pool s !! k = Some c ∧ resumes md (self s) c r
      ∧ step_at md i s
        = mkSession (self' r) (trace s ++ events r)
            (take k (pool s) ++ spawned r ++ drop (S k) (pool s))
            (stuck s ++ blocked r) (root_exc_after c r (root_exc s)).
Proof.
  destruct (pool s) as [|c0 p] eqn:E.
  { left. split; [done|]. unfold step_at. by rewrite E. }
  right. unfold step_at. rewrite E.
  set (k := (i `mod` length (c0 :: p))%nat).
  assert (Hk : (k < length (c0 :: p))%nat) by (apply Nat.mod_upper_bound; done).
  destruct (lookup_lt_is_Some_2 _ _ Hk) as [c Hc]. rewrite Hc.
  exists k, c, (resume md (self s) c). split; [done|].
  split; [apply resume_resumes|done].
Qed.

Lemma page_budget_pos k : (1 ≤ page_budget k)%nat.
Proof. destruct k; simpl; lia. Qed.

Lemma page_budget_closed k : (9 * page_budget k + 1 = 10 ^ S k)%nat.
Proof.
  induction k as [|k IH]; [done|].
  change (page_budget (S k)) with (1 + 10 * page_budget k)%nat.
  rewrite (Nat.pow_succ_r' 10 (S k)). lia.
Qed.

Lemma workers_budget md d (p : list Coro) :
  (d + 1 ≤ md)%Z →
  (length p ≤ 10)%nat →
  (∀ c, c ∈ p → ∃ link, c = Start ByGather link (d + 1)) →
  (pool_budget md p + 1 ≤ page_budget (Z.to_nat (md - d)))%nat.
Proof.
  intros Hd Hlen Hall.
  replace (Z.to_nat (md - d)) with (S (Z.to_nat (md - (d + 1)))) by lia.
  simpl. set (w := page_budget (Z.to_nat (md - (d + 1)))).
  assert (Hsum : (pool_budget md p ≤ length p * w)%nat).
  { clear Hlen. induction p as [|c p IH]; [simpl; lia|].
    destruct (Hall c) as [link ->]; [by left|].
    unfold pool_budget in *. simpl.
    rewrite (proj2 (Z.ltb_ge md (d + 1))) by lia. fold w.
    assert (sum_list_with (coro_budget md) p ≤ length p * w)%nat.
    { apply IH. intros c' Hc'. apply Hall. by right. }
    lia. }
  nia.
Qed.

Lemma fetched_budget md slf url html text d :
  (pool_budget md (spawned (fetched md slf url html text d)) + 1
   ≤ page_budget (Z.to_nat (md - d)))%nat.
Proof.
  destruct (fetched_spec md slf url html text d) as (_ & _ & _ & Hlen & Hsp & _).
  destruct (spawned (fetched md slf url html text d)) as [|c p] eqn:E.
  { pose proof (page_budget_pos (Z.to_nat (md - d))). simpl. lia. }
  destruct (Hsp c) as [Hd _]; [set_solver|].
  apply workers_budget; [done|rewrite length_app in Hlen; lia|].
  intros c' Hc'. apply Hsp. set_solver.
Qed.

(** A segment uses up budget for the requests it sends. *)
Lemma resumes_budget md slf c r :
  resumes md slf c r →
  (length (arun_urls (events r)) + pool_budget md (spawned r) ≤ coro_budget md c)%nat.
Proof.
  inversion 1 as [caller url d|caller url d Hd Hnew Hdom
                 |caller url d html text Hprim|caller url d e Hprim
                 |caller url d html text Hsec|caller url d e Hsec]; subst.
  - simpl. lia.
  - unfold pool_budget. simpl. rewrite (proj2 (Z.ltb_ge md d)) by done.
    pose proof (page_budget_pos (Z.to_nat (md - d))).
    change (arun_urls [Arun (_normalize_url url) (page_timeout slf) d])
      with [_normalize_url url]. simpl. lia.
  - destruct (fetched_spec md slf url html text d) as (-> & _).
    pose proof (fetched_budget md slf url html text d). simpl. lia.
  - unfold pool_budget. simpl.
    change (arun_urls [HttpxGet url user_agent 30 d]) with (@nil string). simpl. lia.
  - destruct (fetched_spec md slf url html text d) as (-> & _).
    pose proof (fetched_budget md slf url html text d). simpl. lia.
  - simpl. lia.
Qed.

Lemma step_at_budget md i s :
  (length (arun_urls (trace (step_at md i s))) + pool_budget md (pool (step_at md i s))
   ≤ length (arun_urls (trace s)) + pool_budget md (pool s))%nat.
Proof.
  destruct (step_at_resumes md i s) as [[_ ->]|(k & c & r & Hc & Hr & ->)]; [done|].
  simpl. pose proof (resumes_budget md (self s) c r Hr) as Hb.
  assert (Heq : pool_budget md (pool s)
                = (pool_budget md (take k (pool s)) + coro_budget md c
                   + pool_budget md (drop (S k) (pool s)))%nat).
  { rewrite <- (take_drop_middle (pool s) k c Hc) at 1.
    unfold pool_budget. rewrite sum_list_with_app. simpl. lia. }
  rewrite Heq, arun_urls_app, length_app.
  unfold pool_budget in *. rewrite !sum_list_with_app. lia.
Qed.


Lemma crawl_subpages_raised slf links md d e :
  _crawl_subpages slf links md d = Raised e → (WebScraper.max_concurrent slf < 0)%Z.
Proof.
  unfold _crawl_subpages. destruct (_ || _); [done|].
  destruct (Z.min _ _ <? 0)%Z eqn:Hneg; [|by destruct (_ =? _)%Z].
  intros _. apply Z.ltb_lt in Hneg. lia.
Qed.

Lemma fetched_raised md slf url html text d e :
  raised (fetched md slf url html text d) = Some e →
  (WebScraper.max_concurrent slf < 0)%Z.
Proof.
  unfold fetched. case_bool_decide; [done|].
  destruct (d <? md)%Z; [|done].
  destruct (_crawl_subpages _ _ _ _) as [[tasks waiting]|e'] eqn:E; [done|].
  intros _. apply crawl_subpages_raised in E.
  destruct (extract_comprehensive_data_spec slf url html text d)
    as ((_ & _ & Hmc & _) & _).
  by rewrite Hmc.
Qed.

Lemma resumes_raised md slf c r e :
  resumes md slf c r → raised r = Some e → (WebScraper.max_concurrent slf < 0)%Z.
Proof.
  inversion 1; subst; simpl; try done; apply fetched_raised.
Qed.

Lemma step_at_root_exc md i s :
  (root_exc s ≠ None → (WebScraper.max_concurrent (self s) < 0)%Z) →
  root_exc (step_at md i s) ≠ None →
  (WebScraper.max_concurrent (self (step_at md i s)) < 0)%Z.
Proof.
  intros Hs. destruct (step_at_settings md i s) as (_ & _ & <- & _).
  destruct (step_at_resumes md i s) as [[_ ->]|(k & c & r & Hc & Hr & ->)]; [done|].
  simpl. unfold root_exc_after.
  destruct (raised r) as [e|] eqn:Hraised.
  - intros _. by eapply resumes_raised.
  - by destruct (caller_of c).
Qed.

Lemma crawl_root_exc policy slf url max_depth :
  root_exc (crawl policy slf url max_depth) ≠ None →
  (WebScraper.max_concurrent slf < 0)%Z.
Proof.
  unfold crawl.
  destruct (reachable_settings slf url max_depth
              (map policy (seq 0 (crawl_weight (Z.to_nat (crawl_depth_of slf max_depth))))))
    as (_ & <- & _).
  apply (reachable_ind
           (fun s => root_exc s ≠ None → (WebScraper.max_concurrent (self s) < 0)%Z)).
  - rewrite begin_session_eq. by apply step_at_root_exc.
  - intros s i _ Hs. by apply step_at_root_exc.
Qed.


(** X3. The only exception [scrape_website] raises is a [ScrapingError]
    for the URL of the call, and only with a negative number of concurrent
    requests (the semaphore cannot be created); the only way not to return
    is a semaphore without permits. *)
Theorem scrape_website_failure_modes (policy : nat -> nat) (self0 : WebScraper.t)
    (url company_name : string) (max_depth : option Z) :
  match fst (scrape_website policy self0 url company_name max_depth) with
  | Some (Failed e) =>
      (WebScraper.max_concurrent self0 < 0)%Z
      ∧ ∃ msg,
          e = ScrapingError ("Failed to scrape " +:+ url +:+ ": " +:+ msg) url
  | Some (Scraped _) => True
  | None => WebScraper.max_concurrent self0 = 0%Z
  end.
Proof.
  unfold scrape_website, end_session.
  pose proof (crawl_inv policy self0 url max_depth) as Hinv.
  destruct (root_exc (crawl policy self0 url max_depth)) as [e|] eqn:E.
  - simpl. split; [apply (crawl_root_exc policy self0 url max_depth); by rewrite E|].
    destruct (inv_root_exc _ _ Hinv) as [Hn|[msg Hmsg]]; [congruence|].
    rewrite E in Hmsg. simplify_eq. simpl. eauto.
  - destruct (decide (WebScraper.max_concurrent self0 = 0%Z)) as [Hz|Hnz].
    + by destruct (pool (crawl policy self0 url max_depth)),
                  (stuck (crawl policy self0 url max_depth)).
    + destruct (crawl_terminates policy self0 url max_depth Hnz) as [-> ->]. done.
Qed.

End SessionBounds.

(** ** The links of a page *)

Section Links.

Context {env : Env}.

Lemma links_loop_spec base_domain base_url a_tags links :
  NoDup links →
  NoDup (links_loop base_domain base_url a_tags links)
  ∧ ∀ link, link ∈ links_loop base_domain base_url a_tags links →
            link ∈ links ∨ link_of base_domain base_url a_tags link.
Proof.
  revert links. induction a_tags as [|a_tag rest IH]; intros links Hnd; simpl.
  { split; [done|]. by left. }
  assert (Hrest : ∀ l, NoDup l → (∀ x, x ∈ l → x ∈ links
                                        ∨ link_of base_domain base_url (a_tag :: rest) x) →
            NoDup (links_loop base_domain base_url rest l)
            ∧ ∀ link, link ∈ links_loop base_domain base_url rest l →
                link ∈ links ∨ link_of base_domain base_url (a_tag :: rest) link).
  { intros l Hl Hfrom. destruct (IH l Hl) as [H1 H2]. split; [done|].
    intros link Hlink. destruct (H2 link Hlink) as [Hin|Hof]; [by apply Hfrom|].
    right. destruct Hof as (t & a & f & Ht & Hrest). exists t, a, f.
    split; [by right|done]. }
  destruct (skipped_href _) eqn:Hskip.
  { apply Hrest; [done|]. by left. }
  destruct (full_url_of _ _) as [absolute|e] eqn:Hfull.
  2:{ split; [done|]. by left. }
  set (full_url := if contains "#" absolute then fst (split_once "#" absolute)
                   else absolute).
  case_bool_decide as Hdom; [|apply Hrest; [done|by left]].
  case_bool_decide as Hin; [apply Hrest; [done|by left]|].
  apply Hrest.
  - apply NoDup_app. split; [done|]. split; [|apply NoDup_singleton].
    intros x Hx ->%list_elem_of_singleton. done.
  - intros x [Hx| ->%list_elem_of_singleton]%elem_of_app; [by left|].
    right. exists a_tag, absolute, full_url.
    split; [by left|]. split; [done|]. split; [done|]. split; [done|].
    split; [|done]. unfold full_url.
    destruct (contains "#" absolute) eqn:Hc; [|done].
    apply CPythonFacts.contains_split_once_fst.
Qed.

(** X4. The links extracted from a page are pairwise distinct, and each one
    is the normal form of a fragment-free absolute URL on the base domain
    that comes from an [<a href>] of the page that is not a [mailto:],
    [tel:], [javascript:] or fragment reference. *)
Theorem extracted_links_distinct_on_domain (self : WebScraper.t)
    (html_content base_url : string) :
  NoDup (_extract_all_links_with_beautifulsoup self html_content base_url)
  ∧ ∀ link,
      link ∈ _extract_all_links_with_beautifulsoup self html_content base_url →
      ∃ soup,
        BeautifulSoup html_content = Returned soup
        ∧ link_of (WebScraper.base_domain self) base_url (Bs4.find_all_a_href soup) link.
Proof.
  unfold _extract_all_links_with_beautifulsoup.
  destruct (BeautifulSoup html_content) as [soup|e].
  - destruct (links_loop_spec (WebScraper.base_domain self) base_url
                (Bs4.find_all_a_href soup) [] (NoDup_nil_2)) as [Hnd Hfrom].
    split; [done|]. intros link Hlink. exists soup. split; [done|].
    destruct (Hfrom link Hlink) as [Hnil|Hof]; [by apply elem_of_nil in Hnil|done].
  - split; [apply NoDup_nil_2|]. intros link Hlink. by apply elem_of_nil in Hlink.
Qed.

End Links.

(** ** The bookkeeping of a crawl *)

Section Books.

Context {env : Env}.

Lemma fetching_urls_cons c p :
  fetching_urls (c :: p)
  = match fetching c with
    | Some (u, _) => u :: fetching_urls p
    | None => fetching_urls p
    end.
Proof. by destruct c. Qed.

Lemma fetching_urls_app p q :
  fetching_urls (p ++ q) = fetching_urls p ++ fetching_urls q.
Proof. apply omap_app. Qed.

Lemma fetching_urls_workers (p : list Coro) :
  (∀ c, c ∈ p → ∃ caller link d, c = Start caller link d) →
  fetching_urls p = [].
Proof.
  induction p as [|c p IH]; intros Hall; [done|].
  rewrite fetching_urls_cons.
  destruct (Hall c) as (caller & link & d & ->); [by left|]. simpl.
  apply IH. intros c' Hc'. apply Hall. by right.
Qed.

Lemma fetching_urls_perm p q : p ≡ₚ q → fetching_urls p ≡ₚ fetching_urls q.
Proof. intros H. unfold fetching_urls. by rewrite H. Qed.

Lemma books_inv_perm slf p q : p ≡ₚ q → books_inv slf p → books_inv slf q.
Proof.
  intros Hp [B1 B2 B3 B4 B5 B6 B7]. pose proof (fetching_urls_perm p q Hp) as Hf.
  split; try done.
  - by rewrite <- Hf.
  - intros u Hu. apply B2. by rewrite Hf.
  - intros u Hu Hn. apply B6; [done|]. by rewrite Hf.
Qed.

Lemma recordable_same_timeout a b url :
  WebScraper.timeout a = WebScraper.timeout b → recordable a url = recordable b url.
Proof. intros H. unfold recordable. by rewrite (fetch_same_timeout a b). Qed.

Lemma fetched_self md slf url html text d :
  self' (fetched md slf url html text d)
  = if bool_decide (html = "") then slf
    else _extract_comprehensive_data slf url html text d.
Proof.
  unfold fetched. case_bool_decide; [done|].
  destruct (d <? md)%Z; [|done].
  by destruct (_crawl_subpages _ _ _ _) as [[tasks waiting]|e].
Qed.

Lemma fetched_fetching_urls md slf url html text d :
  fetching_urls (spawned (fetched md slf url html text d)) = [].
Proof.
  destruct (fetched_spec md slf url html text d) as (_ & _ & _ & _ & Hsp & _).
  apply fetching_urls_workers. intros c Hc.
  destruct (Hsp c) as [_ [link ->]]; [set_solver|]. eauto.
Qed.

(** What [_extract_comprehensive_data] does to the books, by the answer of
    the parser. *)
Lemma extract_comprehensive_data_books slf url html text depth :
  let self2 := _extract_comprehensive_data slf url html text depth in
  match BeautifulSoup html with
  | Raised _ => self2 = slf
  | Returned _ =>
      ∃ entry m,
        Sitemap.crawl_structure (CrawlData.sitemap (WebScraper.crawl_data self2))
        = <[url := entry]>
            (Sitemap.crawl_structure (CrawlData.sitemap (WebScraper.crawl_data slf)))
        ∧ CrawlData.raw_html (WebScraper.crawl_data self2)
          = <[url := html]> (CrawlData.raw_html (WebScraper.crawl_data slf))
        ∧ CrawlData.metadata (WebScraper.crawl_data self2)
          = CrawlData.metadata (WebScraper.crawl_data slf) ++ [m]
        ∧ Metadata.page_url m = url
        ∧ entry_wf entry
  end.
Proof.
  unfold _extract_comprehensive_data.
  destruct (BeautifulSoup html) as [soup|e] eqn:Hsoup; [|done].
  eexists _, _. simpl. split; [done|]. split; [done|]. split; [done|].
  split; [apply extract_metadata_page|].
  unfold entry_wf. simpl. unfold slice_to. rewrite length_take.
  split; [lia|]. split; [|done].
  unfold _extract_all_links_with_beautifulsoup. rewrite Hsoup.
  destruct (links_loop_spec (WebScraper.base_domain slf) url
              (Bs4.find_all_a_href soup) [] (NoDup_nil_2)) as [Hnd _].
  rewrite <- (take_drop 10) in Hnd. by apply NoDup_app in Hnd as [Hnd _].
Qed.

(** The page of [url] has arrived. *)
Lemma books_fetched md slf c rest url d html text :
  fetching c = Some (url, d) →
  fetch slf url = Returned (html, text) →
  books_inv slf (c :: rest) →
  books_inv (self' (fetched md slf url html text d))
    (spawned (fetched md slf url html text d) ++ rest).
Proof.
  intros Hc Hfetch [B1 B2 B3 B4 B5 B6 B7].
  rewrite fetching_urls_cons, Hc in B1, B2, B6.
  apply NoDup_cons in B1 as [Hfresh B1].
  assert (Hpool : fetching_urls (spawned (fetched md slf url html text d) ++ rest)
                  = fetching_urls rest).
  { by rewrite fetching_urls_app, fetched_fetching_urls. }
  assert (Hsame : recordable slf url = None →
                  books_inv slf (spawned (fetched md slf url html text d) ++ rest)).
  { intros Hnone. split; rewrite ?Hpool; try done.
    - intros u Hu. apply B2. by right.
    - intros u Hu Hn. destruct (decide (u = url)) as [->|Hne].
      + rewrite Hnone. apply B2. by left.
      + apply B6; [done|]. by intros [?|?]%elem_of_cons. }
  rewrite fetched_self. case_bool_decide as Hhtml.
  { apply Hsame. unfold recordable. rewrite Hfetch. by rewrite bool_decide_eq_true_2. }
  pose proof (extract_comprehensive_data_books slf url html text d) as Hbooks.
  destruct (extract_comprehensive_data_spec slf url html text d)
    as ((_ & Htimeout & _) & Hvisited & _).
  simpl in Hbooks.
  destruct (BeautifulSoup html) as [soup|e] eqn:Hsoup.
  2:{ rewrite Hbooks. apply Hsame. unfold recordable.
      by rewrite Hfetch, bool_decide_eq_false_2, Hsoup. }
  destruct Hbooks as (entry & m & Hcs & Hraw & Hmd & Hmu & Hwf).
  assert (Hold : CrawlData.raw_html (WebScraper.crawl_data slf) !! url = None).
  { apply B2. by left. }
  split; rewrite ?Hpool, ?Hcs, ?Hraw, ?Hmd, ?Hvisited.
  - done.
  - intros u Hu. rewrite lookup_insert_ne; [apply B2; by right|].
    intros ->. done.
  - intros u. rewrite !lookup_insert_is_Some. by rewrite B3.
  - rewrite fmap_app. apply NoDup_app. split; [done|].
    split; [|apply NoDup_singleton].
    intros u Hu ->%list_elem_of_singleton. simpl in Hu. rewrite Hmu in Hu.
    apply B5 in Hu. rewrite Hold in Hu. by destruct Hu.
  - intros u. rewrite fmap_app, elem_of_app, lookup_insert_is_Some, B5. simpl.
    rewrite list_elem_of_singleton, Hmu.
    destruct (decide (url = u)); naive_solver.
  - intros u Hu Hn. rewrite <- (recordable_same_timeout slf) by done.
    destruct (decide (u = url)) as [->|Hne].
    + rewrite lookup_insert_eq. unfold recordable.
      by rewrite Hfetch, bool_decide_eq_false_2, Hsoup.
    + rewrite lookup_insert_ne by done.
      apply B6; [done|]. by intros [?|?]%elem_of_cons.
  - intros u e. intros [[<- <-]|[_ He]]%lookup_insert_Some; [done|]. by eapply B7.
Qed.

Lemma books_resumes md slf t c rest st rx r :
  resumes md slf c r →
  session_inv md (mkSession slf t (c :: rest) st rx) →
  books_inv slf (c :: rest) →
  books_inv (self' r) (spawned r ++ rest).
Proof.
  intros Hr Hinv Hb.
  assert (Hvis : ∀ u, u ∈ fetching_urls (c :: rest) → u ∈ WebScraper.crawled_urls slf).
  { intros u Hu. unfold fetching_urls in Hu. apply list_elem_of_omap in Hu
      as (c' & Hc' & Hf).
    destruct (fetching c') as [[u' d']|] eqn:E; [|done]. simpl in Hf. simplify_eq.
    destruct (inv_fetching _ _ Hinv c' u d' Hc' E) as [pt Hev].
    apply (inv_visited _ _ Hinv). simpl. eapply elem_of_arun_urls. eauto. }
  assert (Hraw : ∀ u, is_Some (CrawlData.raw_html (WebScraper.crawl_data slf) !! u) →
                      u ∈ WebScraper.crawled_urls slf).
  { intros u [h Hh].
    destruct (raw_html_from_trace _ _ _ (inv_data _ _ Hinv) u h Hh)
      as [(pt & d' & Hev) _].
    apply (inv_visited _ _ Hinv). simpl. eapply elem_of_arun_urls. eauto. }
  inversion Hr as [caller url d|caller url d Hd Hnew Hdom
                  |caller url d html text Hprim|caller url d e Hprim
                  |caller url d html text Hsec|caller url d e Hsec]; subst.
  - destruct Hb as [B1 B2 B3 B4 B5 B6 B7].
    rewrite fetching_urls_cons in B1, B2, B6. by split.
  - destruct Hb as [B1 B2 B3 B4 B5 B6 B7].
    rewrite fetching_urls_cons in B1, B2, B6, Hvis. simpl in *.
    split; simpl; rewrite ?fetching_urls_cons; simpl; try done.
    + apply NoDup_cons. split; [|done]. intros Hin. by apply Hnew, Hvis.
    + intros u [->|Hu]%elem_of_cons; [|by apply B2].
      destruct (CrawlData.raw_html (WebScraper.crawl_data slf) !! _normalize_url url)
        as [h|] eqn:E; [|done].
      exfalso. apply Hnew, Hraw. by rewrite E.
    + intros u Hu Hn. apply not_elem_of_cons in Hn as [Hne Hn].
      rewrite <- (recordable_same_timeout slf) by done.
      apply B6; [set_solver|done].
  - apply (books_fetched md slf (AwaitCrawl4ai caller url d) rest url d html text);
      [done| |done].
    unfold fetch. by rewrite Hprim.
  - destruct Hb as [B1 B2 B3 B4 B5 B6 B7].
    rewrite fetching_urls_cons in B1, B2, B6. simpl in *.
    split; simpl; rewrite ?fetching_urls_cons; simpl; done.
  - apply (books_fetched md slf (AwaitHttpx caller url d) rest url d html text);
      [done| |done].
    destruct (inv_await_httpx _ _ Hinv caller url d) as [e He]; [by left|].
    simpl in He. unfold fetch. by rewrite He.
  - destruct Hb as [B1 B2 B3 B4 B5 B6 B7].
    rewrite fetching_urls_cons in B1, B2, B6. simpl in *.
    apply NoDup_cons in B1 as [Hfresh B1].
    split; simpl; try done.
    + intros u Hu. apply B2. by right.
    + intros u Hu Hn. destruct (decide (u = url)) as [->|Hne].
      * rewrite (B2 url) by by left.
        destruct (inv_await_httpx _ _ Hinv caller url d) as [e' He']; [by left|].
        simpl in He'. unfold recordable, fetch. by rewrite He', Hsec.
      * apply B6; [done|]. by intros [?|?]%elem_of_cons.
Qed.

Lemma books_step md i s :
  session_inv md s →
  books_inv (self s) (pool s) →
  books_inv (self (step_at md i s)) (pool (step_at md i s)).
Proof.
  intros Hinv Hb.
  destruct (step_at_resumes md i s) as [[_ ->]|(k & c & r & Hc & Hr & ->)]; [done|].
  simpl. destruct s as [slf t p st rx]; simpl in *.
  pose proof (take_drop_middle p k c Hc) as Hp.
  assert (Hperm : p ≡ₚ c :: (take k p ++ drop (S k) p)).
  { rewrite <- Hp at 1. symmetry. apply Permutation_middle. }
  eapply (books_inv_perm _ (spawned r ++ (take k p ++ drop (S k) p))).
  { rewrite !app_assoc. apply Permutation_app_tail, Permutation_app_comm. }
  eapply (books_resumes md slf t c _ st rx r Hr).
  - eapply session_inv_perm; [exact Hperm|exact Hinv].
  - eapply books_inv_perm; [exact Hperm|exact Hb].
Qed.

Lemma books_initial slf url :
  WebScraper.crawled_urls slf = ∅ →
  WebScraper.crawl_data slf = empty_crawl_data →
  books_inv slf [Start ByScrape url 0].
Proof.
  intros Hv Hd. split; rewrite ?Hv, ?Hd; simpl.
  - constructor.
  - done.
  - intros u. by rewrite !lookup_empty.
  - constructor.
  - intros u. rewrite lookup_empty. split; [by intros ?%elem_of_nil|by intros [? ?]].
  - set_solver.
  - intros u e. by rewrite lookup_empty.
Qed.

(** The books are in order in every session of a crawl. *)
Lemma reachable_books slf url max_depth sched :
  let s := run (crawl_depth_of slf max_depth) sched (begin_session slf url max_depth) in
  books_inv (self s) (pool s).
Proof.
  apply (reachable_ind (fun s => books_inv (self s) (pool s))).
  - rewrite begin_session_eq. apply books_step.
    + by apply initial_inv.
    + by apply books_initial.
  - intros s i Hinv Hb. by apply books_step.
Qed.




Lemma grows_refl a : grows a a.
Proof. by split. Qed.

Lemma grows_trans a b c : grows a b → grows b c → grows a c.
Proof.
  intros [A1 A2 A3 A4 A5 A6 A7 A8 A9] [B1 B2 B3 B4 B5 B6 B7 B8 B9].
  split; by etransitivity.
Qed.

Lemma extract_comprehensive_data_grows slf url html text depth :
  CrawlData.raw_html (WebScraper.crawl_data slf) !! url = None →
  Sitemap.crawl_structure (CrawlData.sitemap (WebScraper.crawl_data slf)) !! url = None →
  grows slf (_extract_comprehensive_data slf url html text depth).
Proof.
  intros Hraw Hcs. unfold _extract_comprehensive_data.
  destruct (BeautifulSoup html) as [soup|e]; [|apply grows_refl].
  split; simpl; try apply prefix_app_r; try done; by apply insert_subseteq.
Qed.

Lemma resumes_grows md slf t c rest st rx r :
  resumes md slf c r →
  session_inv md (mkSession slf t (c :: rest) st rx) →
  books_inv slf (c :: rest) →
  grows slf (self' r).
Proof.
  intros Hr Hinv Hb.
  assert (Hfetched : ∀ url d html text,
            fetching c = Some (url, d) →
            grows slf (self' (fetched md slf url html text d))).
  { intros url d html text Hc. rewrite fetched_self.
    case_bool_decide; [apply grows_refl|].
    assert (Hraw : CrawlData.raw_html (WebScraper.crawl_data slf) !! url = None).
    { apply (books_fetching_fresh _ _ Hb). rewrite fetching_urls_cons, Hc. by left. }
    apply extract_comprehensive_data_grows; [done|].
    apply eq_None_not_Some. rewrite (books_sitemap _ _ Hb), Hraw. by intros [? ?]. }
  inversion Hr; subst; simpl; try apply grows_refl; try by eapply Hfetched.
  split; simpl; try done. set_solver.
Qed.

Lemma step_at_grows md i s :
  session_inv md s → books_inv (self s) (pool s) → grows (self s) (self (step_at md i s)).
Proof.
  intros Hinv Hb.
  destruct (step_at_resumes md i s) as [[_ ->]|(k & c & r & Hc & Hr & ->)];
    [apply grows_refl|].
  simpl. destruct s as [slf t p st rx]; simpl in *.
  pose proof (take_drop_middle p k c Hc) as Hp.
  assert (Hperm : p ≡ₚ c :: (take k p ++ drop (S k) p)).
  { rewrite <- Hp at 1. symmetry. apply Permutation_middle. }
  eapply (resumes_grows md slf t c _ st rx r Hr).
  - eapply session_inv_perm; [exact Hperm|exact Hinv].
  - eapply books_inv_perm; [exact Hperm|exact Hb].
Qed.

Lemma run_grows md sched s :
  session_inv md s → books_inv (self s) (pool s) → grows (self s) (self (run md sched s)).
Proof.
  revert s. induction sched as [|i sched IH]; intros s Hinv Hb; simpl;
    [apply grows_refl|].
  eapply grows_trans; [by apply step_at_grows|].
  apply IH; [by apply step_at_inv|by apply books_step].
Qed.

Lemma run_app md sched1 sched2 s :
  run md (sched1 ++ sched2) s = run md sched2 (run md sched1 s).
Proof. revert s. induction sched1 as [|i sched1 IH]; intros s; simpl; [done|apply IH]. Qed.


End Books.

(** ** Further properties of the contact extraction *)

Lemma lower_ascii_idemp a : lower_ascii (lower_ascii a) = lower_ascii a.
Proof. by destruct a as [[] [] [] [] [] [] [] []]. Qed.

Lemma lower_idemp s : lower (lower s) = lower s.
Proof. induction s as [|a s IH]; [done|]. simpl. by rewrite lower_ascii_idemp, IH. Qed.

Lemma NoDup_fmap_eq {A B} (f : A → B) (l : list A) x y :
  NoDup (f <$> l) → x ∈ l → y ∈ l → f x = f y → x = y.
Proof.
  induction l as [|z l IH]; [by intros _ ?%elem_of_nil|].
  rewrite fmap_cons. intros [Hz Hnd]%NoDup_cons.
  intros [->|Hx]%elem_of_cons [->|Hy]%elem_of_cons Hf; [done|..].
  - exfalso. apply Hz. rewrite Hf. by apply list_elem_of_fmap_2.
  - exfalso. apply Hz. rewrite <- Hf. by apply list_elem_of_fmap_2.
  - by apply IH.
Qed.

Lemma dedup_loop_sublist (l : list Contact.t) (seen : gset string) :
  dedup_loop l seen `sublist_of` l.
Proof.
  revert seen. induction l as [|c l IH]; intros seen; simpl; [done|].
  case_bool_decide; [by apply sublist_cons|by apply sublist_skip].
Qed.

Section ContactBounds.

Variable findall_email : string -> list string.
Variable findall_phone : nat -> string -> list PhoneMatch.
Variable list_of_set : list string -> list string.

Lemma element_contacts_lower base_url element c :
  c ∈ element_contacts findall_email base_url element →
  Contact.type c = "email" → lower (Contact.value c) = Contact.value c.
Proof.
  unfold element_contacts.
  repeat (case_bool_decide || case_match; simpl);
    rewrite ?elem_of_nil, ?list_elem_of_singleton;
    try (intros ->; simpl; by (discriminate || (intros _; apply lower_idemp)));
    try done.
  all: intros (e & -> & _)%list_elem_of_fmap; simpl; intros _; apply lower_idemp.
Qed.

Lemma all_contacts_lower soup base_url c :
  c ∈ all_contacts findall_email findall_phone list_of_set soup base_url →
  Contact.type c = "email" → lower (Contact.value c) = Contact.value c.
Proof.
  unfold all_contacts. rewrite !elem_of_app. intros [H|[H|H]].
  - apply list_elem_of_fmap in H as (e & -> & _). simpl. intros _. apply lower_idemp.
  - apply phone_loop_type in H as [-> _]. discriminate.
  - unfold selector_contacts in H.
    apply elem_of_concat in H as (l & Hc & Hl).
    apply list_elem_of_fmap in Hl as (sel & -> & _).
    apply elem_of_concat in Hc as (l' & Hc & Hl').
    apply list_elem_of_fmap in Hl' as (el & -> & _).
    by eapply element_contacts_lower.
Qed.

(** X9. The contacts returned for a page hold no two records with the same
    type and value; they are the list built by the three passes with later
    duplicates removed, in the same order: of the records of one type and
    value the first one of that list is kept, and only it; every type and
    value found by a pass is present; every record has type [email] or
    [phone] and the URL of the page. *)
Theorem contacts_unique_by_type_and_value (soup : Bs4.Soup) (base_url : string) :
  let found := all_contacts findall_email findall_phone list_of_set soup base_url in
  let unique_contacts :=
    _extract_contact_comprehensive findall_email findall_phone list_of_set
      soup base_url in
  NoDup (value_key <$> unique_contacts)
  ∧ (∀ c1 c2, c1 ∈ unique_contacts → c2 ∈ unique_contacts →
              Contact.type c1 = Contact.type c2 →
              Contact.value c1 = Contact.value c2 → c1 = c2)
  ∧ unique_contacts `sublist_of` found
  ∧ (∀ key,
        filter (fun c => value_key c = key) unique_contacts
        = take 1 (filter (fun c => value_key c = key) found))
  ∧ (∀ ty v,
        ty = "email" ∨ ty = "phone" →
        filter (fun c => Contact.type c = ty ∧ Contact.value c = v) unique_contacts
        = take 1 (filter (fun c => Contact.type c = ty ∧ Contact.value c = v) found))
  ∧ (∀ c, c ∈ found →
          ∃ c', c' ∈ unique_contacts
                ∧ Contact.type c' = Contact.type c
                ∧ Contact.value c' = Contact.value c)
  ∧ Forall (fun c => (Contact.type c = "email" ∨ Contact.type c = "phone")
                     ∧ Contact.page_url c = base_url) unique_contacts.
Proof.
  intros found unique_contacts.
  assert (Hnd : NoDup (value_key <$> unique_contacts)) by apply dedup_loop_keys_NoDup.
  assert (Hin : ∀ c, c ∈ unique_contacts → c ∈ found).
  { intros c Hc. by apply dedup_loop_elem in Hc as [Hc _]. }
  split; [done|]. split.
  { intros c1 c2 H1 H2 Hty Hv. apply (NoDup_fmap_eq value_key unique_contacts); try done.
    unfold value_key. by rewrite Hty, Hv. }
  split; [apply dedup_loop_sublist|]. split.
  { intros key. unfold unique_contacts, _extract_contact_comprehensive.
    fold found. rewrite dedup_loop_filter. by rewrite bool_decide_false by set_solver. }
  split.
  { intros ty v Hty.
    apply (extract_contact_pair findall_email findall_phone list_of_set
             soup base_url ty v Hty). }
  split.
  { intros c Hc.
    destruct (dedup_loop_complete c found ∅ Hc) as (c' & Hc' & Hk); [set_solver|].
    exists c'. split; [done|].
    apply value_key_inj; [| |done];
      eapply all_contacts_type; [by apply Hin|done]. }
  apply Forall_forall. intros c Hc. eapply all_contacts_type. by apply Hin.
Qed.

(** X10. Every e-mail address returned for a page is in lower case, from
    whichever pass it comes: the pattern on the page text, a [mailto:] link
    or the text of a selected element. *)
Theorem contact_emails_lower_case (soup : Bs4.Soup) (base_url : string) :
  Forall (fun c => Contact.type c = "email" →
                   lower (Contact.value c) = Contact.value c)
    (_extract_contact_comprehensive findall_email findall_phone list_of_set
       soup base_url).
Proof.
  apply Forall_forall. intros c Hc. apply dedup_loop_elem in Hc as [Hc _].
  by eapply all_contacts_lower.
Qed.

Lemma phone_loop_spec base_url matches processed :
  let found := phone_loop base_url matches processed in
  (length found ≤ length matches)%nat
  ∧ NoDup (phone_clean ∘ Contact.value <$> found)
  ∧ Forall (fun c => (10 ≤ String.length (phone_clean (Contact.value c)))%nat
                     ∧ (phone_clean (Contact.value c) ∉ processed)
                     ∧ ∃ m, m ∈ matches ∧ Contact.value c = phone_str m) found.
Proof.
  revert processed. induction matches as [|m matches IH]; intros processed; simpl.
  { split; [done|]. split; constructor. }
  destruct (IH processed) as (L1 & N1 & F1).
  destruct (IH ({[phone_clean (phone_str m)]} ∪ processed)) as (L2 & N2 & F2).
  destruct (bool_decide _ && negb _) eqn:E.
  - apply andb_true_iff in E as [Hlen Hnew].
    apply bool_decide_eq_true in Hlen. apply negb_true_iff, bool_decide_eq_false in Hnew.
    simpl. split; [lia|]. split.
    + apply NoDup_cons. split; [|done].
      intros (c & Hc & Hin)%list_elem_of_fmap. simpl in Hc.
      rewrite Forall_forall in F2. destruct (F2 c Hin) as (_ & Hfresh & _).
      rewrite <- Hc in Hfresh. set_solver.
    + constructor.
      * simpl. split; [done|]. split; [done|]. exists m. split; [by left|done].
      * eapply Forall_impl; [exact F2|]. simpl.
        intros c (H1 & H2 & m' & Hm' & Hv). split; [done|]. split; [set_solver|].
        exists m'. split; [by right|done].
  - split; [lia|]. split; [done|].
    eapply Forall_impl; [exact F1|]. simpl.
    intros c (H1 & H2 & m' & Hm' & Hv). split; [done|]. split; [done|].
    exists m'. split; [by right|done].
Qed.

Lemma phone_contacts_length base_url all_text :
  (length (phone_contacts findall_phone base_url all_text) ≤ 10)%nat.
Proof.
  unfold phone_contacts. set (ms := concat _).
  destruct (phone_loop_spec base_url (slice_to 10 ms) ∅) as (L & _).
  unfold slice_to in *. rewrite length_take in L. lia.
Qed.

(** X11. The pattern pass for phone numbers yields at most ten records;
    their numbers, reduced to digits and [+], are pairwise distinct and at
    least ten characters long; each value is a match of one of the four
    patterns on the page text (its groups joined, for a pattern with
    groups). *)
Theorem phone_pass_distinct_numbers (base_url all_text : string) :
  let found := phone_contacts findall_phone base_url all_text in
  (length found ≤ 10)%nat
  ∧ NoDup (phone_clean ∘ Contact.value <$> found)
  ∧ Forall (fun c =>
              (10 ≤ String.length (phone_clean (Contact.value c)))%nat
              ∧ Contact.type c = "phone" ∧ Contact.page_url c = base_url
              ∧ ∃ i m, (i < 4)%nat ∧ m ∈ findall_phone i all_text
                       ∧ Contact.value c = phone_str m) found.
Proof.
  intros found. unfold found, phone_contacts.
  set (ms := concat _).
  destruct (phone_loop_spec base_url (slice_to 10 ms) ∅) as (L & N & F).
  split; [apply phone_contacts_length|].
  split; [done|].
  apply Forall_forall. intros c Hc. rewrite Forall_forall in F.
  destruct (F c Hc) as (Hlen & _ & m & Hm & Hv).
  destruct (phone_loop_type base_url _ _ c Hc) as [Hty Hurl].
  split; [done|]. split; [done|]. split; [done|].
  unfold slice_to in Hm. apply elem_of_take in Hm as (k & Hm & _).
  apply list_elem_of_lookup_2 in Hm.
  apply elem_of_concat in Hm as (l & Hm & Hl).
  apply list_elem_of_fmap in Hl as (i & -> & Hi).
  exists i, m. split; [|done].
  repeat (apply elem_of_cons in Hi as [->|Hi]; [lia|]). by apply elem_of_nil in Hi.
Qed.

Lemma element_contacts_length base_url element :
  (length (element_contacts findall_email base_url element) ≤ 3)%nat.
Proof.
  unfold element_contacts.
  repeat (case_bool_decide || case_match; simpl); try lia.
  all: rewrite length_map; etransitivity; [apply length_filter|];
    unfold slice_to; rewrite length_take; lia.
Qed.

(** X12. The number of contacts of a page is bounded: at most ten from the
    e-mail pattern, ten from the phone patterns and three for every element
    selected by one of the eight selectors. *)
Theorem contact_count_bounded (soup : Bs4.Soup) (base_url : string) :
  let selected :=
    sum_list_with (fun selector => length (Bs4.select soup selector))
      contact_selectors in
  (length (email_contacts findall_email list_of_set base_url (Bs4.soup_get_text soup))
   ≤ 10)%nat
  ∧ (length (selector_contacts findall_email base_url soup) ≤ 3 * selected)%nat
  ∧ (length (_extract_contact_comprehensive findall_email findall_phone list_of_set
               soup base_url) ≤ 20 + 3 * selected)%nat.
Proof.
  intros selected.
  assert (He : (length (email_contacts findall_email list_of_set base_url
                          (Bs4.soup_get_text soup)) ≤ 10)%nat).
  { unfold email_contacts. rewrite length_map. etransitivity; [apply length_filter|].
    unfold slice_to. rewrite length_take. lia. }
  assert (Hs : (length (selector_contacts findall_email base_url soup)
                ≤ 3 * selected)%nat).
  { unfold selector_contacts, selected. clear selected.
    induction contact_selectors as [|sel sels IH]; [simpl; lia|].
    simpl. rewrite length_app.
    assert (Hel : ∀ els : list Bs4.Tag,
               (length (concat (map (element_contacts findall_email base_url) els))
                ≤ 3 * length els)%nat).
    { intros els. induction els as [|el els IHe]; [simpl; lia|].
      simpl. rewrite length_app.
      pose proof (element_contacts_length base_url el). lia. }
    specialize (Hel (Bs4.select soup sel)). lia. }
  split; [done|]. split; [done|].
  etransitivity.
  { apply sublist_length, dedup_loop_sublist. }
  unfold all_contacts. rewrite !length_app.
  pose proof (phone_contacts_length base_url (Bs4.soup_get_text soup)). lia.
Qed.

End ContactBounds.

(** ** Page metadata *)

Section MetadataFacts.

Lemma fold_meta_step_last (field : Metadata.t → string) (P : Bs4.Tag → Prop)
    `{∀ t, Decision (P t)} (value : Bs4.Tag → string) :
  (∀ m t, field (meta_step m t) = if decide (P t) then value t else field m) →
  ∀ tags m,
    field (fold_left meta_step tags m) = last_value P value (field m) tags.
Proof.
  intros Hstep tags. unfold last_value.
  induction tags as [|t tags IH]; intros m; simpl; [done|].
  rewrite IH, Hstep, filter_cons.
  destruct (decide (P t)); [|done].
  rewrite last_cons. by destruct (last (filter P tags)).
Qed.

Lemma set_canonical_fields m href :
  Metadata.canonical_url (set_canonical m href) = href
  ∧ Metadata.description (set_canonical m href) = Metadata.description m
  ∧ Metadata.keywords (set_canonical m href) = Metadata.keywords m
  ∧ Metadata.robots (set_canonical m href) = Metadata.robots m
  ∧ Metadata.og_title (set_canonical m href) = Metadata.og_title m
  ∧ Metadata.og_description (set_canonical m href) = Metadata.og_description m
  ∧ Metadata.og_image (set_canonical m href) = Metadata.og_image m
  ∧ Metadata.charset (set_canonical m href) = Metadata.charset m
  ∧ Metadata.title (set_canonical m href) = Metadata.title m
  ∧ Metadata.language (set_canonical m href) = Metadata.language m.
Proof. by destruct m. Qed.

Ltac meta_step_cases :=
  intros [] t; unfold meta_step;
  repeat case_bool_decide; repeat case_decide; simpl;
  unfold plain_meta, unnamed_meta, meta_name, meta_property in *;
  try done; try congruence; try (exfalso; set_solver).

Lemma meta_step_description m t :
  Metadata.description (meta_step m t)
  = if decide (meta_name t = "description") then Bs4.get t "content" ""
    else Metadata.description m.
Proof. revert m t. meta_step_cases. Qed.

Lemma meta_step_keywords m t :
  Metadata.keywords (meta_step m t)
  = if decide (meta_name t = "keywords") then Bs4.get t "content" ""
    else Metadata.keywords m.
Proof. revert m t. meta_step_cases. Qed.

Lemma meta_step_og_title m t :
  Metadata.og_title (meta_step m t)
  = if decide (unnamed_meta t ∧ meta_property t = "og:title")
    then Bs4.get t "content" "" else Metadata.og_title m.
Proof. revert m t. meta_step_cases. Qed.

Lemma meta_step_charset m t :
  Metadata.charset (meta_step m t)
  = if decide (plain_meta t ∧ Bs4.get t "charset" "" ≠ "")
    then Bs4.get t "charset" "" else Metadata.charset m.
Proof. revert m t. meta_step_cases. Qed.

Lemma meta_step_fixed m t :
  Metadata.title (meta_step m t) = Metadata.title m
  ∧ Metadata.language (meta_step m t) = Metadata.language m
  ∧ Metadata.canonical_url (meta_step m t) = Metadata.canonical_url m
  ∧ Metadata.extraction_method (meta_step m t) = Metadata.extraction_method m.
Proof. revert m t. meta_step_cases. Qed.

Lemma fold_meta_step_fixed tags m :
  Metadata.title (fold_left meta_step tags m) = Metadata.title m
  ∧ Metadata.language (fold_left meta_step tags m) = Metadata.language m
  ∧ Metadata.canonical_url (fold_left meta_step tags m) = Metadata.canonical_url m.
Proof.
  revert m. induction tags as [|t tags IH]; intros m; simpl; [done|].
  destruct (IH (meta_step m t)) as (-> & -> & ->).
  destruct (meta_step_fixed m t) as (-> & -> & -> & _). done.
Qed.


End MetadataFacts.

(** * Properties of [app.utils.helpers] *)

(** ** Texts and character classes *)

Module PyStrFacts.

Lemma all_chars_impl (f g : ascii → bool) s :
  (∀ a, f a = true → g a = true) → all_chars f s = true → all_chars g s = true.
Proof.
  intros Hfg. induction s as [|a s IH]; [done|]. simpl.
  intros [Ha Hs]%andb_true_iff. by rewrite (Hfg a Ha), IH.
Qed.

Lemma all_chars_ext_in (q f g : ascii → bool) s :
  all_chars q s = true → (∀ a, q a = true → f a = g a) →
  all_chars f s = all_chars g s.
Proof.
  intros Hq Hfg. induction s as [|a s IH]; [done|]. simpl in *.
  apply andb_true_iff in Hq as [Ha Hs]. by rewrite (Hfg a Ha), IH.
Qed.

Lemma all_chars_app f s t :
  all_chars f (s +:+ t) = all_chars f s && all_chars f t.
Proof.
  induction s as [|a s IH]; [done|]. rewrite app_String. simpl.
  by rewrite IH, andb_assoc.
Qed.

Lemma all_chars_remove_chars (p g : ascii → bool) s :
  (∀ a, g a = false → p a = true) → all_chars p (remove_chars g s) = true.
Proof.
  intros Hp. induction s as [|a s IH]; [done|]. simpl.
  destruct (g a) eqn:E; [done|]. simpl. by rewrite (Hp a E).
Qed.

Lemma all_chars_re_sub_runs_from (p q cls : ascii → bool) repl in_run s :
  (∀ a, q a = true → cls a = false → p a = true) → all_chars p repl = true →
  all_chars q s = true →
  all_chars p (re_sub_runs_from cls repl in_run s) = true.
Proof.
  intros Hp Hrepl. revert in_run. induction s as [|a s IH]; intros in_run; [done|].
  simpl. intros [Ha Hs]%andb_true_iff. destruct (cls a) eqn:E.
  - destruct in_run; [by apply IH|]. by rewrite all_chars_app, Hrepl, IH.
  - simpl. by rewrite (Hp a Ha E), IH.
Qed.

Lemma all_chars_lower (p q : ascii → bool) s :
  (∀ a, q a = true → p (lower_ascii a) = true) →
  all_chars q s = true → all_chars p (lower s) = true.
Proof.
  intros Hp. induction s as [|a s IH]; [done|]. simpl.
  intros [Ha Hs]%andb_true_iff. by rewrite (Hp a Ha), IH.
Qed.

Lemma all_chars_lstrip_by p f s :
  all_chars p s = true → all_chars p (lstrip_by f s) = true.
Proof.
  induction s as [|a s IH]; [done|]. simpl. intros H.
  destruct (f a); [|done]. apply IH. by apply andb_true_iff in H as [_ H].
Qed.

Lemma all_chars_rstrip_by p f s :
  all_chars p s = true → all_chars p (rstrip_by f s) = true.
Proof.
  induction s as [|a s IH]; [done|]. simpl. intros [Ha Hs]%andb_true_iff.
  destruct (_ && _); [done|]. simpl. by rewrite Ha, IH.
Qed.

Lemma lstrip_by_head f s a t : lstrip_by f s = String a t → f a = false.
Proof.
  induction s as [|b s IH]; [done|]. simpl.
  destruct (f b) eqn:E; [done|]. by intros [= <- _].
Qed.

Lemma rstrip_by_last f s c : last_char (rstrip_by f s) = Some c → f c = false.
Proof.
  induction s as [|a s IH]; [done|]. simpl.
  destruct (rstrip_by f s) as [|b r] eqn:E.
  - case_bool_decide as Hbd; [clear Hbd|done]. simpl.
    destruct (f a) eqn:Ha; [done|]. simpl. by intros [= <-].
  - case_bool_decide as Hbd; [done|clear Hbd]. simpl. done.
Qed.

Lemma rstrip_by_empty f s : rstrip_by f s = "" ↔ all_chars f s = true.
Proof.
  induction s as [|a s IH]; [done|]. simpl.
  destruct (rstrip_by f s) as [|b r] eqn:E.
  - case_bool_decide as Hbd; [clear Hbd|done]. simpl.
    destruct (f a); simpl; [by rewrite <- IH|done].
  - case_bool_decide as Hbd; [done|clear Hbd]. simpl.
    split; [done|]. intros [_ H]%andb_true_iff. by apply IH in H.
Qed.

Lemma lstrip_by_all f s : all_chars f (lstrip_by f s) = all_chars f s.
Proof.
  induction s as [|a s IH]; [done|]. simpl.
  destruct (f a) eqn:E; [done|]. simpl. by rewrite E.
Qed.

Lemma startswith_char a t c :
  startswith (String a t) (String c "") = Ascii.eqb a c.
Proof.
  unfold startswith. simpl. destruct (ascii_dec c a) as [->|Hne].
  - rewrite Ascii.eqb_refl. by destruct t.
  - symmetry. apply Ascii.eqb_neq. congruence.
Qed.

Lemma strip_char_empty c s :
  strip_char c s = "" ↔ all_chars (fun a => Ascii.eqb a c) s = true.
Proof. unfold strip_char. by rewrite rstrip_by_empty, lstrip_by_all. Qed.

Lemma strip_char_ends c s :
  startswith (strip_char c s) (String c "") = false
  ∧ last_char (strip_char c s) ≠ Some c.
Proof.
  unfold strip_char. split.
  - destruct (lstrip_by _ s) as [|a t] eqn:E; [done|].
    apply lstrip_by_head in E. simpl. rewrite E, andb_false_r.
    by rewrite startswith_char.
  - intros H. apply rstrip_by_last in H. by rewrite Ascii.eqb_refl in H.
Qed.

Lemma remove_chars_id g s :
  all_chars (fun a => negb (g a)) s = true → remove_chars g s = s.
Proof.
  induction s as [|a s IH]; [done|]. simpl. intros [Ha Hs]%andb_true_iff.
  apply negb_true_iff in Ha. by rewrite Ha, IH.
Qed.

Lemma re_sub_runs_from_id cls repl in_run s :
  all_chars (fun a => negb (cls a)) s = true →
  re_sub_runs_from cls repl in_run s = s.
Proof.
  revert in_run. induction s as [|a s IH]; intros in_run; [done|]. simpl.
  intros [Ha Hs]%andb_true_iff. apply negb_true_iff in Ha. by rewrite Ha, IH.
Qed.

Lemma lower_id s : all_chars (fun a => negb (is_upper a)) s = true → lower s = s.
Proof.
  induction s as [|a s IH]; [done|]. simpl. intros [Ha Hs]%andb_true_iff.
  rewrite IH by done. f_equal. apply negb_true_iff in Ha.
  unfold lower_ascii. unfold is_upper in Ha. by rewrite Ha.
Qed.

Lemma lstrip_by_id f s : startswith s "" = true →
  (∀ a t, s = String a t → f a = false) → lstrip_by f s = s.
Proof. intros _ H. destruct s as [|a t]; [done|]. simpl. by rewrite (H a t). Qed.

Lemma rstrip_by_id f s :
  (∀ c, last_char s = Some c → f c = false) → rstrip_by f s = s.
Proof.
  induction s as [|a s IH]; [done|]. intros H. simpl.
  destruct s as [|b s'].
  - simpl. by rewrite (H a).
  - rewrite IH by (intros c Hc; by apply H).
    by case_bool_decide.
Qed.

Lemma all_chars_remove_chars_same (p g : ascii → bool) s :
  (∀ a, g a = true → p a = true) →
  all_chars p (remove_chars g s) = all_chars p s.
Proof.
  intros Hp. induction s as [|a s IH]; [done|]. simpl.
  destruct (g a) eqn:E; simpl; [by rewrite (Hp a E)|by rewrite IH].
Qed.

Lemma all_chars_re_sub_runs_same (p cls : ascii → bool) repl in_run s :
  (∀ a, cls a = true → p a = true) → all_chars p repl = true →
  all_chars p (re_sub_runs_from cls repl in_run s) = all_chars p s.
Proof.
  intros Hp Hrepl. revert in_run. induction s as [|a s IH]; intros in_run; [done|].
  simpl. destruct (cls a) eqn:E.
  - rewrite (Hp a E). simpl. destruct in_run; [apply IH|].
    by rewrite all_chars_app, Hrepl, IH.
  - simpl. by rewrite IH.
Qed.

Lemma all_chars_lower_same (p : ascii → bool) s :
  (∀ a, p (lower_ascii a) = p a) → all_chars p (lower s) = all_chars p s.
Proof.
  intros Hp. induction s as [|a s IH]; [done|]. simpl. by rewrite Hp, IH.
Qed.

End PyStrFacts.

Import PyStrFacts.

(** ** [sanitize_company_name] *)

Ltac ascii_cases :=
  let a := fresh "a" in
  intros a; destruct a as [[] [] [] [] [] [] [] []]; vm_compute;
  first [reflexivity | intros; discriminate | intros; reflexivity].

Lemma sanitize_company_name_safe company_name :
  all_chars is_path_safe (sanitize_company_name company_name) = true.
Proof.
  unfold sanitize_company_name, strip_char, re_sub_class, re_sub_runs.
  apply all_chars_rstrip_by, all_chars_lstrip_by.
  apply (all_chars_lower _ is_word).
  { ascii_cases. }
  apply (all_chars_re_sub_runs_from _
           (fun a => is_word a || isspace a || Ascii.eqb a "-")); [|done|].
  { ascii_cases. }
  apply all_chars_remove_chars. intros a Ha. by apply negb_false_iff in Ha.
Qed.

Lemma sanitize_company_name_fixed r :
  all_chars is_path_safe r = true →
  startswith r "_" = false →
  last_char r ≠ Some "_"%char →
  sanitize_company_name r = r.
Proof.
  intros Hsafe Hhead Hlast.
  unfold sanitize_company_name, strip_char, re_sub_class, re_sub_runs.
  rewrite remove_chars_id.
  2:{ eapply all_chars_impl; [|exact Hsafe]. ascii_cases. }
  rewrite re_sub_runs_from_id.
  2:{ eapply all_chars_impl; [|exact Hsafe]. ascii_cases. }
  rewrite lower_id.
  2:{ eapply all_chars_impl; [|exact Hsafe]. ascii_cases. }
  rewrite (lstrip_by_id _ r); [|by destruct r|].
  2:{ intros a t ->. by rewrite startswith_char in Hhead. }
  apply rstrip_by_id. intros c Hc.
  destruct (Ascii.eqb_spec c "_") as [->|]; [done|done].
Qed.

(** X14. The sanitized form of an ASCII company name consists of lower-case
    letters, digits and underscores, neither starts nor ends with an
    underscore, is left unchanged by a second sanitization, and is empty
    exactly when the name has no letter and no digit. *)
Theorem sanitize_company_name_spec (company_name : string) :
  isascii company_name = true →
  let sanitized := sanitize_company_name company_name in
  all_chars is_path_safe sanitized = true
  ∧ startswith sanitized "_" = false
  ∧ last_char sanitized ≠ Some "_"%char
  ∧ sanitize_company_name sanitized = sanitized
  ∧ (sanitized = "" ↔ all_chars (fun a => negb (is_alnum a)) company_name = true).
Proof.
  intros _ sanitized.
  pose proof (sanitize_company_name_safe company_name) as Hsafe.
  destruct (strip_char_ends "_"
              (lower (re_sub_runs (fun a => Ascii.eqb a "-" || isspace a) "_"
                        (re_sub_class
                           (fun a => negb (is_word a || isspace a || Ascii.eqb a "-"))
                           company_name)))) as [Hhead Hlast].
  split; [exact Hsafe|]. split; [exact Hhead|]. split; [exact Hlast|].
  split; [by apply sanitize_company_name_fixed|].
  unfold sanitized, sanitize_company_name. rewrite strip_char_empty.
  set (s1 := re_sub_class _ company_name).
  set (s2 := re_sub_runs _ _ s1).
  assert (Hword : all_chars is_path_safe (lower s2) = true).
  { apply (all_chars_lower _ is_word).
    { ascii_cases. }
    apply (all_chars_re_sub_runs_from _
             (fun a => is_word a || isspace a || Ascii.eqb a "-")); [|done|].
    { ascii_cases. }
    apply all_chars_remove_chars. intros a Ha. by apply negb_false_iff in Ha. }
  rewrite (all_chars_ext_in is_path_safe _ (fun a => negb (is_alnum a)) _ Hword).
  2:{ ascii_cases. }
  rewrite all_chars_lower_same by (ascii_cases).
  unfold s2, re_sub_runs.
  rewrite all_chars_re_sub_runs_same; [|ascii_cases|done].
  unfold s1, re_sub_class.
  rewrite all_chars_remove_chars_same; [done|].
  ascii_cases.
Qed.

(** ** [generate_file_name] and [generate_s3_key] *)

Lemma path_safe_no_slash s : all_chars is_path_safe s = true → contains "/" s = false.
Proof.
  induction s as [|a s IH]; [done|]. simpl. intros [Ha Hs]%andb_true_iff.
  rewrite IH by done. destruct (Ascii.eqb_spec a "/") as [->|]; [done|done].
Qed.

Lemma contains_literal_app c (a b : string) :
  contains c (a +:+ b) = contains c a || contains c b.
Proof.
  induction a as [|x a IH]; [done|]. rewrite app_String. simpl.
  by destruct (Ascii.eqb x c).
Qed.

Lemma generate_file_name_no_slash timestamp company_name data_type :
  all_chars is_path_safe timestamp = true →
  contains "/" (generate_file_name timestamp company_name data_type) = false.
Proof.
  intros Hts. unfold generate_file_name.
  pose proof (path_safe_no_slash _ (sanitize_company_name_safe company_name)) as Hc.
  pose proof (path_safe_no_slash _ (sanitize_company_name_safe data_type)) as Hd.
  pose proof (path_safe_no_slash _ Hts) as Ht.
  case_bool_decide; rewrite !contains_literal_app, ?Hc, ?Hd, ?Ht; done.
Qed.

(** X15. The storage key of an uploaded file.  The file name generated for
    an ASCII company name and data type has no path separator, so the key
    [company/data_type/file_name] has the sanitized company name as its
    first segment and the data type and file name after it; two keys are
    equal only for company names with the same sanitized form, and company
    names with the same sanitized form share their keys. *)
Theorem storage_key_segments (timestamp company_name data_type : string) :
  isascii company_name = true →
  isascii data_type = true →
  all_chars is_path_safe timestamp = true →
  let file_name := generate_file_name timestamp company_name data_type in
  let s3_key := generate_s3_key company_name data_type file_name in
  contains "/" file_name = false
  ∧ split_once "/" s3_key
    = (sanitize_company_name company_name, Some (data_type +:+ "/" +:+ file_name))
  ∧ (∀ other data_type' file_name',
        generate_s3_key other data_type' file_name' = s3_key →
        sanitize_company_name other = sanitize_company_name company_name
        ∧ data_type' +:+ "/" +:+ file_name' = data_type +:+ "/" +:+ file_name)
  ∧ (∀ other,
        sanitize_company_name other = sanitize_company_name company_name →
        generate_s3_key other data_type file_name = s3_key).
Proof.
  intros _ _ Hts file_name s3_key.
  assert (Hsplit : ∀ c d f,
            split_once "/" (generate_s3_key c d f)
            = (sanitize_company_name c, Some (d +:+ "/" +:+ f))).
  { intros c d f. unfold generate_s3_key.
    apply CPythonRoundTrip.split_once_append, path_safe_no_slash,
      sanitize_company_name_safe. }
  split; [by apply generate_file_name_no_slash|].
  split; [apply Hsplit|]. split.
  - intros other d' f' Heq.
    pose proof (Hsplit other d' f') as H1. rewrite Heq in H1.
    unfold s3_key in H1. rewrite Hsplit in H1. by simplify_eq.
  - intros other Heq. unfold s3_key, generate_s3_key. by rewrite Heq.
Qed.

(** ** [is_retriable_error] and [retry_async] *)

Lemma str_in_eq needle hay :
  str_in needle hay
  = String.prefix needle hay
    || match hay with
       | EmptyString => false
       | String _ hay' => str_in needle hay'
       end.
Proof. by destruct hay. Qed.

Lemma string_prefix_cons a p b s :
  String.prefix (String a p) (String b s)
  = if ascii_dec a b then String.prefix p s else false.
Proof. reflexivity. Qed.

Lemma prefix_append_str_in p q s :
  String.prefix (p +:+ q) s = true → str_in q s = true.
Proof.
  revert s. induction p as [|a p IH]; intros s H.
  - change ("" +:+ q) with q in H. by rewrite str_in_eq, H.
  - destruct s as [|b s]; [done|]. rewrite app_String, string_prefix_cons in H.
    destruct (ascii_dec a b); [|done].
    rewrite str_in_eq, (IH s H). by rewrite orb_true_r.
Qed.

Lemma str_in_suffix p q s : str_in (p +:+ q) s = true → str_in q s = true.
Proof.
  induction s as [|b s IH]; rewrite (str_in_eq (p +:+ q)).
  - rewrite orb_false_r. apply prefix_append_str_in.
  - intros [H|H]%orb_true_iff; [by apply (prefix_append_str_in p)|].
    rewrite str_in_eq, (IH H). by rewrite orb_true_r.
Qed.

(** X16. Which errors are retried: every [OSError] (so the built-in
    [TimeoutError] and [ConnectionError]), and otherwise the errors whose
    text contains, in any letter case, one of the first eight keywords; the
    ninth keyword, [bad gateway], never decides, since a text that contains
    it contains [gateway]. *)
Theorem is_retriable_error_keywords (error : Error.t) :
  is_retriable_error error
  = Error.isinstance_OSError error
    || existsb (fun keyword => str_in keyword (lower (Error.str error)))
         ["timeout"; "connection"; "network"; "temporary"; "rate limit";
          "too many requests"; "server error"; "gateway"]
  ∧ (∀ other,
        Error.isinstance_OSError other = Error.isinstance_OSError error →
        lower (Error.str other) = lower (Error.str error) →
        is_retriable_error other = is_retriable_error error).
Proof.
  split.
  - unfold is_retriable_error, retriable_keywords.
    destruct (Error.isinstance_OSError error); [done|].
    cbn [existsb orb].
    destruct (str_in "bad gateway" (lower (Error.str error))) eqn:E.
    + rewrite (str_in_suffix "bad " "gateway" _ E). by rewrite !orb_true_r.
    + by rewrite !orb_false_r.
  - intros other Hos Hstr. unfold is_retriable_error. by rewrite Hos, Hstr.
Qed.

Lemma retry_loop_spec {A} (func : nat → Awaited A) (max_retries : Z)
    fuel attempt delay backoff_factor last_exception :
  (Z.of_nat attempt + Z.of_nat fuel = max_retries + 1)%Z →
  (0 < fuel)%nat →
  let r := retry_loop func max_retries attempt fuel delay backoff_factor
             last_exception in
  let k := length (snd r) in
  (Z.of_nat (attempt + k) ≤ max_retries)%Z
  ∧ fst r = func (attempt + k)%nat
  ∧ (∀ i, (i < k)%nat →
          ∃ e, func (attempt + i)%nat = Err e ∧ is_retriable_error e = true)
  ∧ (∀ e, func (attempt + k)%nat = Err e →
          Z.of_nat (attempt + k) = max_retries ∨ is_retriable_error e = false)
  ∧ (∀ i d, snd r !! i = Some d → d = delay_before_retry delay backoff_factor i).
Proof.
  revert attempt delay last_exception.
  induction fuel as [|fuel IH]; intros attempt delay last_exception Hsum Hpos; [lia|].
  simpl. destruct (func attempt) as [value|e] eqn:Hcall.
  { simpl. rewrite Nat.add_0_r, Hcall. split; [lia|]. split; [done|].
    split; [intros i Hi; lia|]. split; [done|]. intros i d Hi. done. }
  destruct ((Z.of_nat attempt =? max_retries)%Z || negb (is_retriable_error e)) eqn:Hstop.
  { simpl. rewrite Nat.add_0_r, Hcall. split; [lia|]. split; [done|].
    split; [intros i Hi; lia|]. split.
    - intros e' [= <-]. apply orb_true_iff in Hstop as [H|H].
      + left. by apply Z.eqb_eq in H.
      + right. by apply negb_true_iff in H.
    - intros i d Hi. done. }
  apply orb_false_iff in Hstop as [Hne Hretry].
  apply Z.eqb_neq in Hne. apply negb_false_iff in Hretry.
  specialize (IH (S attempt) (delay * backoff_factor)%Q (Some e)).
  destruct (retry_loop func max_retries (S attempt) fuel (delay * backoff_factor)%Q
              backoff_factor (Some e)) as [result slept] eqn:Hloop.
  simpl in *.
  destruct IH as (H1 & H2 & H3 & H4 & H5); [lia|lia|].
  replace (attempt + S (length slept))%nat with (S (attempt + length slept)) by lia.
  split; [done|]. split; [done|]. split.
  { intros [|i] Hi.
    - rewrite Nat.add_0_r. eauto.
    - replace (attempt + S i)%nat with (S (attempt + i)) by lia. apply H3. lia. }
  split; [done|].
  intros [|i] d Hi; simpl in *; [by simplify_eq|]. by apply H5.
Qed.

(** X17. What [retry_async] does.  With a negative [max_retries] the
    function is never called and [raise None] raises a [TypeError].
    Otherwise the function is called at most [max_retries + 1] times; every
    call but the last raised a retriable error and was followed by a sleep,
    the first of [delay] seconds and each next one [backoff_factor] times
    longer; the outcome is the outcome of the last call, which either
    returned, or raised an error that is not retriable, or was the call
    number [max_retries + 1]. *)
Theorem retry_async_outcome {A} (func : nat → Awaited A) (max_retries : Z)
    (delay backoff_factor : Q) :
  let r := retry_async func max_retries delay backoff_factor in
  let retries := length (snd r) in
  ((max_retries < 0)%Z → r = (Err raise_None, []))
  ∧ ((0 ≤ max_retries)%Z →
     (Z.of_nat retries ≤ max_retries)%Z
     ∧ fst r = func retries
     ∧ (∀ i, (i < retries)%nat →
             ∃ e, func i = Err e ∧ is_retriable_error e = true)
     ∧ (∀ e, func retries = Err e →
             Z.of_nat retries = max_retries ∨ is_retriable_error e = false)
     ∧ (∀ i d, snd r !! i = Some d → d = delay_before_retry delay backoff_factor i)).
Proof.
  intros r retries. split.
  - intros Hneg. unfold r, retry_async.
    replace (Z.to_nat (max_retries + 1)) with 0%nat by lia. done.
  - intros Hpos.
    apply (retry_loop_spec func max_retries (Z.to_nat (max_retries + 1)) 0
             delay backoff_factor None); lia.
Qed.

(** ** [validate_url] and [extract_company_name_from_url] *)

Lemma split_nonempty c s : split c s ≠ [].
Proof.
  destruct s as [|a s]; [done|]. simpl.
  destruct (Ascii.eqb a c); [done|]. by destruct (split c s).
Qed.

Lemma split_no_separator c s : contains c s = false → split c s = [s].
Proof.
  induction s as [|a s IH]; [done|]. simpl.
  destruct (Ascii.eqb a c); [done|]. intros H. by rewrite IH.
Qed.

Lemma split_label c p d :
  contains c p = false → split c (p +:+ String c d) = p :: split c d.
Proof.
  induction p as [|a p IH]; simpl.
  { intros _. by rewrite Ascii.eqb_refl. }
  destruct (Ascii.eqb a c); [done|]. intros H. by rewrite IH.
Qed.

Lemma split_two c d :
  contains c d = true →
  ∃ second rest, split c d = fst (split_once c d) :: second :: rest.
Proof.
  induction d as [|a d IH]; [done|]. simpl.
  destruct (Ascii.eqb a c).
  - intros _. pose proof (split_nonempty c d).
    destruct (split c d) as [|h t]; [done|]. simpl. eauto.
  - intros H. destruct (IH H) as (second & rest & ->).
    destruct (split_once c d) as [h t]. simpl. eauto.
Qed.

Lemma lower_empty s : lower s = "" → s = "".
Proof. by destruct s. Qed.

Lemma contains_lstrip_by c f s :
  contains c s = false → contains c (lstrip_by f s) = false.
Proof.
  induction s as [|a s IH]; [done|]. simpl.
  destruct (f a), (Ascii.eqb a c) eqn:E; try done; simpl; by rewrite ?E.
Qed.

Lemma contains_remove_chars c f s :
  contains c s = false → contains c (remove_chars f s) = false.
Proof.
  induction s as [|a s IH]; [done|]. simpl.
  destruct (Ascii.eqb a c) eqn:E; [done|]. intros H.
  destruct (f a); simpl; rewrite ?E; by apply IH.
Qed.

Lemma cpython_urlparse_no_colon url parsed :
  contains ":" url = false →
  cpython_urlparse url = Returned parsed → scheme parsed = "".
Proof.
  intros Hc. unfold cpython_urlparse, urlsplit.
  set (u := remove_chars unsafe_byte (lstrip_by c0_control_or_space url)).
  assert (Hs : split_scheme u = ("", u)).
  { unfold split_scheme. rewrite CPythonRoundTrip.split_once_none; [by destruct u|].
    by apply contains_remove_chars, contains_lstrip_by. }
  rewrite Hs.
  destruct (if startswith u "//" then splitnetloc u else ("", u)) as [nl rest].
  destruct (xorb _ _); [done|].
  destruct (split_once "#" rest) as [r1 [f|]];
    destruct (split_once "?" r1) as [r2 [q|]];
    destruct (_ && _); try destruct (splitparams r2);
    by intros [= <-].
Qed.

Section UrlHelperFacts.

Context {env : Env}.

(** X18. A URL that [validate_url] accepts parses, with a scheme and a
    host, and its domain as [extract_domain_from_url] gives it, which is the
    base domain of the crawl, is the lower-cased host and is not empty.
    With CPython's [urlparse], a text without a colon is never accepted. *)
Theorem validate_url_domain (url : string) :
  (validate_url url = true →
   ∃ parsed,
     urlparse url = Returned parsed
     ∧ scheme parsed ≠ "" ∧ netloc parsed ≠ ""
     ∧ extract_domain_from_url url = lower (netloc parsed)
     ∧ extract_domain_from_url url ≠ "")
  ∧ (urlparse = cpython_urlparse → contains ":" url = false →
     validate_url url = false).
Proof.
  unfold validate_url, extract_domain_from_url. split.
  - destruct (urlparse url) as [parsed|e]; [|done].
    intros [Hs Hn]%andb_true_iff.
    apply negb_true_iff, bool_decide_eq_false in Hs, Hn.
    exists parsed. split; [done|]. split; [done|]. split; [done|]. split; [done|].
    intros H. by apply lower_empty in H.
  - intros Hparse Hc. rewrite Hparse.
    destruct (cpython_urlparse url) as [parsed|e] eqn:E; [|done].
    rewrite (cpython_urlparse_no_colon url parsed Hc E).
    by rewrite bool_decide_eq_true_2.
Qed.


End UrlHelperFacts.

(** * Instances of the further properties *)



(** A company name with punctuation, spaces and capitals. *)
Lemma sanitize_company_name_spec_witness :
  let sanitized := sanitize_company_name "Acme & Co. Ltd" in
  all_chars is_path_safe sanitized = true
  ∧ startswith sanitized "_" = false
  ∧ last_char sanitized ≠ Some "_"%char
  ∧ sanitize_company_name sanitized = sanitized
  ∧ (sanitized = "" ↔ all_chars (fun a => negb (is_alnum a)) "Acme & Co. Ltd" = true).
Proof. apply (sanitize_company_name_spec "Acme & Co. Ltd"). reflexivity. Defined.

(** The key of the contact file of that company. *)
Lemma storage_key_segments_witness :
  split_once "/"
    (generate_s3_key "Acme & Co. Ltd" "contact"
       (generate_file_name "20250101_120000" "Acme & Co. Ltd" "contact"))
  = ("acme_co_ltd", Some "contact/acme_co_ltd_contact_20250101_120000.json").
Proof.
  refine (proj1 (proj2 (storage_key_segments "20250101_120000" "Acme & Co. Ltd"
                          "contact" _ _ _))); reflexivity.
Defined.

(** A web address with scheme and host is accepted, and its domain is the
    host. *)
Lemma validate_url_domain_witness :
  ∃ parsed,
    @urlparse dead_site "https://Ex.com/a" = Returned parsed
    ∧ scheme parsed ≠ "" ∧ netloc parsed ≠ ""
    ∧ @extract_domain_from_url dead_site "https://Ex.com/a" = lower (netloc parsed)
    ∧ @extract_domain_from_url dead_site "https://Ex.com/a" ≠ "".
Proof.
  apply (proj1 (@validate_url_domain dead_site "https://Ex.com/a")). reflexivity.
Defined.

